(** * ggentropy: a shallow embedding of [src/ggentropy.c]

    The C file fills a caller-supplied buffer with bytes obtained from
    the operating system.  The operating system is modelled as a
    deterministic transition system over an abstract world [W]: every
    primitive the code invokes is a function of the world.  The code is
    embedded as functions over an explicit machine state (world, memory,
    [errno], the static flag [getrandom_available] and a log of the
    primitives invoked); loops carry a fuel argument, and [assert] is
    taken as compiled in ([NDEBUG] not defined).  Pointers are addresses
    in [Z]; [size_t] and [int] values are in [Z], with the conversions
    to [int] written out.  *)

From Stdlib Require Import ZArith List Bool Lia.
From Stdlib Require Import Init.Byte.
Import ListNotations.
Local Open Scope Z_scope.

(** ** Constants of the system headers *)

(** [errno] values (asm-generic numbering). *)
Definition EINTR : Z := 4.
Definition EIO : Z := 5.
Definition EAGAIN : Z := 11.
Definition ENOSYS : Z := 38.
Definition ENOENT : Z := 2.

(** [S_ISCHR(m)] is [((m) & S_IFMT) == S_IFCHR]. *)
Definition S_IFMT : Z := 61440.   (* 0170000 *)
Definition S_IFCHR : Z := 8192.   (* 0020000 *)
Definition S_IFREG : Z := 32768.  (* 0100000 *)
Definition S_ISCHR (st_mode : Z) : bool := Z.land st_mode S_IFMT =? S_IFCHR.

(** Conversion to a 32-bit [int] (two's complement wrap-around). *)
Definition int_of (z : Z) : Z := (z + 2 ^ 31) mod 2 ^ 32 - 2 ^ 31.

(** Modelled from the spec: the [min] macro used by [getentropy_sysctl]
    is not defined in the file; the spec says the control interface is
    read "at most 16 bytes per call", so [min] is the smaller of its two
    arguments. *)
Definition min (a b : Z) : Z := if a <? b then a else b.

(** ** Memory with provenance *)

(** The facility a byte was obtained from. *)
Inductive facility :=
| F_getrandom          (* syscall(SYS_getrandom, ...) *)
| F_urandom            (* read() on /dev/urandom *)
| F_sysctl             (* syscall(SYS__sysctl, ...) *)
| F_BCryptGenRandom
| F_arc4random_buf.

Inductive origin :=
| Caller                       (* whatever the caller left there *)
| Facility (f : facility).     (* written by an OS entropy primitive *)

Record cell := { value : byte; source : origin }.

(** Memory is addressed by [Z]; the buffer is a base address. *)
Definition memory := Z -> cell.

(** The primitive [f] copies [bs] to address [p]. *)
Definition store (m : memory) (p : Z) (f : facility) (bs : list byte) : memory :=
  fun a =>
    if (p <=? a) && (a <? p + Z.of_nat (length bs))
    then {| value := nth (Z.to_nat (a - p)) bs x00; source := Facility f |}
    else m a.

(** ** The operating system *)

(** A primitive either fails with an error code or succeeds. *)
Inductive result (A : Type) :=
| Err (e : Z)
| Ok (a : A).
Arguments Err {A} e.
Arguments Ok {A} a.

(** The primitives [ggentropy.c] calls.  A primitive that transfers data
    answers with the bytes it copied to the destination; the count it
    reports is their number. *)
Record kernel (W : Type) := {
  (* syscall(SYS_getrandom, p, left, 0) *)
  sys_getrandom : W -> Z -> W * result (list byte);
  (* open("/dev/urandom", O_RDONLY|O_NOFOLLOW|O_CLOEXEC, 0): the descriptor *)
  sys_open : W -> W * result Z;
  (* fstat(fd, &st): st.st_mode *)
  sys_fstat : W -> Z -> W * result Z;
  (* ioctl(fd, RNDGETENTCNT, &cnt): cnt *)
  sys_ioctl : W -> Z -> W * result Z;
  (* read(fd, buf + i, wanted) *)
  sys_read : W -> Z -> Z -> W * result (list byte);
  (* close(fd) *)
  sys_close : W -> Z -> W;
  (* syscall(SYS__sysctl, &args) with *args.oldlenp = chunk *)
  sys_sysctl : W -> Z -> W * result (list byte);
  (* BCryptGenRandom(NULL, buf, n, BCRYPT_USE_SYSTEM_PREFERRED_RNG);
     Err carries a failing NTSTATUS *)
  BCryptGenRandom : W -> Z -> W * result (list byte);
  (* arc4random_buf(buf, n) *)
  arc4random_buf : W -> Z -> W * list byte
}.
Arguments sys_getrandom {W} _ _ _.
Arguments sys_open {W} _ _.
Arguments sys_fstat {W} _ _ _.
Arguments sys_ioctl {W} _ _ _.
Arguments sys_read {W} _ _ _ _.
Arguments sys_close {W} _ _ _.
Arguments sys_sysctl {W} _ _ _.
Arguments BCryptGenRandom {W} _ _ _.
Arguments arc4random_buf {W} _ _ _.

(** What the documentation of the primitives promises about the amount
    of data transferred. *)
Record kernel_contract {W : Type} (K : kernel W) : Prop := {
  getrandom_le : forall w len w' bs,
    sys_getrandom K w len = (w', Ok bs) -> 0 <= len -> Z.of_nat (length bs) <= len;
  read_le : forall w fd cnt w' bs,
    sys_read K w fd cnt = (w', Ok bs) -> 0 <= cnt -> Z.of_nat (length bs) <= cnt;
  sysctl_le : forall w chunk w' bs,
    sys_sysctl K w chunk = (w', Ok bs) -> 0 <= chunk -> Z.of_nat (length bs) <= chunk;
  bcrypt_all : forall w n w' bs,
    BCryptGenRandom K w n = (w', Ok bs) -> 0 <= n -> Z.of_nat (length bs) = n;
  arc4random_all : forall w n w' bs,
    arc4random_buf K w n = (w', bs) -> 0 <= n -> Z.of_nat (length bs) = n
}.

(** One entry of the log per primitive invoked. *)
Inductive event :=
| E_getrandom (p left : Z) (r : result (list byte))
| E_open (r : result Z)
| E_fstat (fd : Z) (r : result Z)
| E_ioctl (fd : Z) (r : result Z)
| E_read (fd p wanted : Z) (r : result (list byte))
| E_close (fd : Z)
| E_sysctl (p chunk : Z) (r : result (list byte))
| E_BCryptGenRandom (p n : Z) (r : result (list byte))
| E_arc4random_buf (p n : Z) (bs : list byte).

(** ** Machine state *)

Record machine (W : Type) := {
  world : W;
  mem : memory;
  errno : Z;
  getrandom_available : bool;   (* static bool getrandom_available *)
  trace : list event
}.
Arguments world {W} _.
Arguments mem {W} _.
Arguments errno {W} _.
Arguments getrandom_available {W} _.
Arguments trace {W} _.

(** The state of a process that has not called [ggentropy] yet:
    [static bool getrandom_available = true]. *)
Definition boot {W : Type} (w : W) (m : memory) : machine W :=
  {| world := w; mem := m; errno := 0; getrandom_available := true; trace := [] |}.

(** What running a piece of code gives: a value and a state, no answer
    within the fuel, or a failed [assert]. *)
Inductive outcome (W A : Type) :=
| Return (a : A) (s : machine W)
| Timeout (s : machine W)
| Abort.
Arguments Return {W A} a s.
Arguments Timeout {W A} s.
Arguments Abort {W A}.

Definition bind {W A B : Type} (m : outcome W A) (k : A -> machine W -> outcome W B)
  : outcome W B :=
  match m with
  | Return a s => k a s
  | Timeout s => Timeout s
  | Abort => Abort
  end.

Notation "' ( x , s ) <- m ;; k" := (bind m (fun x s => k))
  (at level 61, x name, s name, m at next level, right associativity).

(** The value returned, when there is one. *)
Definition returned {W A : Type} (o : outcome W A) : option A :=
  match o with Return a _ => Some a | _ => None end.

(** The last state reached, when there is one. *)
Definition final {W A : Type} (o : outcome W A) : option (machine W) :=
  match o with Return _ s | Timeout s => Some s | Abort => None end.

(** The preprocessor selects one body. *)
Inductive platform :=
| PLATFORM_WINDOWS
| PLATFORM_LINUX (SYS_getrandom SYS__sysctl : bool)
| PLATFORM_HAS_ARC4RANDOM.

Section Program.

Context {W : Type} (K : kernel W).

Definition set_errno (e : Z) (s : machine W) : machine W :=
  {| world := world s; mem := mem s; errno := e;
     getrandom_available := getrandom_available s; trace := trace s |}.

Definition set_available (b : bool) (s : machine W) : machine W :=
  {| world := world s; mem := mem s; errno := errno s;
     getrandom_available := b; trace := trace s |}.

(** The world moves to [w] and [ev] is logged. *)
Definition called (w : W) (ev : event) (s : machine W) : machine W :=
  {| world := w; mem := mem s; errno := errno s;
     getrandom_available := getrandom_available s; trace := trace s ++ [ev] |}.

Definition write (p : Z) (f : facility) (bs : list byte) (s : machine W) : machine W :=
  {| world := world s; mem := store (mem s) p f bs; errno := errno s;
     getrandom_available := getrandom_available s; trace := trace s |}.

Definition close (fd : Z) (s : machine W) : machine W :=
  called (sys_close K (world s) fd) (E_close fd) s.

(** *** [getentropy_getrandom] *)

(** The [while (left > 0)] loop. *)
Fixpoint getrandom_loop (fuel : nat) (pre_errno : Z) (p left : Z) (s : machine W)
  : outcome W Z :=
  if 0 <? left then
    match fuel with
    | O => Timeout s
    | S fuel' =>
      let '(w, r) := sys_getrandom K (world s) left in
      let s1 := called w (E_getrandom p left r) s in
      match r with
      | Err e =>                             (* ret == -1 *)
        let s2 := set_errno e s1 in
        if e =? EINTR then getrandom_loop fuel' pre_errno p left s2
        else Return (-1) s2
      | Ok bs =>
        let ret := int_of (Z.of_nat (length bs)) in
        getrandom_loop fuel' pre_errno (p + ret) (left - ret)
                       (write p F_getrandom bs s1)
      end
    end
  else Return 0 (set_errno pre_errno s).

Definition getentropy_getrandom (fuel : nat) (buf len : Z) (s : machine W)
  : outcome W Z :=
  getrandom_loop fuel (errno s) buf (int_of len) s.

(** *** [getentropy_urandom] *)

(** The label [nodevrandom]. *)
Definition nodevrandom (s : machine W) : outcome W Z :=
  Return (-1) (set_errno EIO s).

(** The [for (i = 0; i < len; )] loop over [read].  [i] and [len] are
    [size_t]; nothing wraps as long as a read returns no more than
    [wanted]. *)
Fixpoint read_loop (fuel : nat) (save_errno fd buf len i : Z) (s : machine W)
  : outcome W Z :=
  if i <? len then
    match fuel with
    | O => Timeout s
    | S fuel' =>
      let wanted := len - i in
      let '(w, r) := sys_read K (world s) fd wanted in
      let s1 := called w (E_read fd (buf + i) wanted r) s in
      match r with
      | Err e =>                             (* ret == -1 *)
        let s2 := set_errno e s1 in
        if (e =? EAGAIN) || (e =? EINTR)
        then read_loop fuel' save_errno fd buf len i s2
        else nodevrandom (close fd s2)
      | Ok bs =>
        read_loop fuel' save_errno fd buf len (i + Z.of_nat (length bs))
                  (write (buf + i) F_urandom bs s1)
      end
    end
  else Return 0 (set_errno save_errno (close fd s)).

(** The checks between [open] and the read loop. *)
Definition verify_and_read (fuel : nat) (save_errno fd buf len : Z) (s : machine W)
  : outcome W Z :=
  let '(w1, r1) := sys_fstat K (world s) fd in
  let s1 := called w1 (E_fstat fd r1) s in
  let s1 := match r1 with Err e => set_errno e s1 | Ok _ => s1 end in
  if match r1 with Err _ => true | Ok st_mode => negb (S_ISCHR st_mode) end
  then nodevrandom (close fd s1)
  else
    let '(w2, r2) := sys_ioctl K (world s1) fd in
    let s2 := called w2 (E_ioctl fd r2) s1 in
    match r2 with
    | Err e => nodevrandom (close fd (set_errno e s2))
    | Ok _ => read_loop fuel save_errno fd buf len 0 s2
    end.

(** From the label [start]. *)
Fixpoint urandom_start (fuel : nat) (save_errno buf len : Z) (s : machine W)
  : outcome W Z :=
  match fuel with
  | O => Timeout s
  | S fuel' =>
    let '(w, r) := sys_open K (world s) in
    let s1 := called w (E_open r) s in
    match r with
    | Err e =>                               (* fd == -1 *)
      let s2 := set_errno e s1 in
      if e =? EINTR then urandom_start fuel' save_errno buf len s2
      else nodevrandom s2
    | Ok fd => verify_and_read fuel' save_errno fd buf len s1
    end
  end.

Definition getentropy_urandom (fuel : nat) (buf len : Z) (s : machine W)
  : outcome W Z :=
  urandom_start fuel (errno s) buf len s.

(** *** [getentropy_sysctl] *)

(** The [for (i = 0; i < len; )] loop over the control interface. *)
Fixpoint sysctl_loop (fuel : nat) (save_errno buf len i : Z) (s : machine W)
  : outcome W Z :=
  if i <? len then
    match fuel with
    | O => Timeout s
    | S fuel' =>
      let chunk := min (len - i) 16 in
      let '(w, r) := sys_sysctl K (world s) chunk in
      let s1 := called w (E_sysctl (buf + i) chunk r) s in
      match r with
      | Err e =>                             (* goto sysctlfailed *)
        Return (-1) (set_errno EIO (set_errno e s1))
      | Ok bs =>                             (* chunk is now length bs *)
        sysctl_loop fuel' save_errno buf len (i + Z.of_nat (length bs))
                    (write (buf + i) F_sysctl bs s1)
      end
    end
  else Return 0 (set_errno save_errno s).

Definition getentropy_sysctl (fuel : nat) (buf len : Z) (s : machine W)
  : outcome W Z :=
  sysctl_loop fuel (errno s) buf len 0 s.

(** *** [ggentropy], one body per platform *)

(** [assert( n <= 256 )] *)
Definition assert_n (n : Z) (s : machine W) : outcome W unit :=
  if n <=? 256 then Return tt s else Abort.

(** The Linux body from [getentropy_urandom] on.  [SYS__sysctl] tells
    whether the control interface is compiled in. *)
Definition linux_after_getrandom (SYS__sysctl : bool) (fuel : nat) (buf n : Z)
  (s : machine W) : outcome W bool :=
  '(ret, s) <- getentropy_urandom fuel buf n s ;;
  if negb (ret =? -1) then Return true s
  else if SYS__sysctl then
    '(ret, s) <- getentropy_sysctl fuel buf n s ;;
    if negb (ret =? -1) then Return true s
    else Return false s
  else Return false s.

(** The Linux body.  [SYS_getrandom] tells whether the syscall strategy
    (and with it the flag) is compiled in. *)
Definition ggentropy_linux (SYS_getrandom SYS__sysctl : bool) (fuel : nat)
  (buf n : Z) (s : machine W) : outcome W bool :=
  '(_, s) <- assert_n n s ;;
  if SYS_getrandom && getrandom_available s then
    '(ret, s) <- getentropy_getrandom fuel buf n s ;;
    if negb (ret =? -1) then Return true s
    else if errno s =? ENOSYS then
      linux_after_getrandom SYS__sysctl fuel buf n (set_available false s)
    else Return false s
  else linux_after_getrandom SYS__sysctl fuel buf n s.

Definition ggentropy_windows (buf n : Z) (s : machine W) : outcome W bool :=
  '(_, s) <- assert_n n s ;;
  let '(w, r) := BCryptGenRandom K (world s) n in
  let s1 := called w (E_BCryptGenRandom buf n r) s in
  match r with
  | Err _ => Return false s1                (* FAILED( status ) *)
  | Ok bs => Return true (write buf F_BCryptGenRandom bs s1)
  end.

Definition ggentropy_arc4random (buf n : Z) (s : machine W) : outcome W bool :=
  '(_, s) <- assert_n n s ;;
  let '(w, bs) := arc4random_buf K (world s) n in
  Return true (write buf F_arc4random_buf bs (called w (E_arc4random_buf buf n bs) s)).

Definition ggentropy (pf : platform) (fuel : nat) (buf n : Z) (s : machine W)
  : outcome W bool :=
  match pf with
  | PLATFORM_WINDOWS => ggentropy_windows buf n s
  | PLATFORM_LINUX g c => ggentropy_linux g c fuel buf n s
  | PLATFORM_HAS_ARC4RANDOM => ggentropy_arc4random buf n s
  end.

End Program.

(** ** Reading the log *)

(** The strategy a primitive belongs to: Step A is the getrandom
    syscall, Step B the device, Step C the control interface. *)
Inductive strategy := StepA | StepB | StepC | LibraryCall.

Definition strategy_of (ev : event) : strategy :=
  match ev with
  | E_getrandom _ _ _ => StepA
  | E_open _ | E_fstat _ _ | E_ioctl _ _ | E_read _ _ _ _ | E_close _ => StepB
  | E_sysctl _ _ _ => StepC
  | E_BCryptGenRandom _ _ _ | E_arc4random_buf _ _ _ => LibraryCall
  end.

Definition in_step (st : strategy) (ev : event) : Prop := strategy_of ev = st.

(** A getrandom call that lets the loop go on: it transferred data or
    was interrupted. *)
Definition getrandom_goes_on (ev : event) : Prop :=
  exists p left r, ev = E_getrandom p left r /\
                   (r = Err EINTR \/ exists bs, r = Ok bs).

(** [s'] is [s] after the primitives [evs], with the flag untouched. *)
Definition runs {W : Type} (s : machine W) (evs : list event) (s' : machine W) : Prop :=
  trace s' = trace s ++ evs /\ getrandom_available s' = getrandom_available s.

(** The primitives of the read loop of Step B. *)
Definition read_or_close (ev : event) : Prop :=
  match ev with
  | E_read _ _ _ _ | E_close _ => True
  | _ => False
  end.

(** Every primitive invoked on the way to the last state of [o]
    satisfies [P], and the flag is as it was. *)
Definition logged {W A : Type} (P : event -> Prop) (s : machine W) (o : outcome W A)
  : Prop :=
  forall s', final o = Some s' -> exists evs, runs s evs s' /\ Forall P evs.

(** Whether the [assert] fired. *)
Definition aborted {W A : Type} (o : outcome W A) : bool :=
  match o with Abort => true | _ => false end.

(** A process that calls [ggentropy] for each request (buffer, length)
    in turn; it goes on as long as the calls return. *)
Fixpoint session {W : Type} (K : kernel W) (pf : platform) (fuel : nat)
  (reqs : list (Z * Z)) (s : machine W) : option (machine W) :=
  match reqs with
  | [] => Some s
  | (buf, n) :: rest =>
    match ggentropy K pf fuel buf n s with
    | Return _ s1 => session K pf fuel rest s1
    | _ => None
    end
  end.

(** ** Reading the memory *)

(** On the way to the last state of [o], nothing outside
    [lo, hi) was written. *)
Definition confined {W A : Type} (lo hi : Z) (s : machine W) (o : outcome W A) : Prop :=
  forall s', final o = Some s' ->
  forall a, ~ (lo <= a < hi) -> mem s' a = mem s a.

(** When the strategy [o] returns something other than -1, all of
    [lo, hi) holds bytes obtained from [f]. *)
Definition filled_by {W : Type} (f : facility) (lo hi : Z) (o : outcome W Z) : Prop :=
  forall r s', o = Return r s' -> r <> -1 ->
  forall a, lo <= a < hi -> source (mem s' a) = Facility f.

(** The facilities a platform body draws from. *)
Definition draws_from (pf : platform) (f : facility) : Prop :=
  match pf with
  | PLATFORM_WINDOWS => f = F_BCryptGenRandom
  | PLATFORM_LINUX g c =>
      (g = true /\ f = F_getrandom) \/ f = F_urandom \/ (c = true /\ f = F_sysctl)
  | PLATFORM_HAS_ARC4RANDOM => f = F_arc4random_buf
  end.

(** The log shows that the node opened as [fd] was refused: [fstat]
    failed, the node is not a character device, or the entropy-count
    [ioctl] failed. *)
Definition rejects (fd : Z) (evs : list event) : Prop :=
  (exists e, In (E_fstat fd (Err e)) evs) \/
  (exists st_mode, In (E_fstat fd (Ok st_mode)) evs /\ S_ISCHR st_mode = false) \/
  (exists e, In (E_ioctl fd (Err e)) evs).

Definition is_read (ev : event) : Prop :=
  match ev with E_read _ _ _ _ => True | _ => False end.

(** An [ioctl] that succeeded is in the log exactly when the device
    passed the checks. *)
Definition verified (evs : list event) : Prop :=
  exists fd cnt, In (E_ioctl fd (Ok cnt)) evs.

(** ** Interruptions *)

(** The system interrupts finitely often: [budget w] bounds the
    interruptions still to come in world [w].  A getrandom call or a
    read on the device either is interrupted ([EINTR], and [EAGAIN] for
    the read), using up budget, or transfers at least one byte; an open
    is interrupted or succeeds; the device passes the checks. *)
Record interrupted_finitely {W : Type} (K : kernel W) (budget : W -> nat) : Prop := {
  getrandom_patient : forall w len w' r,
    sys_getrandom K w len = (w', r) -> 0 < len ->
    match r with
    | Err e => e = EINTR /\ (budget w' < budget w)%nat
    | Ok bs => 0 < Z.of_nat (length bs) /\ (budget w' <= budget w)%nat
    end;
  open_patient : forall w w' r,
    sys_open K w = (w', r) ->
    match r with
    | Err e => e = EINTR /\ (budget w' < budget w)%nat
    | Ok _ => (budget w' <= budget w)%nat
    end;
  fstat_patient : forall w fd w' r,
    sys_fstat K w fd = (w', r) ->
    (exists st_mode, r = Ok st_mode /\ S_ISCHR st_mode = true) /\
    (budget w' <= budget w)%nat;
  ioctl_patient : forall w fd w' r,
    sys_ioctl K w fd = (w', r) ->
    (exists cnt, r = Ok cnt) /\ (budget w' <= budget w)%nat;
  read_patient : forall w fd cnt w' r,
    sys_read K w fd cnt = (w', r) -> 0 < cnt ->
    match r with
    | Err e => (e = EAGAIN \/ e = EINTR) /\ (budget w' < budget w)%nat
    | Ok bs => 0 < Z.of_nat (length bs) /\ (budget w' <= budget w)%nat
    end
}.

(** ** Counting iterations *)

(** An iteration of progress: the primitive transferred data. *)
Definition is_transfer (ev : event) : bool :=
  match ev with
  | E_getrandom _ _ (Ok _) | E_read _ _ _ (Ok _) | E_sysctl _ _ (Ok _) => true
  | _ => false
  end.

(** An iteration that goes round again on a transient error. *)
Definition is_retry (ev : event) : bool :=
  match ev with
  | E_getrandom _ _ (Err e) => e =? EINTR
  | E_read _ _ _ (Err e) => (e =? EAGAIN) || (e =? EINTR)
  | _ => false
  end.

Definition transfers (evs : list event) : nat := length (filter is_transfer evs).
Definition retries (evs : list event) : nat := length (filter is_retry evs).

(** Every successful transfer of the three primitives moves at least
    one byte when at least one is asked for. *)
Record makes_progress {W : Type} (K : kernel W) : Prop := {
  getrandom_some : forall w len w' bs,
    sys_getrandom K w len = (w', Ok bs) -> 0 < len -> 0 < Z.of_nat (length bs);
  read_some : forall w fd cnt w' bs,
    sys_read K w fd cnt = (w', Ok bs) -> 0 < cnt -> 0 < Z.of_nat (length bs);
  sysctl_some : forall w chunk w' bs,
    sys_sysctl K w chunk = (w', Ok bs) -> 0 < chunk -> 0 < Z.of_nat (length bs)
}.

(** What a loop has done by its last state: its log, with at most
    [bound] transfers; and if it ran out of fuel, every unit of fuel
    went into a transfer or a retry. *)
Definition bounded_run {W : Type} (bound : Z) (fuel : nat) (s : machine W) (o : outcome W Z) : Prop :=
  forall s', final o = Some s' ->
  exists evs,
    trace s' = trace s ++ evs /\
    Z.of_nat (transfers evs) <= bound /\
    (o = Timeout s' -> fuel = (transfers evs + retries evs)%nat).

(** ** Further readings of the log *)

(** Every primitive invoked on the way to the last state of [o]
    satisfies [P] (the flag may have changed). *)
Definition traced {W A : Type} (P : event -> Prop) (s : machine W) (o : outcome W A)
  : Prop :=
  forall s', final o = Some s' -> exists evs, trace s' = trace s ++ evs /\ Forall P evs.

(** A primitive reported a failure that no loop retries: an error other
    than an interruption, or a node that is not a character device. *)
Definition hard_failure (ev : event) : Prop :=
  match ev with
  | E_getrandom _ _ (Err e) => e <> EINTR
  | E_open (Err e) => e <> EINTR
  | E_fstat _ (Err _) => True
  | E_fstat _ (Ok st_mode) => S_ISCHR st_mode = false
  | E_ioctl _ (Err _) => True
  | E_read _ _ _ (Err e) => e <> EAGAIN /\ e <> EINTR
  | E_sysctl _ _ (Err _) => True
  | E_BCryptGenRandom _ _ (Err _) => True
  | _ => False
  end.

(** A primitive that works on the descriptor [fd]. *)
Definition on_descriptor (fd : Z) (ev : event) : Prop :=
  match ev with
  | E_fstat f _ | E_ioctl f _ | E_read f _ _ _ => f = fd
  | _ => False
  end.

(** A read on the descriptor [fd]. *)
Definition read_on (fd : Z) (ev : event) : Prop :=
  match ev with
  | E_read f _ _ _ => f = fd
  | _ => False
  end.

(** A request for data made for the buffer [buf] of [n] bytes asks for
    the part of the buffer still to fill: getrandom and read for all of
    it, the control interface for its first 16 bytes at most, the
    library calls for the whole buffer. *)
Definition asks_within (buf n : Z) (ev : event) : Prop :=
  match ev with
  | E_getrandom p len _ => buf <= p /\ 0 < len /\ p + len = buf + n
  | E_read _ p wanted _ => buf <= p /\ 0 < wanted /\ p + wanted = buf + n
  | E_sysctl p chunk _ => buf <= p /\ 0 < chunk <= 16 /\ p + chunk <= buf + n
  | E_BCryptGenRandom p len _ => p = buf /\ len = n
  | E_arc4random_buf p len _ => p = buf /\ len = n
  | _ => True
  end.

(** A strategy that returns -1 has met a hard failure. *)
Definition fails_hard {W : Type} (s : machine W) (o : outcome W Z) : Prop :=
  forall r s', o = Return r s' ->
  r = 0 \/
  (r = -1 /\ exists evs, trace s' = trace s ++ evs /\ Exists hard_failure evs).

(** An open that was interrupted. *)
Definition interrupted_open (ev : event) : Prop := ev = E_open (Err EINTR).

(** A read on [fd] or the close of [fd]. *)
Definition read_or_close_of (fd : Z) (ev : event) : Prop :=
  read_on fd ev \/ ev = E_close fd.


(** ** The data transferred *)

(** The bytes a primitive transferred. *)
Definition data_of (ev : event) : list byte :=
  match ev with
  | E_getrandom _ _ (Ok bs) | E_read _ _ _ (Ok bs) | E_sysctl _ _ (Ok bs)
  | E_BCryptGenRandom _ _ (Ok bs) | E_arc4random_buf _ _ bs => bs
  | _ => []
  end.

(** All the bytes transferred along a log, in the order of the log. *)
Definition received (evs : list event) : list byte := flat_map data_of evs.

(** The [n] bytes at [buf] are the bytes [bs]. *)
Definition holds {W : Type} (s : machine W) (buf n : Z) (bs : list byte) : Prop :=
  Z.of_nat (length bs) = n /\
  forall k, 0 <= k < n -> value (mem s (buf + k)) = nth (Z.to_nat k) bs x00.

(** Step B of a call of the Linux body made in state [s] is entered in
    state [sB]: either Step A is skipped (getrandom not compiled in, or
    the flag unavailable) and [sB] is [s], or Step A has returned -1 with
    [errno] at [ENOSYS] and [sB] is the state it left, with the flag
    turned off. *)
Definition enters_step_B {W : Type} (K : kernel W) (g : bool) (fuel : nat)
  (buf n : Z) (s sB : machine W) : Prop :=
  (g && getrandom_available s = false /\ sB = s) \/
  (g && getrandom_available s = true /\
   exists sA, getentropy_getrandom K fuel buf n s = Return (-1) sA /\
              errno sA = ENOSYS /\ sB = set_available false sA).

(** ** Sample operating systems

    The world is the number of primitives invoked so far; each primitive
    answers from a table indexed by that number. *)

Record script := {
  on_getrandom : nat -> Z -> result (list byte);
  on_open : nat -> result Z;
  on_fstat : nat -> Z -> result Z;
  on_ioctl : nat -> Z -> result Z;
  on_read : nat -> Z -> Z -> result (list byte);
  on_sysctl : nat -> Z -> result (list byte);
  on_BCryptGenRandom : nat -> Z -> result (list byte);
  on_arc4random_buf : nat -> Z -> list byte
}.

Definition scripted (sc : script) : kernel nat :=
  {| sys_getrandom := fun w len => (S w, on_getrandom sc w len);
     sys_open := fun w => (S w, on_open sc w);
     sys_fstat := fun w fd => (S w, on_fstat sc w fd);
     sys_ioctl := fun w fd => (S w, on_ioctl sc w fd);
     sys_read := fun w fd cnt => (S w, on_read sc w fd cnt);
     sys_close := fun w fd => S w;
     sys_sysctl := fun w chunk => (S w, on_sysctl sc w chunk);
     BCryptGenRandom := fun w n => (S w, on_BCryptGenRandom sc w n);
     arc4random_buf := fun w n => (S w, on_arc4random_buf sc w n) |}.

(** [len] bytes, all equal to [b]. *)
Definition bytes (b : byte) (len : Z) : list byte := repeat b (Z.to_nat len).

(** A healthy system: every primitive succeeds and transfers all that
    was asked for; /dev/urandom is descriptor 3, a character device. *)
Definition healthy : script :=
  {| on_getrandom := fun _ len => Ok (bytes x2a len);
     on_open := fun _ => Ok 3;
     on_fstat := fun _ _ => Ok (Z.lor S_IFCHR 438);
     on_ioctl := fun _ _ => Ok 256;
     on_read := fun _ _ cnt => Ok (bytes x2b cnt);
     on_sysctl := fun _ chunk => Ok (bytes x2c chunk);
     on_BCryptGenRandom := fun _ n => Ok (bytes x2d n);
     on_arc4random_buf := fun _ n => bytes x2e n |}.

(** A kernel that predates getrandom, everything else healthy. *)
Definition no_getrandom : script :=
  {| on_getrandom := fun _ _ => Err ENOSYS;
     on_open := on_open healthy;
     on_fstat := on_fstat healthy;
     on_ioctl := on_ioctl healthy;
     on_read := on_read healthy;
     on_sysctl := on_sysctl healthy;
     on_BCryptGenRandom := on_BCryptGenRandom healthy;
     on_arc4random_buf := on_arc4random_buf healthy |}.

(** getrandom refused with [EPERM] (a seccomp filter, say). *)
Definition EPERM : Z := 1.
Definition getrandom_denied : script :=
  {| on_getrandom := fun _ _ => Err EPERM;
     on_open := on_open healthy;
     on_fstat := on_fstat healthy;
     on_ioctl := on_ioctl healthy;
     on_read := on_read healthy;
     on_sysctl := on_sysctl healthy;
     on_BCryptGenRandom := on_BCryptGenRandom healthy;
     on_arc4random_buf := on_arc4random_buf healthy |}.

(** /dev/urandom replaced by a regular file. *)
Definition urandom_is_a_file : script :=
  {| on_getrandom := fun _ _ => Err ENOSYS;
     on_open := on_open healthy;
     on_fstat := fun _ _ => Ok (Z.lor S_IFREG 420);
     on_ioctl := on_ioctl healthy;
     on_read := on_read healthy;
     on_sysctl := on_sysctl healthy;
     on_BCryptGenRandom := on_BCryptGenRandom healthy;
     on_arc4random_buf := on_arc4random_buf healthy |}.

(** A kernel that predates getrandom, in a chroot without /dev/urandom. *)
Definition chroot_old_kernel : script :=
  {| on_getrandom := fun _ _ => Err ENOSYS;
     on_open := fun _ => Err ENOENT;
     on_fstat := on_fstat healthy;
     on_ioctl := on_ioctl healthy;
     on_read := on_read healthy;
     on_sysctl := on_sysctl healthy;
     on_BCryptGenRandom := on_BCryptGenRandom healthy;
     on_arc4random_buf := on_arc4random_buf healthy |}.

(** A system under a burst of signals: whatever is invoked among the
    first six primitives is interrupted, and transfers come at most five
    bytes at a time. *)
Definition flaky : script :=
  {| on_getrandom := fun w len =>
       if (w <? 6)%nat then Err EINTR else Ok (bytes x2a (min len 5));
     on_open := fun w => if (w <? 2)%nat then Err EINTR else Ok 3;
     on_fstat := on_fstat healthy;
     on_ioctl := on_ioctl healthy;
     on_read := fun w _ cnt =>
       if (w <? 6)%nat then Err (if Nat.even w then EINTR else EAGAIN)
       else Ok (bytes x2b (min cnt 5));
     on_sysctl := on_sysctl healthy;
     on_BCryptGenRandom := on_BCryptGenRandom healthy;
     on_arc4random_buf := on_arc4random_buf healthy |}.

Definition flaky_budget (w : nat) : nat := 6 - w.

(** A system whose transfers succeed without moving a byte. *)
Definition stalled : script :=
  {| on_getrandom := fun _ _ => Ok [];
     on_open := on_open healthy;
     on_fstat := on_fstat healthy;
     on_ioctl := on_ioctl healthy;
     on_read := fun _ _ _ => Ok [];
     on_sysctl := fun _ _ => Ok [];
     on_BCryptGenRandom := on_BCryptGenRandom healthy;
     on_arc4random_buf := on_arc4random_buf healthy |}.

(** Memory as the caller left it. *)
Definition blank : memory := fun _ => {| value := x00; source := Caller |}.

(** The process state left by a first call, for 16 bytes, on
    [chroot_old_kernel] with Step C not compiled in: the call fails and
    the flag is now unavailable. *)
Definition after_enosys : machine nat :=
  match final (ggentropy (scripted chroot_old_kernel) (PLATFORM_LINUX true false)
                 20 1000 16 (boot 0%nat blank)) with
  | Some s => s
  | None => boot 0%nat blank
  end.


(** ** Basic facts *)

Lemma int_of_small (z : Z) : - 2 ^ 31 <= z < 2 ^ 31 -> int_of z = z.
Proof.
  intros H. unfold int_of.
  rewrite Z.mod_small by lia. lia.
Qed.

Lemma min_le_l (a b : Z) : min a b <= a.
Proof. unfold min. destruct (a <? b) eqn:E; lia. Qed.

Lemma min_le_r (a b : Z) : min a b <= b.
Proof. unfold min. destruct (a <? b) eqn:E; lia. Qed.

Lemma min_pos (a b : Z) : 0 < a -> 0 < b -> 0 < min a b.
Proof. unfold min. destruct (a <? b); lia. Qed.

Lemma store_outside (m : memory) (p : Z) (f : facility) (bs : list byte) (a : Z) :
  ~ (p <= a < p + Z.of_nat (length bs)) -> store m p f bs a = m a.
Proof.
  intros H. unfold store.
  destruct (p <=? a) eqn:E1; destruct (a <? p + Z.of_nat (length bs)) eqn:E2;
    simpl; try reflexivity.
  exfalso. apply H. lia.
Qed.

Lemma store_inside (m : memory) (p : Z) (f : facility) (bs : list byte) (a : Z) :
  p <= a < p + Z.of_nat (length bs) -> source (store m p f bs a) = Facility f.
Proof.
  intros H. unfold store.
  replace (p <=? a) with true by (symmetry; apply Z.leb_le; lia).
  replace (a <? p + Z.of_nat (length bs)) with true by (symmetry; apply Z.ltb_lt; lia).
  reflexivity.
Qed.

(** ** The strategies never abort *)

Section NoAbort.

Context {W : Type} (K : kernel W).

Lemma getrandom_loop_no_abort fuel pre p left (s : machine W) :
  getrandom_loop K fuel pre p left s <> Abort.
Proof.
  revert p left s. induction fuel as [|fuel IH]; intros p left s; simpl.
  - destruct (0 <? left); discriminate.
  - destruct (0 <? left); [|discriminate].
    destruct (sys_getrandom K (world s) left) as [w [e|bs]].
    + destruct (e =? EINTR); [apply IH | discriminate].
    + apply IH.
Qed.

Lemma read_loop_no_abort fuel save fd buf len i (s : machine W) :
  read_loop K fuel save fd buf len i s <> Abort.
Proof.
  revert i s. induction fuel as [|fuel IH]; intros i s; simpl.
  - destruct (i <? len); discriminate.
  - destruct (i <? len); [|discriminate].
    destruct (sys_read K (world s) fd (len - i)) as [w [e|bs]].
    + destruct ((e =? EAGAIN) || (e =? EINTR)); [apply IH | discriminate].
    + apply IH.
Qed.

Lemma verify_and_read_no_abort fuel save fd buf len (s : machine W) :
  verify_and_read K fuel save fd buf len s <> Abort.
Proof.
  unfold verify_and_read.
  destruct (sys_fstat K (world s) fd) as [w1 [e1|m]]; simpl.
  - discriminate.
  - destruct (negb (S_ISCHR m)); [discriminate|].
    destruct (sys_ioctl K w1 fd) as [w2 [e2|c]]; [discriminate|].
    apply read_loop_no_abort.
Qed.

Lemma urandom_start_no_abort fuel save buf len (s : machine W) :
  urandom_start K fuel save buf len s <> Abort.
Proof.
  revert s. induction fuel as [|fuel IH]; intros s; simpl; [discriminate|].
  destruct (sys_open K (world s)) as [w [e|fd]].
  - destruct (e =? EINTR); [apply IH | discriminate].
  - apply verify_and_read_no_abort.
Qed.

Lemma sysctl_loop_no_abort fuel save buf len i (s : machine W) :
  sysctl_loop K fuel save buf len i s <> Abort.
Proof.
  revert i s. induction fuel as [|fuel IH]; intros i s; simpl.
  - destruct (i <? len); discriminate.
  - destruct (i <? len); [|discriminate].
    destruct (sys_sysctl K (world s) (min (len - i) 16)) as [w [e|bs]];
      [discriminate | apply IH].
Qed.

Lemma linux_after_getrandom_no_abort c fuel buf n (s : machine W) :
  linux_after_getrandom K c fuel buf n s <> Abort.
Proof.
  unfold linux_after_getrandom, getentropy_urandom, getentropy_sysctl.
  destruct (urandom_start K fuel (errno s) buf n s) as [r s1| |] eqn:E; simpl.
  - destruct (negb (r =? -1)); [discriminate|].
    destruct c; [|discriminate].
    destruct (sysctl_loop K fuel (errno s1) buf n 0 s1) as [r2 s2| |] eqn:E2; simpl.
    + destruct (negb (r2 =? -1)); discriminate.
    + discriminate.
    + exfalso. exact (sysctl_loop_no_abort _ _ _ _ _ _ E2).
  - discriminate.
  - exfalso. exact (urandom_start_no_abort _ _ _ _ _ E).
Qed.

Lemma ggentropy_abort_iff pf fuel buf n (s : machine W) :
  ggentropy K pf fuel buf n s = Abort <-> 256 < n.
Proof.
  destruct pf as [|g c|]; simpl;
    unfold ggentropy_windows, ggentropy_linux, ggentropy_arc4random, assert_n;
    destruct (n <=? 256) eqn:En; simpl;
    (split; [| intros; try reflexivity; exfalso; apply Z.leb_le in En; lia]).
  - destruct (BCryptGenRandom K (world s) n) as [w [e|bs]]; discriminate.
  - intros _. apply Z.leb_gt in En. lia.
  - destruct (g && getrandom_available s).
    + unfold getentropy_getrandom.
      destruct (getrandom_loop K fuel (errno s) buf (int_of n) s) as [r s1| |] eqn:E; simpl.
      * destruct (negb (r =? -1)); [discriminate|].
        destruct (errno s1 =? ENOSYS); [|discriminate].
        intros H. exfalso. exact (linux_after_getrandom_no_abort _ _ _ _ _ H).
      * discriminate.
      * exfalso. exact (getrandom_loop_no_abort _ _ _ _ _ E).
    + intros H. exfalso. exact (linux_after_getrandom_no_abort _ _ _ _ _ H).
  - intros _. apply Z.leb_gt in En. lia.
  - destruct (arc4random_buf K (world s) n) as [w bs]; discriminate.
  - intros _. apply Z.leb_gt in En. lia.
Qed.

End NoAbort.

(** ** Induction along the loops

    One principle per loop: a property of (fuel, loop variables, state,
    outcome) holds of every run when it holds at each way out of the
    loop and is carried backward over one iteration. *)

Section LoopInduction.

Context {W : Type} (K : kernel W).

Lemma getrandom_loop_rect (pre : Z)
  (Q : nat -> Z -> Z -> machine W -> outcome W Z -> Prop)
  (Hdone : forall fuel p left s, left <= 0 ->
     Q fuel p left s (Return 0 (set_errno pre s)))
  (Hfuel : forall p left s, 0 < left -> Q O p left s (Timeout s))
  (Hfail : forall fuel p left s w e, 0 < left ->
     sys_getrandom K (world s) left = (w, Err e) -> e <> EINTR ->
     Q (S fuel) p left s
       (Return (-1) (set_errno e (called w (E_getrandom p left (Err e)) s))))
  (Hretry : forall fuel p left s w o, 0 < left ->
     sys_getrandom K (world s) left = (w, Err EINTR) ->
     Q fuel p left (set_errno EINTR (called w (E_getrandom p left (Err EINTR)) s)) o ->
     Q (S fuel) p left s o)
  (Hmore : forall fuel p left s w bs o, 0 < left ->
     sys_getrandom K (world s) left = (w, Ok bs) ->
     Q fuel (p + int_of (Z.of_nat (length bs))) (left - int_of (Z.of_nat (length bs)))
       (write p F_getrandom bs (called w (E_getrandom p left (Ok bs)) s)) o ->
     Q (S fuel) p left s o) :
  forall fuel p left s, Q fuel p left s (getrandom_loop K fuel pre p left s).
Proof.
  induction fuel as [|fuel IH]; intros p left s; simpl;
    destruct (0 <? left) eqn:El;
    try (apply Hdone; apply Z.ltb_ge; exact El);
    apply Z.ltb_lt in El.
  - apply Hfuel; exact El.
  - destruct (sys_getrandom K (world s) left) as [w [e|bs]] eqn:Ek.
    + destruct (e =? EINTR) eqn:Ee.
      * apply Z.eqb_eq in Ee. subst e. eapply Hretry; eauto.
      * apply Z.eqb_neq in Ee. apply Hfail; assumption.
    + eapply Hmore; eauto.
Qed.

Lemma read_loop_rect (save fd buf len : Z)
  (Q : nat -> Z -> machine W -> outcome W Z -> Prop)
  (Hdone : forall fuel i s, len <= i ->
     Q fuel i s (Return 0 (set_errno save (close K fd s))))
  (Hfuel : forall i s, i < len -> Q O i s (Timeout s))
  (Hfail : forall fuel i s w e, i < len ->
     sys_read K (world s) fd (len - i) = (w, Err e) -> e <> EAGAIN -> e <> EINTR ->
     Q (S fuel) i s
       (nodevrandom
          (close K fd (set_errno e (called w (E_read fd (buf + i) (len - i) (Err e)) s)))))
  (Hretry : forall fuel i s w e o, i < len ->
     sys_read K (world s) fd (len - i) = (w, Err e) -> e = EAGAIN \/ e = EINTR ->
     Q fuel i (set_errno e (called w (E_read fd (buf + i) (len - i) (Err e)) s)) o ->
     Q (S fuel) i s o)
  (Hmore : forall fuel i s w bs o, i < len ->
     sys_read K (world s) fd (len - i) = (w, Ok bs) ->
     Q fuel (i + Z.of_nat (length bs))
       (write (buf + i) F_urandom bs (called w (E_read fd (buf + i) (len - i) (Ok bs)) s)) o ->
     Q (S fuel) i s o) :
  forall fuel i s, Q fuel i s (read_loop K fuel save fd buf len i s).
Proof.
  induction fuel as [|fuel IH]; intros i s; simpl;
    destruct (i <? len) eqn:El;
    try (apply Hdone; apply Z.ltb_ge; exact El);
    apply Z.ltb_lt in El.
  - apply Hfuel; exact El.
  - destruct (sys_read K (world s) fd (len - i)) as [w [e|bs]] eqn:Ek.
    + destruct ((e =? EAGAIN) || (e =? EINTR)) eqn:Ee.
      * apply orb_true_iff in Ee.
        eapply Hretry; eauto.
        destruct Ee as [Ee|Ee]; apply Z.eqb_eq in Ee; auto.
      * apply orb_false_iff in Ee. destruct Ee as [E1 E2].
        apply Z.eqb_neq in E1, E2. apply Hfail; assumption.
    + eapply Hmore; eauto.
Qed.

Lemma sysctl_loop_rect (save buf len : Z)
  (Q : nat -> Z -> machine W -> outcome W Z -> Prop)
  (Hdone : forall fuel i s, len <= i -> Q fuel i s (Return 0 (set_errno save s)))
  (Hfuel : forall i s, i < len -> Q O i s (Timeout s))
  (Hfail : forall fuel i s w e, i < len ->
     sys_sysctl K (world s) (min (len - i) 16) = (w, Err e) ->
     Q (S fuel) i s
       (Return (-1)
          (set_errno EIO
             (set_errno e (called w (E_sysctl (buf + i) (min (len - i) 16) (Err e)) s)))))
  (Hmore : forall fuel i s w bs o, i < len ->
     sys_sysctl K (world s) (min (len - i) 16) = (w, Ok bs) ->
     Q fuel (i + Z.of_nat (length bs))
       (write (buf + i) F_sysctl bs
          (called w (E_sysctl (buf + i) (min (len - i) 16) (Ok bs)) s)) o ->
     Q (S fuel) i s o) :
  forall fuel i s, Q fuel i s (sysctl_loop K fuel save buf len i s).
Proof.
  induction fuel as [|fuel IH]; intros i s; simpl;
    destruct (i <? len) eqn:El;
    try (apply Hdone; apply Z.ltb_ge; exact El);
    apply Z.ltb_lt in El.
  - apply Hfuel; exact El.
  - destruct (sys_sysctl K (world s) (min (len - i) 16)) as [w [e|bs]] eqn:Ek.
    + apply Hfail; assumption.
    + eapply Hmore; eauto.
Qed.

Lemma urandom_start_rect (save buf len : Z)
  (Q : nat -> machine W -> outcome W Z -> Prop)
  (Hfuel : forall s, Q O s (Timeout s))
  (Hfail : forall fuel s w e,
     sys_open K (world s) = (w, Err e) -> e <> EINTR ->
     Q (S fuel) s (nodevrandom (set_errno e (called w (E_open (Err e)) s))))
  (Hretry : forall fuel s w o,
     sys_open K (world s) = (w, Err EINTR) ->
     Q fuel (set_errno EINTR (called w (E_open (Err EINTR)) s)) o ->
     Q (S fuel) s o)
  (Hopen : forall fuel s w fd,
     sys_open K (world s) = (w, Ok fd) ->
     Q (S fuel) s (verify_and_read K fuel save fd buf len (called w (E_open (Ok fd)) s))) :
  forall fuel s, Q fuel s (urandom_start K fuel save buf len s).
Proof.
  induction fuel as [|fuel IH]; intros s; simpl.
  - apply Hfuel.
  - destruct (sys_open K (world s)) as [w [e|fd]] eqn:Ek.
    + destruct (e =? EINTR) eqn:Ee.
      * apply Z.eqb_eq in Ee. subst e. eapply Hretry; eauto.
      * apply Z.eqb_neq in Ee. apply Hfail; assumption.
    + apply Hopen; assumption.
Qed.

(** The ways through the checks between [open] and the read loop. *)
Lemma verify_and_read_cases (fuel : nat) (save fd buf len : Z) (s : machine W) :
  (exists w e,
     sys_fstat K (world s) fd = (w, Err e) /\
     verify_and_read K fuel save fd buf len s =
       nodevrandom (close K fd (set_errno e (called w (E_fstat fd (Err e)) s)))) \/
  (exists w st_mode,
     sys_fstat K (world s) fd = (w, Ok st_mode) /\ S_ISCHR st_mode = false /\
     verify_and_read K fuel save fd buf len s =
       nodevrandom (close K fd (called w (E_fstat fd (Ok st_mode)) s))) \/
  (exists w st_mode w' e,
     sys_fstat K (world s) fd = (w, Ok st_mode) /\ S_ISCHR st_mode = true /\
     sys_ioctl K w fd = (w', Err e) /\
     verify_and_read K fuel save fd buf len s =
       nodevrandom
         (close K fd
            (set_errno e
               (called w' (E_ioctl fd (Err e)) (called w (E_fstat fd (Ok st_mode)) s))))) \/
  (exists w st_mode w' cnt,
     sys_fstat K (world s) fd = (w, Ok st_mode) /\ S_ISCHR st_mode = true /\
     sys_ioctl K w fd = (w', Ok cnt) /\
     verify_and_read K fuel save fd buf len s =
       read_loop K fuel save fd buf len 0
         (called w' (E_ioctl fd (Ok cnt)) (called w (E_fstat fd (Ok st_mode)) s))).
Proof.
  unfold verify_and_read.
  destruct (sys_fstat K (world s) fd) as [w [e|m]] eqn:E1; simpl.
  - left. eauto.
  - destruct (S_ISCHR m) eqn:Em; simpl.
    + destruct (sys_ioctl K w fd) as [w' [e|c]] eqn:E2.
      * right; right; left. exists w, m, w', e. auto.
      * right; right; right. exists w, m, w', c. auto.
    + right; left. eauto.
Qed.

End LoopInduction.

(** ** What each strategy logs *)

Section Log.

Context {W : Type} (K : kernel W).

Lemma runs_refl (s : machine W) : runs s [] s.
Proof. split; [now rewrite app_nil_r | reflexivity]. Qed.

Lemma runs_trans (s1 s2 s3 : machine W) evs1 evs2 :
  runs s1 evs1 s2 -> runs s2 evs2 s3 -> runs s1 (evs1 ++ evs2) s3.
Proof.
  intros [H1 F1] [H2 F2]. split.
  - rewrite H2, H1. now rewrite app_assoc.
  - congruence.
Qed.

Lemma runs_called (s : machine W) w ev : runs s [ev] (called w ev s).
Proof. split; reflexivity. Qed.

Lemma runs_set_errno (s s' : machine W) evs e :
  runs s evs s' -> runs s evs (set_errno e s').
Proof. intros [H F]. split; assumption. Qed.

(** One more call in front of a log. *)
Lemma runs_step (s s1 s' : machine W) ev evs :
  trace s1 = trace s ++ [ev] ->
  getrandom_available s1 = getrandom_available s ->
  runs s1 evs s' -> runs s (ev :: evs) s'.
Proof.
  intros Ht Hf [H F]. split; [|congruence].
  rewrite H, Ht. now rewrite <- app_assoc.
Qed.

Lemma runs_inj (s s' : machine W) evs1 evs2 :
  runs s evs1 s' -> trace s' = trace s ++ evs2 -> evs1 = evs2.
Proof.
  intros [H _] H2. rewrite H in H2. now apply app_inv_head in H2.
Qed.

(** Prefix the log of a continuation with the call just made. *)
Ltac log_step H := refine (runs_step _ _ _ _ _ _ _ H); reflexivity.

(** The log of a state written out in full. *)
Ltac runs_now :=
  split; [unfold close, called, set_errno, write; simpl;
          rewrite <- ?app_assoc, ?app_nil_r; reflexivity
         | reflexivity].

(** The log of the getrandom loop: calls that go on, then, when the
    loop gives up, the failed call, whose error code is left in
    [errno]. *)
Lemma getrandom_loop_log fuel pre p left (s : machine W) :
  match getrandom_loop K fuel pre p left s with
  | Return r s' =>
      (r = 0 /\ errno s' = pre /\
       exists evs, runs s evs s' /\ Forall getrandom_goes_on evs) \/
      (r = -1 /\
       exists evs p' left', runs s (evs ++ [E_getrandom p' left' (Err (errno s'))]) s' /\
                            Forall getrandom_goes_on evs /\ errno s' <> EINTR)
  | Timeout s' => exists evs, runs s evs s' /\ Forall getrandom_goes_on evs
  | Abort => False
  end.
Proof.
  revert p left s. induction fuel as [|fuel IH]; intros p left s; simpl.
  - destruct (0 <? left).
    + exists []. split; [apply runs_refl | constructor].
    + left. repeat split. exists []. split; [apply runs_set_errno, runs_refl | constructor].
  - destruct (0 <? left).
    2:{ left. repeat split. exists []. split; [apply runs_set_errno, runs_refl | constructor]. }
    destruct (sys_getrandom K (world s) left) as [w [e|bs]].
    + destruct (e =? EINTR) eqn:Ee.
      * apply Z.eqb_eq in Ee. subst e.
        assert (G : getrandom_goes_on (E_getrandom p left (Err EINTR)))
          by (exists p, left, (Err EINTR); auto).
        specialize (IH p left
          (set_errno EINTR (called w (E_getrandom p left (Err EINTR)) s))).
        destruct (getrandom_loop K fuel pre p left _) as [r s'| s'|]; [| |exact IH].
        -- destruct IH as [(Hr & He & evs & Hrun & Hall)|(Hr & evs & p' & l' & Hrun & Hall & Hne)].
           ++ left. split; [assumption|]. split; [assumption|].
              exists (E_getrandom p left (Err EINTR) :: evs).
              split; [log_step Hrun | constructor; assumption].
           ++ right. split; [assumption|].
              exists (E_getrandom p left (Err EINTR) :: evs), p', l'.
              split; [|split; [constructor; assumption | assumption]].
              simpl. log_step Hrun.
        -- destruct IH as (evs & Hrun & Hall).
           exists (E_getrandom p left (Err EINTR) :: evs).
           split; [log_step Hrun | constructor; assumption].
      * apply Z.eqb_neq in Ee. right. split; [reflexivity|].
        exists [], p, left. simpl.
        split; [|split; [constructor | exact Ee]].
        apply runs_set_errno, runs_called.
    + assert (G : getrandom_goes_on (E_getrandom p left (Ok bs)))
        by (exists p, left, (Ok bs); eauto).
      specialize (IH (p + int_of (Z.of_nat (length bs)))
                     (left - int_of (Z.of_nat (length bs)))
                     (write p F_getrandom bs (called w (E_getrandom p left (Ok bs)) s))).
      destruct (getrandom_loop K fuel pre _ _ _) as [r s'| s'|]; [| |exact IH].
      * destruct IH as [(Hr & He & evs & Hrun & Hall)|(Hr & evs & p' & l' & Hrun & Hall & Hne)].
        -- left. split; [assumption|]. split; [assumption|].
           exists (E_getrandom p left (Ok bs) :: evs).
           split; [log_step Hrun | constructor; assumption].
        -- right. split; [assumption|].
           exists (E_getrandom p left (Ok bs) :: evs), p', l'.
           split; [|split; [constructor; assumption | assumption]].
           simpl. log_step Hrun.
      * destruct IH as (evs & Hrun & Hall).
        exists (E_getrandom p left (Ok bs) :: evs).
        split; [log_step Hrun | constructor; assumption].
Qed.

Lemma logged_step {A} (P : event -> Prop) (s s1 : machine W) ev (o : outcome W A) :
  trace s1 = trace s ++ [ev] ->
  getrandom_available s1 = getrandom_available s ->
  P ev -> logged P s1 o -> logged P s o.
Proof.
  intros Ht Hf Hp H s' Hs'. destruct (H s' Hs') as (evs & Hr & Hall).
  exists (ev :: evs). split; [eapply runs_step; eauto | constructor; assumption].
Qed.

Lemma logged_here {A} (P : event -> Prop) (s s1 : machine W) evs (o : outcome W A) :
  final o = Some s1 -> runs s evs s1 -> Forall P evs -> logged P s o.
Proof.
  intros Ho Hr Hall s' Hs'. rewrite Ho in Hs'. injection Hs' as <-. eauto.
Qed.

Lemma logged_weaken {A} (P Q : event -> Prop) (s : machine W) (o : outcome W A) :
  (forall ev, P ev -> Q ev) -> logged P s o -> logged Q s o.
Proof.
  intros HPQ H s' Hs'. destruct (H s' Hs') as (evs & Hr & Hall).
  exists evs. split; [assumption|]. eapply Forall_impl; eauto.
Qed.

Lemma read_loop_logged fuel save fd buf len i (s : machine W) :
  logged read_or_close s (read_loop K fuel save fd buf len i s).
Proof.
  revert fuel i s.
  apply (read_loop_rect K save fd buf len (fun _ _ s o => logged read_or_close s o)).
  - intros. eapply logged_here;
      [reflexivity | apply runs_set_errno, runs_called | repeat constructor].
  - intros. eapply logged_here; [reflexivity | apply runs_refl | constructor].
  - intros. eapply (logged_here _ _ _ [E_read fd (buf + i) (len - i) (Err e); E_close fd]);
      [reflexivity | runs_now | repeat constructor].
  - intros. eapply logged_step; [| | |eassumption]; (reflexivity || exact I).
  - intros. eapply logged_step; [| | |eassumption]; (reflexivity || exact I).
Qed.

Lemma read_or_close_in_step ev : read_or_close ev -> in_step StepB ev.
Proof. destruct ev; simpl; intros H; try contradiction; reflexivity. Qed.

Lemma verify_and_read_logged fuel save fd buf len (s : machine W) :
  logged (in_step StepB) s (verify_and_read K fuel save fd buf len s).
Proof.
  destruct (verify_and_read_cases K fuel save fd buf len s)
    as [(w & e & _ & ->)|[(w & m & _ & _ & ->)|[(w & m & w' & e & _ & _ & _ & ->)
       |(w & m & w' & c & _ & _ & _ & ->)]]].
  - eapply (logged_here _ _ _ [E_fstat fd (Err e); E_close fd]);
      [reflexivity | runs_now | repeat constructor].
  - eapply (logged_here _ _ _ [E_fstat fd (Ok m); E_close fd]);
      [reflexivity | runs_now | repeat constructor].
  - eapply (logged_here _ _ _ [E_fstat fd (Ok m); E_ioctl fd (Err e); E_close fd]);
      [reflexivity | runs_now | repeat constructor].
  - apply (logged_step _ _ (called w (E_fstat fd (Ok m)) s) (E_fstat fd (Ok m)));
      try reflexivity.
    apply (logged_step _ _ (called w' (E_ioctl fd (Ok c)) (called w (E_fstat fd (Ok m)) s))
             (E_ioctl fd (Ok c))); try reflexivity.
    eapply logged_weaken; [exact read_or_close_in_step | apply read_loop_logged].
Qed.

Lemma urandom_start_logged fuel save buf len (s : machine W) :
  logged (in_step StepB) s (urandom_start K fuel save buf len s).
Proof.
  revert fuel s.
  apply (urandom_start_rect K save buf len (fun _ s o => logged (in_step StepB) s o)).
  - intros. eapply logged_here; [reflexivity | apply runs_refl | constructor].
  - intros. eapply (logged_here _ _ _ [E_open (Err e)]);
      [reflexivity | runs_now | repeat constructor].
  - intros. eapply logged_step; [| | |eassumption]; reflexivity.
  - intros.
    apply (logged_step _ _ (called w (E_open (Ok fd)) s) (E_open (Ok fd)));
      try reflexivity.
    apply verify_and_read_logged.
Qed.

Lemma sysctl_loop_logged fuel save buf len i (s : machine W) :
  logged (in_step StepC) s (sysctl_loop K fuel save buf len i s).
Proof.
  revert fuel i s.
  apply (sysctl_loop_rect K save buf len (fun _ _ s o => logged (in_step StepC) s o)).
  - intros. eapply logged_here; [reflexivity | apply runs_set_errno, runs_refl | constructor].
  - intros. eapply logged_here; [reflexivity | apply runs_refl | constructor].
  - intros. eapply (logged_here _ _ _ [E_sysctl (buf + i) (min (len - i) 16) (Err e)]);
      [reflexivity | runs_now | repeat constructor].
  - intros. eapply logged_step; [| | |eassumption]; reflexivity.
Qed.

(** Step B starts by opening the device. *)
Lemma urandom_start_opens fuel save buf len (s s' : machine W) :
  final (urandom_start K (S fuel) save buf len s) = Some s' ->
  exists r evs, runs s (E_open r :: evs) s'.
Proof.
  simpl. destruct (sys_open K (world s)) as [w [e|fd]] eqn:Ek.
  - destruct (e =? EINTR).
    + intros H.
      destruct (urandom_start_logged fuel save buf len _ _ H) as (evs & Hr & _).
      exists (Err e), evs. log_step Hr.
    + simpl. intros [= <-]. exists (Err e), [].
      apply runs_set_errno, runs_set_errno, runs_called.
  - intros H.
    destruct (verify_and_read_logged fuel save fd buf len _ _ H) as (evs & Hr & _).
    exists (Ok fd), evs. log_step Hr.
Qed.

(** Steps B and C of the Linux body, in this order; Step C is only
    reached when Step B has returned -1. *)
Lemma linux_after_getrandom_log c fuel buf n (s s' : machine W) :
  final (linux_after_getrandom K c fuel buf n s) = Some s' ->
  exists evB evC,
    runs s (evB ++ evC) s' /\
    Forall (in_step StepB) evB /\ Forall (in_step StepC) evC /\
    (fuel <> O -> exists r rest, evB = E_open r :: rest) /\
    (evC <> [] ->
     exists s1, getentropy_urandom K fuel buf n s = Return (-1) s1 /\ runs s evB s1).
Proof.
  unfold linux_after_getrandom, getentropy_urandom, getentropy_sysctl.
  pose proof (urandom_start_logged fuel (errno s) buf n s) as LB.
  pose proof (urandom_start_opens (pred fuel) (errno s) buf n s) as LO.
  assert (Hopen : forall s1 evB,
            final (urandom_start K fuel (errno s) buf n s) = Some s1 ->
            runs s evB s1 -> fuel <> O -> exists r rest, evB = E_open r :: rest).
  { intros s1 evB Hf Hr Hne.
    destruct fuel as [|fuel]; [congruence|]. simpl pred in LO.
    destruct (LO s1 Hf) as (r & rest & Hr').
    exists r, rest. symmetry. eapply runs_inj; [exact Hr' | apply Hr]. }
  destruct (urandom_start K fuel (errno s) buf n s) as [r s1| s1|] eqn:EB; simpl.
  - destruct (LB s1 eq_refl) as (evB & HrB & HallB).
    specialize (Hopen s1 evB eq_refl HrB).
    destruct (r =? -1) eqn:Er; simpl.
    + apply Z.eqb_eq in Er. subst r. destruct c.
      * pose proof (sysctl_loop_logged fuel (errno s1) buf n 0 s1) as LC.
        assert (HC : forall s2 evC, runs s1 evC s2 -> Forall (in_step StepC) evC ->
                  runs s (evB ++ evC) s2 /\
                  Forall (in_step StepB) evB /\ Forall (in_step StepC) evC /\
                  (fuel <> O -> exists r rest, evB = E_open r :: rest) /\
                  (evC <> [] ->
                   exists s0, Return (-1) s1 = Return (-1) s0 /\ runs s evB s0)).
        { intros s2 evC HrC HallC.
          split; [eapply runs_trans; eauto|]. repeat split; eauto; apply HrB. }
        destruct (sysctl_loop K fuel (errno s1) buf n 0 s1) as [r2 s2| s2|] eqn:EC; simpl.
        -- destruct (LC s2 eq_refl) as (evC & HrC & HallC).
           intros Hs'. exists evB, evC.
           assert (s' = s2) as -> by (destruct (negb (r2 =? -1)); simpl in Hs'; congruence).
           apply HC; assumption.
        -- destruct (LC s2 eq_refl) as (evC & HrC & HallC).
           intros [= <-]. exists evB, evC. apply HC; assumption.
        -- discriminate.
      * simpl. intros [= <-]. exists evB, []. rewrite app_nil_r.
        repeat split; auto; try apply HrB. congruence.
    + intros [= <-]. exists evB, []. rewrite app_nil_r.
      repeat split; auto; try apply HrB. congruence.
  - destruct (LB s1 eq_refl) as (evB & HrB & HallB).
    specialize (Hopen s1 evB eq_refl HrB).
    intros [= <-]. exists evB, []. rewrite app_nil_r.
    repeat split; auto; try apply HrB. congruence.
  - discriminate.
Qed.

(** The log of one call of the Linux body, by what became of Step A. *)
Lemma ggentropy_linux_log g c fuel buf n (s s' : machine W) :
  final (ggentropy_linux K g c fuel buf n s) = Some s' ->
  exists evA evB evC,
    trace s' = trace s ++ evA ++ evB ++ evC /\
    Forall (in_step StepB) evB /\ Forall (in_step StepC) evC /\
    (evC <> [] ->
     exists sB s1, getentropy_urandom K fuel buf n sB = Return (-1) s1 /\
                   trace s1 = trace s ++ evA ++ evB) /\
    ((* Step A is skipped *)
     (g && getrandom_available s = false /\ evA = [] /\
      getrandom_available s' = getrandom_available s /\
      (fuel <> O -> exists r rest, evB = E_open r :: rest)) \/
     (* Step A completes, or is still at it *)
     (g && getrandom_available s = true /\ Forall getrandom_goes_on evA /\
      evB = [] /\ evC = [] /\ getrandom_available s' = true /\
      (ggentropy_linux K g c fuel buf n s = Return true s' \/
       ggentropy_linux K g c fuel buf n s = Timeout s')) \/
     (* getrandom is not implemented *)
     (g && getrandom_available s = true /\
      (exists pre p left, evA = pre ++ [E_getrandom p left (Err ENOSYS)] /\
                          Forall getrandom_goes_on pre) /\
      getrandom_available s' = false /\
      (fuel <> O -> exists r rest, evB = E_open r :: rest)) \/
     (* getrandom fails for another reason *)
     (g && getrandom_available s = true /\
      (exists pre p left e, evA = pre ++ [E_getrandom p left (Err e)] /\
                            Forall getrandom_goes_on pre /\
                            e <> EINTR /\ e <> ENOSYS) /\
      evB = [] /\ evC = [] /\ getrandom_available s' = true /\
      ggentropy_linux K g c fuel buf n s = Return false s')).
Proof.
  unfold ggentropy_linux, assert_n.
  destruct (n <=? 256); simpl; [|discriminate].
  destruct (g && getrandom_available s) eqn:Eg.
  - assert (Hav : getrandom_available s = true)
      by (apply andb_true_iff in Eg; apply Eg).
    unfold getentropy_getrandom.
    pose proof (getrandom_loop_log fuel (errno s) buf (int_of n) s) as LA.
    destruct (getrandom_loop K fuel (errno s) buf (int_of n) s) as [r s1| s1|]; simpl.
    + destruct LA as [(-> & He & evA & [Ht Hf] & HallA)
                     |(-> & pre & p & left & [Ht Hf] & HallA & Hne)]; simpl.
      * intros [= <-]. exists evA, [], []. rewrite !app_nil_r.
        split; [exact Ht|]. split; [constructor|]. split; [constructor|].
        split; [congruence|].
        right; left. repeat split; auto; congruence.
      * destruct (errno s1 =? ENOSYS) eqn:Ee.
        -- apply Z.eqb_eq in Ee. rewrite Ee in Ht. intros H.
           destruct (linux_after_getrandom_log c fuel buf n _ _ H)
             as (evB & evC & [Ht2 Hf2] & HallB & HallC & Hopen & HBfail).
           exists (pre ++ [E_getrandom p left (Err ENOSYS)]), evB, evC.
           split; [simpl in Ht2; rewrite Ht2, Ht; now rewrite <- !app_assoc|].
           split; [exact HallB|]. split; [exact HallC|].
           split.
           { intros HC. destruct (HBfail HC) as (s2 & HB & [Ht3 _]).
             exists (set_available false s1), s2. split; [exact HB|].
             rewrite Ht3. simpl. rewrite Ht. now rewrite <- !app_assoc. }
           right; right; left. repeat split; eauto.
        -- apply Z.eqb_neq in Ee. intros [= <-].
           exists (pre ++ [E_getrandom p left (Err (errno s1))]), [], [].
           rewrite !app_nil_r.
           split; [exact Ht|]. split; [constructor|]. split; [constructor|].
           split; [congruence|].
           right; right; right. repeat split; eauto 10; congruence.
    + destruct LA as (evA & [Ht Hf] & HallA). intros [= <-].
      exists evA, [], []. rewrite !app_nil_r.
      split; [exact Ht|]. split; [constructor|]. split; [constructor|].
      split; [congruence|].
      right; left. repeat split; auto; congruence.
    + contradiction.
  - intros H.
    destruct (linux_after_getrandom_log c fuel buf n _ _ H)
      as (evB & evC & [Ht Hf] & HallB & HallC & Hopen & HBfail).
    exists [], evB, evC. simpl.
    split; [exact Ht|]. split; [exact HallB|]. split; [exact HallC|].
    split.
    { intros HC. destruct (HBfail HC) as (s2 & HB & [Ht3 _]). eauto. }
    left. auto.
Qed.

End Log.



(** ** What each strategy writes *)

Section Memory.

Context {W : Type} (K : kernel W) (HK : kernel_contract K).

Lemma getrandom_loop_memory fuel pre p left (s : machine W) :
  0 <= left < 2 ^ 31 ->
  confined p (p + left) s (getrandom_loop K fuel pre p left s) /\
  filled_by F_getrandom p (p + left) (getrandom_loop K fuel pre p left s).
Proof.
  revert fuel p left s.
  apply (getrandom_loop_rect K pre
           (fun _ p left s o => 0 <= left < 2 ^ 31 ->
              confined p (p + left) s o /\ filled_by F_getrandom p (p + left) o)).
  - intros fuel p left s Hl Hb. split.
    + intros s' [= <-] a _. reflexivity.
    + intros r s' _ _ a Ha. lia.
  - intros p left s Hl Hb. split.
    + intros s' [= <-] a _. reflexivity.
    + intros r s' [=].
  - intros fuel p left s w e Hl Hk He Hb. split.
    + intros s' [= <-] a _. reflexivity.
    + intros r s' [= <- _] Hr. congruence.
  - intros fuel p left s w o Hl Hk IH Hb. destruct (IH Hb) as [IHc IHf]. split.
    + intros s' Hs' a Ha. rewrite (IHc s' Hs' a Ha). reflexivity.
    + exact IHf.
  - intros fuel p left s w bs o Hl Hk IH Hb.
    pose proof (getrandom_le K HK _ _ _ _ Hk) as Hle. specialize (Hle ltac:(lia)).
    rewrite int_of_small in IH by lia.
    destruct IH as [IHc IHf]; [lia|].
    replace (p + Z.of_nat (length bs) + (left - Z.of_nat (length bs)))
      with (p + left) in * by lia.
    split.
    + intros s' Hs' a Ha. rewrite (IHc s' Hs' a) by lia.
      simpl. apply store_outside. lia.
    + intros r s' Ho Hr a Ha.
      destruct (Z_lt_le_dec a (p + Z.of_nat (length bs))) as [Hlt|Hge].
      * rewrite (IHc s' ltac:(rewrite Ho; reflexivity) a) by lia.
        simpl. apply store_inside. lia.
      * apply (IHf r s' Ho Hr). lia.
Qed.

Lemma read_loop_memory fuel save fd buf len i (s : machine W) :
  0 <= i <= len ->
  confined (buf + i) (buf + len) s (read_loop K fuel save fd buf len i s) /\
  filled_by F_urandom (buf + i) (buf + len) (read_loop K fuel save fd buf len i s).
Proof.
  revert fuel i s.
  apply (read_loop_rect K save fd buf len
           (fun _ i s o => 0 <= i <= len ->
              confined (buf + i) (buf + len) s o /\
              filled_by F_urandom (buf + i) (buf + len) o)).
  - intros fuel i s Hl Hb. split.
    + intros s' [= <-] a _. reflexivity.
    + intros r s' _ _ a Ha. lia.
  - intros i s Hl Hb. split.
    + intros s' [= <-] a _. reflexivity.
    + intros r s' [=].
  - intros fuel i s w e Hl Hk He1 He2 Hb. split.
    + intros s' [= <-] a _. reflexivity.
    + intros r s' [= <- _] Hr. congruence.
  - intros fuel i s w e o Hl Hk He IH Hb. destruct (IH Hb) as [IHc IHf]. split.
    + intros s' Hs' a Ha. rewrite (IHc s' Hs' a Ha). reflexivity.
    + exact IHf.
  - intros fuel i s w bs o Hl Hk IH Hb.
    pose proof (read_le K HK _ _ _ _ _ Hk) as Hle. specialize (Hle ltac:(lia)).
    destruct IH as [IHc IHf]; [lia|].
    split.
    + intros s' Hs' a Ha. rewrite (IHc s' Hs' a) by lia.
      simpl. apply store_outside. lia.
    + intros r s' Ho Hr a Ha.
      destruct (Z_lt_le_dec a (buf + i + Z.of_nat (length bs))) as [Hlt|Hge].
      * rewrite (IHc s' ltac:(rewrite Ho; reflexivity) a) by lia.
        simpl. apply store_inside. lia.
      * apply (IHf r s' Ho Hr). lia.
Qed.

Lemma sysctl_loop_memory fuel save buf len i (s : machine W) :
  0 <= i <= len ->
  confined (buf + i) (buf + len) s (sysctl_loop K fuel save buf len i s) /\
  filled_by F_sysctl (buf + i) (buf + len) (sysctl_loop K fuel save buf len i s).
Proof.
  revert fuel i s.
  apply (sysctl_loop_rect K save buf len
           (fun _ i s o => 0 <= i <= len ->
              confined (buf + i) (buf + len) s o /\
              filled_by F_sysctl (buf + i) (buf + len) o)).
  - intros fuel i s Hl Hb. split.
    + intros s' [= <-] a _. reflexivity.
    + intros r s' _ _ a Ha. lia.
  - intros i s Hl Hb. split.
    + intros s' [= <-] a _. reflexivity.
    + intros r s' [=].
  - intros fuel i s w e Hl Hk Hb. split.
    + intros s' [= <-] a _. reflexivity.
    + intros r s' [= <- _] Hr. congruence.
  - intros fuel i s w bs o Hl Hk IH Hb.
    pose proof (min_le_l (len - i) 16) as Hmin.
    pose proof (min_pos (len - i) 16 ltac:(lia) ltac:(lia)) as Hpos.
    pose proof (sysctl_le K HK _ _ _ _ Hk) as Hle. specialize (Hle ltac:(lia)).
    destruct IH as [IHc IHf]; [lia|].
    split.
    + intros s' Hs' a Ha. rewrite (IHc s' Hs' a) by lia.
      simpl. apply store_outside. lia.
    + intros r s' Ho Hr a Ha.
      destruct (Z_lt_le_dec a (buf + i + Z.of_nat (length bs))) as [Hlt|Hge].
      * rewrite (IHc s' ltac:(rewrite Ho; reflexivity) a) by lia.
        simpl. apply store_inside. lia.
      * apply (IHf r s' Ho Hr). lia.
Qed.

Lemma verify_and_read_memory fuel save fd buf len (s : machine W) :
  0 <= len ->
  confined buf (buf + len) s (verify_and_read K fuel save fd buf len s) /\
  filled_by F_urandom buf (buf + len) (verify_and_read K fuel save fd buf len s).
Proof.
  intros Hlen.
  destruct (verify_and_read_cases K fuel save fd buf len s)
    as [(w & e & _ & ->)|[(w & m & _ & _ & ->)|[(w & m & w' & e & _ & _ & _ & ->)
       |(w & m & w' & c & _ & _ & _ & ->)]]].
  1-3: split; [intros s' [= <-] a _; reflexivity
              | intros r s' [= <- _] Hr; congruence].
  destruct (read_loop_memory fuel save fd buf len 0
              (called w' (E_ioctl fd (Ok c)) (called w (E_fstat fd (Ok m)) s)))
    as [Hc Hf]; [lia|].
  rewrite Z.add_0_r in Hc, Hf. split; [|exact Hf].
  intros s' Hs' a Ha. rewrite (Hc s' Hs' a Ha). reflexivity.
Qed.

Lemma urandom_start_memory fuel save buf len (s : machine W) :
  0 <= len ->
  confined buf (buf + len) s (urandom_start K fuel save buf len s) /\
  filled_by F_urandom buf (buf + len) (urandom_start K fuel save buf len s).
Proof.
  intros Hlen. revert fuel s.
  apply (urandom_start_rect K save buf len
           (fun _ s o => confined buf (buf + len) s o /\
                         filled_by F_urandom buf (buf + len) o)).
  - intros s. split.
    + intros s' [= <-] a _. reflexivity.
    + intros r s' [=].
  - intros fuel s w e Hk He. split.
    + intros s' [= <-] a _. reflexivity.
    + intros r s' [= <- _] Hr. congruence.
  - intros fuel s w o Hk [IHc IHf]. split; [|exact IHf].
    intros s' Hs' a Ha. rewrite (IHc s' Hs' a Ha). reflexivity.
  - intros fuel s w fd Hk.
    destruct (verify_and_read_memory fuel save fd buf len (called w (E_open (Ok fd)) s) Hlen)
      as [Hc Hf].
    split; [|exact Hf].
    intros s' Hs' a Ha. rewrite (Hc s' Hs' a Ha). reflexivity.
Qed.

Lemma linux_after_getrandom_memory c fuel buf n (s : machine W) :
  0 <= n ->
  confined buf (buf + n) s (linux_after_getrandom K c fuel buf n s) /\
  (forall s', linux_after_getrandom K c fuel buf n s = Return true s' ->
   forall a, buf <= a < buf + n ->
     source (mem s' a) = Facility F_urandom \/
     (c = true /\ source (mem s' a) = Facility F_sysctl)).
Proof.
  intros Hn. unfold linux_after_getrandom, getentropy_urandom, getentropy_sysctl.
  destruct (urandom_start_memory fuel (errno s) buf n s Hn) as [HcB HfB].
  destruct (urandom_start K fuel (errno s) buf n s) as [r s1| s1|]; simpl.
  - specialize (HcB s1 eq_refl). specialize (HfB r s1 eq_refl).
    destruct (r =? -1) eqn:Er; simpl.
    + destruct c.
      * destruct (sysctl_loop_memory fuel (errno s1) buf n 0 s1) as [HcC HfC]; [lia|].
        rewrite Z.add_0_r in HcC, HfC.
        destruct (sysctl_loop K fuel (errno s1) buf n 0 s1) as [r2 s2| s2|]; simpl.
        -- specialize (HcC s2 eq_refl). specialize (HfC r2 s2 eq_refl).
           destruct (r2 =? -1) eqn:Er2; simpl.
           ++ split; [|discriminate].
              intros s' [= <-] a Ha. rewrite (HcC a Ha). auto.
           ++ apply Z.eqb_neq in Er2. split.
              ** intros s' [= <-] a Ha. rewrite (HcC a Ha). auto.
              ** intros s' [= <-] a Ha. right. auto.
        -- split; [|discriminate].
           intros s' [= <-] a Ha. rewrite (HcC s2 eq_refl a Ha). auto.
        -- split; [intros s' [=] | discriminate].
      * split; [|discriminate]. intros s' [= <-]. exact HcB.
    + apply Z.eqb_neq in Er. split.
      * intros s' [= <-]. exact HcB.
      * intros s' [= <-] a Ha. left. auto.
  - split; [|discriminate]. intros s' [= <-]. exact (HcB s1 eq_refl).
  - split; [intros s' [=] | discriminate].
Qed.

Lemma ggentropy_linux_memory g c fuel buf n (s : machine W) :
  0 <= n <= 256 ->
  confined buf (buf + n) s (ggentropy_linux K g c fuel buf n s) /\
  (forall s', ggentropy_linux K g c fuel buf n s = Return true s' ->
   forall a, buf <= a < buf + n ->
     exists f, source (mem s' a) = Facility f /\ draws_from (PLATFORM_LINUX g c) f).
Proof.
  intros Hn. unfold ggentropy_linux, assert_n.
  replace (n <=? 256) with true by (symmetry; apply Z.leb_le; lia). simpl.
  assert (HBC : forall s0 : machine W,
            confined buf (buf + n) s0 (linux_after_getrandom K c fuel buf n s0) /\
            (forall s', linux_after_getrandom K c fuel buf n s0 = Return true s' ->
             forall a, buf <= a < buf + n ->
               exists f, source (mem s' a) = Facility f /\
                         draws_from (PLATFORM_LINUX g c) f)).
  { intros s0.
    destruct (linux_after_getrandom_memory c fuel buf n s0) as [Hc Hf]; [lia|].
    split; [exact Hc|]. intros s' Hs' a Ha.
    destruct (Hf s' Hs' a Ha) as [H|[Hc' H]].
    - exists F_urandom. simpl. auto.
    - exists F_sysctl. simpl. auto. }
  destruct (g && getrandom_available s) eqn:Eg; [|apply HBC].
  apply andb_true_iff in Eg. destruct Eg as [-> _].
  unfold getentropy_getrandom. rewrite int_of_small by lia.
  destruct (getrandom_loop_memory fuel (errno s) buf n s) as [HcA HfA]; [lia|].
  destruct (getrandom_loop K fuel (errno s) buf n s) as [r s1| s1|]; simpl.
  - specialize (HcA s1 eq_refl). specialize (HfA r s1 eq_refl).
    destruct (r =? -1) eqn:Er; simpl.
    + destruct (errno s1 =? ENOSYS).
      * destruct (HBC (set_available false s1)) as [Hc Hf]. split; [|exact Hf].
        intros s' Hs' a Ha. rewrite (Hc s' Hs' a Ha). simpl. auto.
      * split; [|discriminate]. intros s' [= <-]. exact HcA.
    + apply Z.eqb_neq in Er. split.
      * intros s' [= <-]. exact HcA.
      * intros s' [= <-] a Ha. exists F_getrandom. simpl. auto.
  - split; [|discriminate]. intros s' [= <-]. exact (HcA s1 eq_refl).
  - split; [intros s' [=] | discriminate].
Qed.

(** What a call writes, on every platform. *)
Lemma ggentropy_memory pf fuel buf n (s : machine W) :
  0 <= n <= 256 ->
  confined buf (buf + n) s (ggentropy K pf fuel buf n s) /\
  (forall s', ggentropy K pf fuel buf n s = Return true s' ->
   forall a, buf <= a < buf + n ->
     exists f, source (mem s' a) = Facility f /\ draws_from pf f).
Proof.
  intros Hn. destruct pf as [|g c|]; simpl.
  - unfold ggentropy_windows, assert_n.
    replace (n <=? 256) with true by (symmetry; apply Z.leb_le; lia). simpl.
    destruct (BCryptGenRandom K (world s) n) as [w [e|bs]] eqn:Ek.
    + split; [|discriminate]. intros s' [= <-] a _. reflexivity.
    + pose proof (bcrypt_all K HK _ _ _ _ Ek (proj1 Hn)) as Hlen. split.
      * intros s' [= <-] a Ha. simpl. apply store_outside. lia.
      * intros s' [= <-] a Ha. exists F_BCryptGenRandom. split; [|reflexivity].
        simpl. apply store_inside. lia.
  - apply ggentropy_linux_memory. exact Hn.
  - unfold ggentropy_arc4random, assert_n.
    replace (n <=? 256) with true by (symmetry; apply Z.leb_le; lia). simpl.
    destruct (arc4random_buf K (world s) n) as [w bs] eqn:Ek.
    pose proof (arc4random_all K HK _ _ _ _ Ek (proj1 Hn)) as Hlen. split.
    + intros s' [= <-] a Ha. simpl. apply store_outside. lia.
    + intros s' [= <-] a Ha. exists F_arc4random_buf. split; [|reflexivity].
      simpl. apply store_inside. lia.
Qed.

End Memory.

(** ** The sample systems keep the contract *)

Lemma length_bytes (b : byte) (len : Z) : 0 <= len -> Z.of_nat (length (bytes b len)) = len.
Proof. intros H. unfold bytes. rewrite repeat_length. lia. Qed.

Lemma healthy_contract : kernel_contract (scripted healthy).
Proof.
  constructor; simpl.
  - intros w len w' bs [= _ <-] H. rewrite length_bytes; lia.
  - intros w fd cnt w' bs [= _ <-] H. rewrite length_bytes; lia.
  - intros w chunk w' bs [= _ <-] H. rewrite length_bytes; lia.
  - intros w n w' bs [= _ <-] H. apply length_bytes; lia.
  - intros w n w' bs [= _ <-] H. apply length_bytes; lia.
Qed.




(** C7.  For every platform and every length between 0 and 256, on a
    system whose primitives transfer the amounts they report, a call
    that returns true has written each of the first [n] bytes of the
    buffer, and every byte outside them (at an index at or beyond [n],
    or below the buffer) holds what it held before the call. *)
Theorem success_writes_exactly_n_bytes :
  forall (W : Type) (K : kernel W) (pf : platform) (fuel : nat) (buf n : Z)
         (s s' : machine W),
    kernel_contract K ->
    0 <= n <= 256 ->
    ggentropy K pf fuel buf n s = Return true s' ->
    (forall a, buf <= a < buf + n -> exists f, source (mem s' a) = Facility f) /\
    (forall a, ~ (buf <= a < buf + n) -> mem s' a = mem s a).
Proof.
  intros W K pf fuel buf n s s' HK Hn Hret.
  destruct (ggentropy_memory K HK pf fuel buf n s Hn) as [Hconf Hfill].
  split.
  - intros a Ha. destruct (Hfill s' Hret a Ha) as (f & Hf & _). eauto.
  - intros a Ha. apply (Hconf s'); [rewrite Hret; reflexivity | exact Ha].
Qed.

Lemma success_writes_exactly_n_bytes_witness :
  exists s' : machine nat,
    ggentropy (scripted healthy) (PLATFORM_LINUX true true) 20 1000 16
      (boot 0%nat blank) = Return true s' /\
    (exists f, source (mem s' 1015) = Facility f) /\
    mem s' 1016 = blank 1016 /\ mem s' 999 = blank 999.
Proof.
  destruct (ggentropy (scripted healthy) (PLATFORM_LINUX true true) 20 1000 16
              (boot 0%nat blank)) as [[|] s'| |] eqn:E; try discriminate.
  exists s'. split; [reflexivity|].
  assert (Hn : 0 <= 16 <= 256) by lia.
  destruct (success_writes_exactly_n_bytes nat (scripted healthy)
              (PLATFORM_LINUX true true) 20 1000 16 (boot 0%nat blank) s'
              healthy_contract Hn E) as [Hin Hout].
  split; [apply Hin; lia|].
  split; apply Hout; lia.
Defined.

(** ** The assertion, the flag and the order of the strategies *)

Section Claims_control.

Context {W : Type} (K : kernel W).

Lemma goes_on_in_step ev : getrandom_goes_on ev -> in_step StepA ev.
Proof. intros (p & l & r & -> & _). reflexivity. Qed.

Lemma goes_on_error p left e : getrandom_goes_on (E_getrandom p left (Err e)) -> e = EINTR.
Proof.
  intros (p' & l' & r & H & [Hr|(bs & Hr)]); subst r; congruence.
Qed.

Lemma not_in_other_step st evs ev :
  Forall (in_step st) evs -> In ev evs -> strategy_of ev = st.
Proof. intros H Hin. rewrite Forall_forall in H. exact (H _ Hin). Qed.

Lemma Forall_other_step st evs :
  st <> StepA -> Forall (in_step st) evs -> Forall (fun ev => ~ in_step StepA ev) evs.
Proof.
  intros Hne H. eapply Forall_impl; [|exact H].
  unfold in_step. intros ev H1 H2. congruence.
Qed.

Lemma ggentropy_abort_eq pf fuel buf n (s : machine W) :
  aborted (ggentropy K pf fuel buf n s) = (256 <? n).
Proof.
  pose proof (ggentropy_abort_iff K pf fuel buf n s) as [H1 H2].
  destruct (ggentropy K pf fuel buf n s) eqn:E; simpl; symmetry.
  - apply Z.ltb_ge. destruct (Z_lt_le_dec 256 n) as [L|L]; [|exact L].
    specialize (H2 L). discriminate.
  - apply Z.ltb_ge. destruct (Z_lt_le_dec 256 n) as [L|L]; [|exact L].
    specialize (H2 L). discriminate.
  - apply Z.ltb_lt. auto.
Qed.

(** One call of the Linux body and the flag. *)
Lemma flag_one_call g c fuel buf n (s s' : machine W) :
  final (ggentropy K (PLATFORM_LINUX g c) fuel buf n s) = Some s' ->
  exists evs,
    trace s' = trace s ++ evs /\
    (getrandom_available s = true -> getrandom_available s' = false ->
     exists pre p left post,
       evs = pre ++ E_getrandom p left (Err ENOSYS) :: post /\
       Forall (in_step StepA) pre /\
       Forall (fun ev => ~ in_step StepA ev) post) /\
    (getrandom_available s = false ->
     getrandom_available s' = false /\
     Forall (fun ev => ~ in_step StepA ev) evs /\
     (fuel <> O -> exists r rest, evs = E_open r :: rest)).
Proof.
  simpl. intros H.
  destruct (ggentropy_linux_log K g c fuel buf n s s' H)
    as (evA & evB & evC & Ht & HB & HC & HBfailed & Hcases).
  assert (HBC : Forall (fun ev => ~ in_step StepA ev) (evB ++ evC)).
  { apply Forall_app. split; eapply Forall_other_step; eauto; discriminate. }
  exists (evA ++ evB ++ evC). split; [exact Ht|].
  destruct Hcases as [(Eg & -> & Hf & Hopen)
                     |[(Eg & HA & -> & -> & Hf & _)
                      |[(Eg & (pre & p & left & -> & Hpre) & Hf & Hopen)
                       |(Eg & _ & -> & -> & Hf & _)]]].
  - split.
    + intros H1 H2. congruence.
    + intros H1. split; [congruence|]. split; [exact HBC|].
      intros Hfuel. destruct (Hopen Hfuel) as (r & rest & ->).
      exists r, (rest ++ evC). reflexivity.
  - split; [congruence|].
    intros H1. rewrite H1, andb_false_r in Eg. discriminate.
  - split.
    + intros _ _. exists pre, p, left, (evB ++ evC). rewrite <- app_assoc.
      split; [reflexivity|]. split; [|exact HBC].
      eapply Forall_impl; [exact goes_on_in_step | exact Hpre].
    + intros H1. rewrite H1, andb_false_r in Eg. discriminate.
  - split; [congruence|].
    intros H1. rewrite H1, andb_false_r in Eg. discriminate.
Qed.

(** Once unavailable, the flag stays so over any number of calls, none
    of which invokes getrandom. *)
Lemma flag_session g c fuel reqs (s s' : machine W) :
  session K (PLATFORM_LINUX g c) fuel reqs s = Some s' ->
  getrandom_available s = false ->
  getrandom_available s' = false /\
  exists evs, trace s' = trace s ++ evs /\ Forall (fun ev => ~ in_step StepA ev) evs.
Proof.
  revert s. induction reqs as [|[buf n] reqs IH]; intros s; cbn [session].
  - intros [= <-] Hf. split; [exact Hf|]. exists []. split; [now rewrite app_nil_r | constructor].
  - destruct (ggentropy K (PLATFORM_LINUX g c) fuel buf n s) as [b s1| |] eqn:E;
      try discriminate.
    intros Hs Hf.
    destruct (flag_one_call g c fuel buf n s s1) as (evs1 & Ht1 & _ & H1);
      [rewrite E; reflexivity|].
    destruct (H1 Hf) as (Hf1 & Hall1 & _).
    destruct (IH s1 Hs Hf1) as (Hf' & evs2 & Ht2 & Hall2).
    split; [exact Hf'|]. exists (evs1 ++ evs2). split.
    + rewrite Ht2, Ht1. now rewrite app_assoc.
    + apply Forall_app. auto.
Qed.

(** A getrandom error other than [EINTR] and [ENOSYS] ends the call. *)
Lemma getrandom_error_ends_call g c fuel buf n (s s' : machine W) evs p left e :
  final (ggentropy K (PLATFORM_LINUX g c) fuel buf n s) = Some s' ->
  trace s' = trace s ++ evs ->
  In (E_getrandom p left (Err e)) evs -> e <> EINTR -> e <> ENOSYS ->
  ggentropy K (PLATFORM_LINUX g c) fuel buf n s = Return false s' /\
  (exists pre, evs = pre ++ [E_getrandom p left (Err e)]) /\
  Forall (in_step StepA) evs /\
  getrandom_available s' = getrandom_available s.
Proof.
  simpl. intros H Ht Hin Hne1 Hne2.
  destruct (ggentropy_linux_log K g c fuel buf n s s' H)
    as (evA & evB & evC & Ht' & HB & HC & HBfailed & Hcases).
  assert (evs = evA ++ evB ++ evC) as ->
    by (rewrite Ht in Ht'; now apply app_inv_head in Ht').
  assert (HnB : ~ In (E_getrandom p left (Err e)) evB)
    by (intros Hi; pose proof (not_in_other_step _ _ _ HB Hi); discriminate).
  assert (HnC : ~ In (E_getrandom p left (Err e)) evC)
    by (intros Hi; pose proof (not_in_other_step _ _ _ HC Hi); discriminate).
  assert (Hgo : forall l, Forall getrandom_goes_on l ->
                          ~ In (E_getrandom p left (Err e)) l).
  { intros l Hl Hi. rewrite Forall_forall in Hl.
    apply Hne1. eapply goes_on_error. exact (Hl _ Hi). }
  destruct Hcases as [(Eg & -> & Hf & Hopen)
                     |[(Eg & HA & -> & -> & Hf & _)
                      |[(Eg & (pre & p' & left' & -> & Hpre) & Hf & Hopen)
                       |(Eg & (pre & p' & left' & e' & -> & Hpre & He1 & He2)
                         & -> & -> & Hf & Hret)]]].
  - exfalso. simpl in Hin. apply in_app_or in Hin. tauto.
  - exfalso. rewrite !app_nil_r in Hin. exact (Hgo _ HA Hin).
  - exfalso. apply in_app_or in Hin. destruct Hin as [Hin|Hin].
    + apply in_app_or in Hin. destruct Hin as [Hin|[Hin|[]]].
      * exact (Hgo _ Hpre Hin).
      * congruence.
    + apply in_app_or in Hin. tauto.
  - rewrite !app_nil_r in *. apply in_app_or in Hin.
    destruct Hin as [Hin|[Hin|[]]]; [exfalso; exact (Hgo _ Hpre Hin)|].
    injection Hin as -> -> ->.
    split; [exact Hret|]. split; [eauto|]. split.
    + apply Forall_app. split; [|repeat constructor].
      eapply Forall_impl; [exact goes_on_in_step | exact Hpre].
    + apply andb_true_iff in Eg. destruct Eg as [_ Eg]. congruence.
Qed.

(** A strategy that succeeds ends the call with [true], in the state the
    strategy left. *)
Lemma success_ends_call g c fuel buf n (s : machine W) :
  n <= 256 ->
  (g && getrandom_available s = true ->
   forall r s1, getentropy_getrandom K fuel buf n s = Return r s1 -> r <> -1 ->
     ggentropy K (PLATFORM_LINUX g c) fuel buf n s = Return true s1) /\
  (g && getrandom_available s = false ->
   forall r s2, getentropy_urandom K fuel buf n s = Return r s2 -> r <> -1 ->
     ggentropy K (PLATFORM_LINUX g c) fuel buf n s = Return true s2) /\
  (g && getrandom_available s = true ->
   forall s1 r s2, getentropy_getrandom K fuel buf n s = Return (-1) s1 ->
     errno s1 = ENOSYS ->
     getentropy_urandom K fuel buf n (set_available false s1) = Return r s2 ->
     r <> -1 ->
     ggentropy K (PLATFORM_LINUX g c) fuel buf n s = Return true s2).
Proof.
  intros Hn. simpl. unfold ggentropy_linux, assert_n.
  replace (n <=? 256) with true by (symmetry; apply Z.leb_le; exact Hn). simpl.
  assert (Hneq : forall r, r <> -1 -> negb (r =? -1) = true)
    by (intros r Hr; apply negb_true_iff, Z.eqb_neq; exact Hr).
  split; [|split].
  - intros -> r s1 -> Hr. simpl. now rewrite (Hneq r Hr).
  - intros -> r s2 HB Hr. unfold linux_after_getrandom. rewrite HB. simpl.
    now rewrite (Hneq r Hr).
  - intros -> s1 r s2 -> He HB Hr. simpl. rewrite He. simpl.
    unfold linux_after_getrandom. rewrite HB. simpl.
    now rewrite (Hneq r Hr).
Qed.

End Claims_control.

(** C2.  The flag [getrandom_available] is monotonic.  It starts as
    available.  Over one call of the Linux body it goes from available to
    unavailable only if the log of the call has a getrandom call that
    failed with [ENOSYS] (after getrandom calls only, and followed by no
    further getrandom call).  If it is unavailable before a call, it is
    unavailable after it, the call invokes no getrandom at all and the
    first primitive it invokes is the open of the device.  The same
    holds over any sequence of later calls. *)
Theorem flag_monotonic :
  forall (W : Type) (K : kernel W) (g c : bool),
    (forall (w : W) (m : memory), getrandom_available (boot w m) = true) /\
    (forall fuel buf n (s s' : machine W),
       final (ggentropy K (PLATFORM_LINUX g c) fuel buf n s) = Some s' ->
       exists evs,
         trace s' = trace s ++ evs /\
         (getrandom_available s = true -> getrandom_available s' = false ->
          exists pre p left post,
            evs = pre ++ E_getrandom p left (Err ENOSYS) :: post /\
            Forall (in_step StepA) pre /\
            Forall (fun ev => ~ in_step StepA ev) post) /\
         (getrandom_available s = false ->
          getrandom_available s' = false /\
          Forall (fun ev => ~ in_step StepA ev) evs /\
          (fuel <> O -> exists r rest, evs = E_open r :: rest))) /\
    (forall fuel reqs (s s' : machine W),
       session K (PLATFORM_LINUX g c) fuel reqs s = Some s' ->
       getrandom_available s = false ->
       getrandom_available s' = false /\
       exists evs, trace s' = trace s ++ evs /\
                   Forall (fun ev => ~ in_step StepA ev) evs).
Proof.
  intros W K g c. split; [reflexivity|]. split.
  - intros fuel buf n s s' H. exact (flag_one_call K g c fuel buf n s s' H).
  - intros fuel reqs s s' H Hf. exact (flag_session K g c fuel reqs s s' H Hf).
Qed.

(** On a kernel without getrandom the first call flips the flag on
    [ENOSYS]; the second call starts with the open of the device. *)
Lemma flag_monotonic_witness :
  exists s1 s2 : machine nat,
    final (ggentropy (scripted no_getrandom) (PLATFORM_LINUX true true) 20 1000 16
             (boot 0%nat blank)) = Some s1 /\
    final (ggentropy (scripted no_getrandom) (PLATFORM_LINUX true true) 20 1000 16 s1)
      = Some s2 /\
    (exists pre p left post,
        trace s1 = pre ++ E_getrandom p left (Err ENOSYS) :: post) /\
    getrandom_available s2 = false /\
    (exists evs r rest, trace s2 = trace s1 ++ evs /\ evs = E_open r :: rest).
Proof.
  destruct (flag_monotonic nat (scripted no_getrandom) true true) as (_ & Hcall & _).
  destruct (final (ggentropy (scripted no_getrandom) (PLATFORM_LINUX true true) 20 1000 16
                     (boot 0%nat blank))) as [s1|] eqn:E1; [|discriminate].
  destruct (final (ggentropy (scripted no_getrandom) (PLATFORM_LINUX true true) 20 1000 16
                     s1)) as [s2|] eqn:E2.
  2:{ exfalso. vm_compute in E1. injection E1 as <-. vm_compute in E2. discriminate. }
  exists s1, s2. split; [reflexivity|]. split; [exact E2|].
  destruct (Hcall _ _ _ _ _ E1) as (evs1 & Ht1 & Hdown & _).
  destruct (Hcall _ _ _ _ _ E2) as (evs2 & Ht2 & _ & Hstay).
  assert (F1 : getrandom_available s1 = false)
    by (vm_compute in E1; injection E1 as <-; reflexivity).
  destruct (Hdown eq_refl F1) as (pre & p & left & post & Hevs & _).
  destruct (Hstay F1) as (F2 & _ & Hopen).
  destruct Hopen as (r & rest & Hr); [discriminate|].
  split; [|split].
  - exists pre, p, left, post. rewrite Ht1. simpl. exact Hevs.
  - exact F2.
  - exists evs2, r, rest. auto.
Defined.

(** C3.  If, in a call of the Linux body, a getrandom call fails with an
    error other than [EINTR] and [ENOSYS], the call returns false, that
    failed getrandom call is the last primitive the call invokes, and all
    the primitives the call invokes are getrandom calls: neither the
    device nor the control interface is tried.  The flag is left as it
    was. *)
Theorem getrandom_hard_error_returns_false :
  forall (W : Type) (K : kernel W) (g c : bool) (fuel : nat) (buf n : Z)
         (s s' : machine W) (evs : list event) (p left e : Z),
    final (ggentropy K (PLATFORM_LINUX g c) fuel buf n s) = Some s' ->
    trace s' = trace s ++ evs ->
    In (E_getrandom p left (Err e)) evs ->
    e <> EINTR -> e <> ENOSYS ->
    ggentropy K (PLATFORM_LINUX g c) fuel buf n s = Return false s' /\
    (exists pre, evs = pre ++ [E_getrandom p left (Err e)]) /\
    Forall (in_step StepA) evs /\
    getrandom_available s' = getrandom_available s.
Proof.
  intros W K g c fuel buf n s s' evs p left e H Ht Hin Hne1 Hne2.
  exact (getrandom_error_ends_call K g c fuel buf n s s' evs p left e H Ht Hin Hne1 Hne2).
Qed.

Lemma getrandom_hard_error_returns_false_witness :
  exists s' : machine nat,
    ggentropy (scripted getrandom_denied) (PLATFORM_LINUX true true) 20 1000 16
      (boot 0%nat blank) = Return false s' /\
    trace s' = [E_getrandom 1000 16 (Err EPERM)].
Proof.
  destruct (final (ggentropy (scripted getrandom_denied) (PLATFORM_LINUX true true)
                     20 1000 16 (boot 0%nat blank))) as [s'|] eqn:E; [|discriminate].
  exists s'.
  assert (Ht : trace s' = trace (boot 0%nat blank) ++ [E_getrandom 1000 16 (Err EPERM)])
    by (vm_compute in E; injection E as <-; reflexivity).
  split; [|exact Ht].
  apply (getrandom_hard_error_returns_false nat (scripted getrandom_denied) true true
           20 1000 16 (boot 0%nat blank) s' [E_getrandom 1000 16 (Err EPERM)]
           1000 16 EPERM E Ht).
  - left. reflexivity.
  - discriminate.
  - discriminate.
Defined.

(** ** The dispatch of the Linux body from Step B on *)

Section Dispatch.

Context {W : Type} (K : kernel W).

(** Once Step B is entered the call is the rest of the body run from
    the state of entry. *)
Lemma ggentropy_from_step_B g c fuel buf n (s sB : machine W) :
  n <= 256 ->
  enters_step_B K g fuel buf n s sB ->
  ggentropy K (PLATFORM_LINUX g c) fuel buf n s =
  linux_after_getrandom K c fuel buf n sB.
Proof.
  intros Hn Hent. simpl. unfold ggentropy_linux, assert_n.
  replace (n <=? 256) with true by (symmetry; apply Z.leb_le; exact Hn). simpl.
  destruct Hent as [(-> & ->)|(-> & sA & -> & He & ->)]; [reflexivity|].
  simpl. rewrite He. reflexivity.
Qed.

(** What the body does with the results of Steps B and C. *)
Lemma later_steps_end_call g c fuel buf n (s sB : machine W) :
  n <= 256 ->
  enters_step_B K g fuel buf n s sB ->
  (forall r s2,
     getentropy_urandom K fuel buf n sB = Return r s2 -> r <> -1 ->
     ggentropy K (PLATFORM_LINUX g c) fuel buf n s = Return true s2) /\
  (forall s2 r s3,
     getentropy_urandom K fuel buf n sB = Return (-1) s2 -> c = true ->
     getentropy_sysctl K fuel buf n s2 = Return r s3 -> r <> -1 ->
     ggentropy K (PLATFORM_LINUX g c) fuel buf n s = Return true s3) /\
  (forall s2 s3,
     getentropy_urandom K fuel buf n sB = Return (-1) s2 -> c = true ->
     getentropy_sysctl K fuel buf n s2 = Return (-1) s3 ->
     ggentropy K (PLATFORM_LINUX g c) fuel buf n s = Return false s3) /\
  (forall s2,
     getentropy_urandom K fuel buf n sB = Return (-1) s2 -> c = false ->
     ggentropy K (PLATFORM_LINUX g c) fuel buf n s = Return false s2).
Proof.
  intros Hn Hent. rewrite (ggentropy_from_step_B g c fuel buf n s sB Hn Hent).
  unfold linux_after_getrandom.
  assert (Hneq : forall r, r <> -1 -> negb (r =? -1) = true)
    by (intros r Hr; apply negb_true_iff, Z.eqb_neq; exact Hr).
  split; [|split; [|split]].
  - intros r s2 -> Hr. simpl. now rewrite (Hneq r Hr).
  - intros s2 r s3 -> -> HC Hr. simpl. rewrite HC. simpl. now rewrite (Hneq r Hr).
  - intros s2 s3 -> -> HC. simpl. rewrite HC. reflexivity.
  - intros s2 -> ->. reflexivity.
Qed.

(** The log of a call is Step A's, then Step B's, then Step C's; Step B
    or C is only invoked when Step A was skipped or ended on [ENOSYS],
    and Step C only when Step B, entered in the state in which this
    call enters it, returned -1 there. *)
Lemma log_in_order_of_call g c fuel buf n (s s' : machine W) :
  final (ggentropy K (PLATFORM_LINUX g c) fuel buf n s) = Some s' ->
  exists evA evB evC,
    trace s' = trace s ++ evA ++ evB ++ evC /\
    Forall (in_step StepA) evA /\ Forall (in_step StepB) evB /\
    Forall (in_step StepC) evC /\
    (evB ++ evC <> [] ->
     (g && getrandom_available s = false /\ evA = []) \/
     (exists pre p left, evA = pre ++ [E_getrandom p left (Err ENOSYS)])) /\
    (evC <> [] ->
     exists sB s1,
       enters_step_B K g fuel buf n s sB /\
       getentropy_urandom K fuel buf n sB = Return (-1) s1 /\
       trace s1 = trace s ++ evA ++ evB).
Proof.
  simpl. unfold ggentropy_linux, assert_n.
  destruct (n <=? 256); simpl; [|discriminate].
  assert (Hnone : forall evA, Forall getrandom_goes_on evA \/
                    (exists pre p left e, evA = pre ++ [E_getrandom p left (Err e)] /\
                                          Forall getrandom_goes_on pre) ->
                    Forall (in_step StepA) evA).
  { intros evA [H|(pre & p & left & e & -> & H)].
    - eapply Forall_impl; [exact goes_on_in_step | exact H].
    - apply Forall_app. split; [|repeat constructor].
      eapply Forall_impl; [exact goes_on_in_step | exact H]. }
  destruct (g && getrandom_available s) eqn:Eg.
  - pose proof (getrandom_loop_log K fuel (errno s) buf (int_of n) s) as LA.
    destruct (getentropy_getrandom K fuel buf n s) as [r s1| s1|] eqn:EA;
      unfold getentropy_getrandom in EA; rewrite EA in LA; simpl.
    + destruct LA as [(-> & He & evA & [Ht Hf] & HallA)
                     |(-> & pre & p & left & [Ht Hf] & HallA & Hne)]; simpl.
      * intros [= <-]. exists evA, [], []. rewrite !app_nil_r.
        split; [exact Ht|]. split; [apply Hnone; auto|].
        split; [constructor|]. split; [constructor|].
        split; intros H; exfalso; apply H; reflexivity.
      * destruct (errno s1 =? ENOSYS) eqn:Ee.
        -- apply Z.eqb_eq in Ee. rewrite Ee in Ht. intros H.
           destruct (linux_after_getrandom_log K c fuel buf n _ _ H)
             as (evB & evC & [Ht2 Hf2] & HallB & HallC & _ & HBfail).
           exists (pre ++ [E_getrandom p left (Err ENOSYS)]), evB, evC.
           split; [simpl in Ht2; rewrite Ht2, Ht; now rewrite <- !app_assoc|].
           split; [apply Hnone; right; eauto 6|].
           split; [exact HallB|]. split; [exact HallC|].
           split; [intros _; right; eauto|].
           intros HC. destruct (HBfail HC) as (s2 & HB & [Ht3 _]).
           exists (set_available false s1), s2.
           split; [right; split; [exact Eg|]; exists s1;
                   split; [exact EA | split; [exact Ee | reflexivity]]|].
           split; [exact HB|].
           rewrite Ht3. simpl. rewrite Ht. now rewrite <- !app_assoc.
        -- intros [= <-].
           exists (pre ++ [E_getrandom p left (Err (errno s1))]), [], [].
           rewrite !app_nil_r.
           split; [exact Ht|]. split; [apply Hnone; right; eauto 6|].
           split; [constructor|]. split; [constructor|].
           split; intros H; exfalso; apply H; reflexivity.
    + destruct LA as (evA & [Ht Hf] & HallA). intros [= <-].
      exists evA, [], []. rewrite !app_nil_r.
      split; [exact Ht|]. split; [apply Hnone; auto|].
      split; [constructor|]. split; [constructor|].
      split; intros H; exfalso; apply H; reflexivity.
    + contradiction.
  - intros H.
    destruct (linux_after_getrandom_log K c fuel buf n _ _ H)
      as (evB & evC & [Ht Hf] & HallB & HallC & _ & HBfail).
    exists [], evB, evC. simpl.
    split; [exact Ht|]. split; [constructor|].
    split; [exact HallB|]. split; [exact HallC|].
    split; [intros _; left; auto|].
    intros HC. destruct (HBfail HC) as (s2 & HB & [Ht3 _]).
    exists s, s2. split; [left; auto|]. split; [exact HB | exact Ht3].
Qed.

End Dispatch.

(** C4.  In a call of the Linux body the primitives invoked are those of
    Step A, then those of Step B, then those of Step C, in this order.
    A primitive of Step B or C is invoked only if Step A was skipped or
    ended on [ENOSYS], and a primitive of Step C only if Step B, run
    from the state in which this call enters it, returned -1.  As soon
    as a strategy succeeds the call returns true in the state that
    strategy left, so that nothing of a later strategy is invoked: so
    for Step A; so for Step B, entered because Step A was skipped or
    failed with [ENOSYS]; so for Step C, entered because Step B
    returned -1.  When the last strategy compiled in fails (Step C, or
    Step B without Step C) the call returns false in the state that
    strategy left. *)
Theorem strategies_in_order :
  forall (W : Type) (K : kernel W) (g c : bool) (fuel : nat) (buf n : Z)
         (s : machine W),
    n <= 256 ->
    (forall s', final (ggentropy K (PLATFORM_LINUX g c) fuel buf n s) = Some s' ->
       exists evA evB evC,
         trace s' = trace s ++ evA ++ evB ++ evC /\
         Forall (in_step StepA) evA /\ Forall (in_step StepB) evB /\
         Forall (in_step StepC) evC /\
         (evB ++ evC <> [] ->
          (g && getrandom_available s = false /\ evA = []) \/
          (exists pre p left, evA = pre ++ [E_getrandom p left (Err ENOSYS)])) /\
         (evC <> [] ->
          exists sB s1,
            enters_step_B K g fuel buf n s sB /\
            getentropy_urandom K fuel buf n sB = Return (-1) s1 /\
            trace s1 = trace s ++ evA ++ evB)) /\
    (g && getrandom_available s = true ->
     forall r s1, getentropy_getrandom K fuel buf n s = Return r s1 -> r <> -1 ->
       ggentropy K (PLATFORM_LINUX g c) fuel buf n s = Return true s1) /\
    (g && getrandom_available s = false ->
     forall r s2, getentropy_urandom K fuel buf n s = Return r s2 -> r <> -1 ->
       ggentropy K (PLATFORM_LINUX g c) fuel buf n s = Return true s2) /\
    (g && getrandom_available s = true ->
     forall s1 r s2, getentropy_getrandom K fuel buf n s = Return (-1) s1 ->
       errno s1 = ENOSYS ->
       getentropy_urandom K fuel buf n (set_available false s1) = Return r s2 ->
       r <> -1 ->
       ggentropy K (PLATFORM_LINUX g c) fuel buf n s = Return true s2) /\
    (forall sB, enters_step_B K g fuel buf n s sB ->
       (forall s2 r s3,
          getentropy_urandom K fuel buf n sB = Return (-1) s2 -> c = true ->
          getentropy_sysctl K fuel buf n s2 = Return r s3 -> r <> -1 ->
          ggentropy K (PLATFORM_LINUX g c) fuel buf n s = Return true s3) /\
       (forall s2 s3,
          getentropy_urandom K fuel buf n sB = Return (-1) s2 -> c = true ->
          getentropy_sysctl K fuel buf n s2 = Return (-1) s3 ->
          ggentropy K (PLATFORM_LINUX g c) fuel buf n s = Return false s3) /\
       (forall s2,
          getentropy_urandom K fuel buf n sB = Return (-1) s2 -> c = false ->
          ggentropy K (PLATFORM_LINUX g c) fuel buf n s = Return false s2)).
Proof.
  intros W K g c fuel buf n s Hn. split.
  - intros s' H. exact (log_in_order_of_call K g c fuel buf n s s' H).
  - destruct (success_ends_call K g c fuel buf n s Hn) as (HA & HB1 & HB2).
    split; [exact HA|]. split; [exact HB1|]. split; [exact HB2|].
    intros sB Hent.
    destruct (later_steps_end_call K g c fuel buf n s sB Hn Hent) as (_ & H1 & H2 & H3).
    split; [exact H1|]. split; [exact H2 | exact H3].
Qed.

(** The whole chain.  On a kernel without getrandom, in a chroot without
    /dev/urandom, Step A fails with [ENOSYS], Step B fails on the open
    and Step C serves the 20 bytes in two calls: the call returns true,
    and its log is one getrandom call, one open, two control-interface
    calls. *)
Lemma strategies_in_order_witness :
  exists s3 : machine nat,
    ggentropy (scripted chroot_old_kernel) (PLATFORM_LINUX true true) 24 1000 20
      (boot 0%nat blank) = Return true s3 /\
    trace s3 = [E_getrandom 1000 20 (Err ENOSYS); E_open (Err ENOENT);
                E_sysctl 1000 16 (Ok (bytes x2c 16));
                E_sysctl 1016 4 (Ok (bytes x2c 4))].
Proof.
  assert (Hn : 20 <= 256) by lia.
  destruct (strategies_in_order nat (scripted chroot_old_kernel) true true 24 1000 20
              (boot 0%nat blank) Hn) as (_ & _ & _ & _ & HC).
  destruct (getentropy_getrandom (scripted chroot_old_kernel) 24 1000 20
              (boot 0%nat blank)) as [rA sA| |] eqn:EA; try discriminate.
  assert (HrA : rA = -1) by (vm_compute in EA; injection EA as <- _; reflexivity).
  assert (HeA : errno sA = ENOSYS) by (vm_compute in EA; injection EA as _ <-; reflexivity).
  subst rA.
  destruct (getentropy_urandom (scripted chroot_old_kernel) 24 1000 20
              (set_available false sA)) as [rB s2| |] eqn:EB.
  2,3: exfalso; vm_compute in EA; injection EA as <-; vm_compute in EB; discriminate.
  assert (HrB : rB = -1)
    by (vm_compute in EA; injection EA as <-; vm_compute in EB;
        injection EB as <- _; reflexivity).
  subst rB.
  destruct (getentropy_sysctl (scripted chroot_old_kernel) 24 1000 20 s2)
    as [rC s3| |] eqn:EC.
  2,3: exfalso; vm_compute in EA; injection EA as <-; vm_compute in EB;
       injection EB as <-; vm_compute in EC; discriminate.
  assert (HC3 : rC <> -1 /\
                trace s3 = [E_getrandom 1000 20 (Err ENOSYS); E_open (Err ENOENT);
                            E_sysctl 1000 16 (Ok (bytes x2c 16));
                            E_sysctl 1016 4 (Ok (bytes x2c 4))]).
  { vm_compute in EA; injection EA as <-; vm_compute in EB; injection EB as <-.
    vm_compute in EC. injection EC as <- <-. split; [discriminate | reflexivity]. }
  destruct HC3 as [HrC Ht].
  exists s3. split; [|exact Ht].
  assert (Hent : enters_step_B (scripted chroot_old_kernel) true 24 1000 20
                   (boot 0%nat blank) (set_available false sA)).
  { right. split; [reflexivity|]. exists sA. auto. }
  destruct (HC (set_available false sA) Hent) as (Hok & _ & _).
  exact (Hok s2 rC s3 EB eq_refl EC HrC).
Defined.

(** ** Step B refuses a node that does not look like the device *)

Section Rejection.

Context {W : Type} (K : kernel W).

Lemma rejects_tail fd r evs : rejects fd (E_open r :: evs) -> rejects fd evs.
Proof.
  intros [(e & [H|H])|[(m & [H|H] & Hm)|(e & [H|H])]]; try discriminate.
  - left. eauto.
  - right; left. eauto.
  - right; right. eauto.
Qed.

Lemma read_or_close_no_reject fd evs : Forall read_or_close evs -> ~ rejects fd evs.
Proof.
  intros Hall Hr. rewrite Forall_forall in Hall.
  destruct Hr as [(e & H)|[(m & H & _)|(e & H)]]; exact (Hall _ H).
Qed.

Lemma verify_and_read_rejects fuel save fd buf len (s s' : machine W) :
  final (verify_and_read K fuel save fd buf len s) = Some s' ->
  exists evs,
    trace s' = trace s ++ evs /\
    forall fd', rejects fd' evs ->
      verify_and_read K fuel save fd buf len s = Return (-1) s' /\
      errno s' = EIO /\
      (exists pre, evs = pre ++ [E_close fd']) /\
      (forall ev, In ev evs -> ~ is_read ev) /\
      (forall a, mem s' a = mem s a).
Proof.
  destruct (verify_and_read_cases K fuel save fd buf len s)
    as [(w & e & _ & ->)|[(w & m & _ & Hm & ->)|[(w & m & w' & e & _ & Hm & _ & ->)
       |(w & m & w' & c & _ & Hm & _ & ->)]]].
  - intros [= <-]. exists [E_fstat fd (Err e); E_close fd].
    split; [unfold close, called; simpl; now rewrite <- app_assoc|].
    intros fd' [(e' & [H|[H|[]]])|[(m' & [H|[H|[]]] & _)|(e' & [H|[H|[]]])]];
      try discriminate.
    injection H as <- _.
    repeat split; try reflexivity.
    + exists [E_fstat fd (Err e)]. reflexivity.
    + intros ev [<-|[<-|[]]]; simpl; auto.
  - intros [= <-]. exists [E_fstat fd (Ok m); E_close fd].
    split; [unfold close, called; simpl; now rewrite <- app_assoc|].
    intros fd' [(e' & [H|[H|[]]])|[(m' & [H|[H|[]]] & _)|(e' & [H|[H|[]]])]];
      try discriminate.
    injection H as <- _.
    repeat split; try reflexivity.
    + exists [E_fstat fd (Ok m)]. reflexivity.
    + intros ev [<-|[<-|[]]]; simpl; auto.
  - intros [= <-]. exists [E_fstat fd (Ok m); E_ioctl fd (Err e); E_close fd].
    split; [unfold close, called; simpl; now rewrite <- !app_assoc|].
    intros fd' [(e' & [H|[H|[H|[]]]])|[(m' & [H|[H|[H|[]]]] & Hm')|(e' & [H|[H|[H|[]]]])]];
      try discriminate.
    + injection H as <- <-. congruence.
    + injection H as <- _.
      repeat split; try reflexivity.
      * exists [E_fstat fd (Ok m); E_ioctl fd (Err e)]. reflexivity.
      * intros ev [<-|[<-|[<-|[]]]]; simpl; auto.
  - intros Hs'.
    destruct (read_loop_logged K fuel save fd buf len 0 _ s' Hs') as (evs & [Ht _] & Hall).
    exists (E_fstat fd (Ok m) :: E_ioctl fd (Ok c) :: evs).
    split; [rewrite Ht; simpl; now rewrite <- !app_assoc|].
    intros fd' Hrej. exfalso.
    destruct Hrej as [(e' & [H|[H|H]])|[(m' & [H|[H|H]] & Hm')|(e' & [H|[H|H]])]];
      try discriminate.
    + apply (read_or_close_no_reject fd' evs Hall). left. eauto.
    + injection H as <- <-. congruence.
    + apply (read_or_close_no_reject fd' evs Hall). right; left. eauto.
    + apply (read_or_close_no_reject fd' evs Hall). right; right. eauto.
Qed.

Lemma urandom_start_rejects fuel save buf len (s : machine W) :
  forall s', final (urandom_start K fuel save buf len s) = Some s' ->
  exists evs,
    trace s' = trace s ++ evs /\
    forall fd, rejects fd evs ->
      urandom_start K fuel save buf len s = Return (-1) s' /\
      errno s' = EIO /\
      (exists pre, evs = pre ++ [E_close fd]) /\
      (forall ev, In ev evs -> ~ is_read ev) /\
      (forall a, mem s' a = mem s a).
Proof.
  revert s. induction fuel as [|fuel IH]; intros s s'; simpl.
  - intros [= <-]. exists []. split; [now rewrite app_nil_r|].
    intros fd [(e & [])|[(m & [] & _)|(e & [])]].
  - destruct (sys_open K (world s)) as [w [e|fd0]] eqn:Ek.
    + destruct (e =? EINTR).
      * intros Hs'.
        destruct (IH _ s' Hs') as (evs & Ht & Hrej).
        exists (E_open (Err e) :: evs).
        split; [rewrite Ht; simpl; now rewrite <- app_assoc|].
        intros fd Hr.
        destruct (Hrej fd (rejects_tail _ _ _ Hr)) as (Ho & He & (pre & Hpre) & Hnr & Hm).
        repeat split; try assumption.
        -- exists (E_open (Err e) :: pre). rewrite Hpre. reflexivity.
        -- intros ev [<-|Hin]; [simpl; auto | apply Hnr; exact Hin].
      * intros [= <-]. exists [E_open (Err e)]. split; [reflexivity|].
        intros fd [(e' & [H|[]])|[(m & [H|[]] & _)|(e' & [H|[]])]]; discriminate.
    + intros Hs'.
      destruct (verify_and_read_rejects fuel save fd0 buf len _ s' Hs') as (evs & Ht & Hrej).
      exists (E_open (Ok fd0) :: evs).
      split; [rewrite Ht; simpl; now rewrite <- app_assoc|].
      intros fd Hr.
      destruct (Hrej fd (rejects_tail _ _ _ Hr)) as (Ho & He & (pre & Hpre) & Hnr & Hm).
      repeat split; try assumption.
      * exists (E_open (Ok fd0) :: pre). rewrite Hpre. reflexivity.
      * intros ev [<-|Hin]; [simpl; auto | apply Hnr; exact Hin].
Qed.

End Rejection.

(** C5.  In Step B, if the log shows that the node opened is not a
    character special device, or that the entropy-count query
    ([ioctl RNDGETENTCNT]) on it failed (or that [fstat] itself failed),
    the strategy returns -1 with [errno] set to [EIO], which is what it
    returns after a failed open (the label [nodevrandom]); closing the descriptor is the
    last thing it did, it issued no [read], and the memory is as it
    was.  The Linux body then goes on with Step C when it is compiled
    in, and returns false otherwise. *)
Theorem device_rejected_falls_through :
  forall (W : Type) (K : kernel W) (c : bool) (fuel : nat) (buf len fd : Z)
         (s s' : machine W) (evs : list event),
    final (getentropy_urandom K fuel buf len s) = Some s' ->
    trace s' = trace s ++ evs ->
    rejects fd evs ->
    getentropy_urandom K fuel buf len s = Return (-1) s' /\
    errno s' = EIO /\
    (exists pre, evs = pre ++ [E_close fd]) /\
    (forall ev, In ev evs -> ~ is_read ev) /\
    (forall a, mem s' a = mem s a) /\
    linux_after_getrandom K c fuel buf len s =
      (if c then
         '(ret, s2) <- getentropy_sysctl K fuel buf len s' ;;
         if negb (ret =? -1) then Return true s2 else Return false s2
       else Return false s').
Proof.
  intros W K c fuel buf len fd s s' evs Hs' Ht Hrej.
  unfold getentropy_urandom in *.
  destruct (urandom_start_rejects K fuel (errno s) buf len s s' Hs') as (evs' & Ht' & H).
  assert (evs' = evs) as -> by (rewrite Ht in Ht'; now apply app_inv_head in Ht').
  destruct (H fd Hrej) as (Ho & He & Hpre & Hnr & Hm).
  repeat split; try assumption.
  unfold linux_after_getrandom, getentropy_urandom. rewrite Ho. simpl.
  destruct c; reflexivity.
Qed.

Lemma device_rejected_falls_through_witness :
  exists s' : machine nat,
    getentropy_urandom (scripted urandom_is_a_file) 20 1000 16 (boot 0%nat blank)
      = Return (-1) s' /\
    trace s' = [E_open (Ok 3); E_fstat 3 (Ok (Z.lor S_IFREG 420)); E_close 3].
Proof.
  destruct (final (getentropy_urandom (scripted urandom_is_a_file) 20 1000 16
                     (boot 0%nat blank))) as [s'|] eqn:E; [|discriminate].
  exists s'.
  assert (Ht : trace s' = trace (boot 0%nat blank) ++
                 [E_open (Ok 3); E_fstat 3 (Ok (Z.lor S_IFREG 420)); E_close 3])
    by (vm_compute in E; injection E as <-; reflexivity).
  split; [|exact Ht].
  apply (device_rejected_falls_through nat (scripted urandom_is_a_file) true 20 1000 16 3
           (boot 0%nat blank) s' _ E Ht).
  right; left. exists (Z.lor S_IFREG 420). split; [simpl; auto | reflexivity].
Defined.

(** ** Requests for no bytes *)

Section ZeroLength.

Context {W : Type} (K : kernel W).

Lemma set_errno_same (s : machine W) : set_errno (errno s) s = s.
Proof. destruct s; reflexivity. Qed.

Lemma getentropy_getrandom_zero fuel buf (s : machine W) :
  getentropy_getrandom K fuel buf 0 s = Return 0 s.
Proof.
  unfold getentropy_getrandom. destruct fuel; simpl; now rewrite set_errno_same.
Qed.

Lemma getentropy_sysctl_zero fuel buf (s : machine W) :
  getentropy_sysctl K fuel buf 0 s = Return 0 s.
Proof.
  unfold getentropy_sysctl. destruct fuel; simpl; now rewrite set_errno_same.
Qed.

Lemma read_loop_zero fuel save fd buf (s : machine W) :
  read_loop K fuel save fd buf 0 0 s = Return 0 (set_errno save (close K fd s)).
Proof. destruct fuel; reflexivity. Qed.

Lemma verified_tail r evs : verified (E_open r :: evs) -> verified evs.
Proof. intros (fd & cnt & [H|H]); [discriminate | exists fd, cnt; exact H]. Qed.

(** Step B asked for no bytes: it opens and checks the device all the
    same. *)
Lemma urandom_start_zero fuel save buf (s : machine W) :
  match urandom_start K fuel save buf 0 s with
  | Timeout s' =>
      trace s' = trace s ++ repeat (E_open (Err EINTR)) fuel /\
      getrandom_available s' = getrandom_available s /\
      (forall a, mem s' a = mem s a)
  | Return r s' =>
      exists evs,
        trace s' = trace s ++ evs /\
        getrandom_available s' = getrandom_available s /\
        (forall a, mem s' a = mem s a) /\
        ((r = 0 /\ verified evs) \/ (r = -1 /\ ~ verified evs))
  | Abort => False
  end.
Proof.
  revert s. induction fuel as [|fuel IH]; intros s; simpl.
  - rewrite app_nil_r. auto.
  - destruct (sys_open K (world s)) as [w [e|fd]] eqn:Ek.
    + destruct (e =? EINTR) eqn:Ee.
      * apply Z.eqb_eq in Ee. subst e.
        specialize (IH (set_errno EINTR (called w (E_open (Err EINTR)) s))).
        destruct (urandom_start K fuel save buf 0 _) as [r s'| s'|]; [| |exact IH].
        -- destruct IH as (evs & Ht & Hf & Hm & Hc).
           exists (E_open (Err EINTR) :: evs).
           split; [rewrite Ht; simpl; now rewrite <- app_assoc|].
           split; [exact Hf|]. split; [exact Hm|].
           destruct Hc as [[-> Hv]|[-> Hv]].
           ++ left. split; [reflexivity|].
              destruct Hv as (fd & cnt & Hin). exists fd, cnt. right. exact Hin.
           ++ right. split; [reflexivity|].
              intros Hv'. apply Hv. eapply verified_tail; eauto.
        -- destruct IH as (Ht & Hf & Hm).
           split; [rewrite Ht; simpl; now rewrite <- app_assoc|]. auto.
      * simpl. exists [E_open (Err e)].
        repeat split. right. split; [reflexivity|].
        intros (fd & cnt & [H|[]]). discriminate.
    + destruct (verify_and_read_cases K fuel save fd buf 0 (called w (E_open (Ok fd)) s))
        as [(w1 & e & _ & ->)|[(w1 & m & _ & Hm & ->)|[(w1 & m & w' & e & _ & Hm & _ & ->)
           |(w1 & m & w' & c & _ & Hm & _ & ->)]]].
      * simpl. exists [E_open (Ok fd); E_fstat fd (Err e); E_close fd].
        split; [now rewrite <- !app_assoc|].
        repeat split. right. split; [reflexivity|].
        intros (fd' & cnt & [H|[H|[H|[]]]]); discriminate.
      * simpl. exists [E_open (Ok fd); E_fstat fd (Ok m); E_close fd].
        split; [now rewrite <- !app_assoc|].
        repeat split. right. split; [reflexivity|].
        intros (fd' & cnt & [H|[H|[H|[]]]]); discriminate.
      * simpl. exists [E_open (Ok fd); E_fstat fd (Ok m); E_ioctl fd (Err e); E_close fd].
        split; [now rewrite <- !app_assoc|].
        repeat split. right. split; [reflexivity|].
        intros (fd' & cnt & [H|[H|[H|[H|[]]]]]); discriminate.
      * rewrite read_loop_zero. simpl.
        exists [E_open (Ok fd); E_fstat fd (Ok m); E_ioctl fd (Ok c); E_close fd].
        split; [now rewrite <- !app_assoc|].
        repeat split. left. split; [reflexivity|].
        exists fd, c. simpl. auto.
Qed.

(** The Linux body asked for no bytes, with Step A skipped. *)
Lemma linux_after_getrandom_zero c fuel buf (s : machine W) :
  match linux_after_getrandom K c fuel buf 0 s with
  | Timeout s' =>
      trace s' = trace s ++ repeat (E_open (Err EINTR)) fuel /\
      (forall a, mem s' a = mem s a)
  | Return b s' =>
      exists evs,
        trace s' = trace s ++ evs /\
        (forall a, mem s' a = mem s a) /\
        ((b = true /\ (c = true \/ verified evs)) \/
         (b = false /\ c = false /\ ~ verified evs))
  | Abort => False
  end.
Proof.
  unfold linux_after_getrandom, getentropy_urandom.
  pose proof (urandom_start_zero fuel (errno s) buf s) as H.
  destruct (urandom_start K fuel (errno s) buf 0 s) as [r s'| s'|]; simpl.
  - destruct H as (evs & Ht & Hf & Hm & [[-> Hv]|[-> Hv]]); simpl.
    + exists evs. auto 10.
    + destruct c.
      * rewrite getentropy_sysctl_zero. simpl. exists evs. auto 10.
      * exists evs. auto 10.
  - destruct H as (Ht & _ & Hm). auto.
  - exact H.
Qed.

End ZeroLength.

(** C8 as the code has it.  A call for no bytes writes nothing, on every
    platform.  On the arc4random platforms it returns true.  On Linux,
    when Step A runs (getrandom compiled in and the flag available) it
    returns true at once, in the state it started from: no primitive is
    invoked.  When Step A is skipped the device is opened and checked
    all the same: unless the open is interrupted for as long as the call
    is run, the call returns true if the device passed the checks or
    Step C is compiled in, and false if the device was not opened or
    was refused and Step C is not compiled in.  On Windows the call
    returns what [BCryptGenRandom] reports. *)
Theorem zero_length_call :
  forall (W : Type) (K : kernel W) (pf : platform) (fuel : nat) (buf : Z)
         (s : machine W),
    kernel_contract K ->
    (forall s', final (ggentropy K pf fuel buf 0 s) = Some s' ->
       forall a, mem s' a = mem s a) /\
    match pf with
    | PLATFORM_HAS_ARC4RANDOM =>
        returned (ggentropy K pf fuel buf 0 s) = Some true
    | PLATFORM_WINDOWS =>
        returned (ggentropy K pf fuel buf 0 s) =
          Some (match snd (BCryptGenRandom K (world s) 0) with
                | Ok _ => true
                | Err _ => false
                end)
    | PLATFORM_LINUX g c =>
        if g && getrandom_available s
        then ggentropy K pf fuel buf 0 s = Return true s
        else
          match ggentropy K pf fuel buf 0 s with
          | Timeout s' => trace s' = trace s ++ repeat (E_open (Err EINTR)) fuel
          | Return b s' =>
              exists evs,
                trace s' = trace s ++ evs /\
                ((b = true /\ (c = true \/ exists fd cnt, In (E_ioctl fd (Ok cnt)) evs)) \/
                 (b = false /\ c = false /\
                  ~ exists fd cnt, In (E_ioctl fd (Ok cnt)) evs))
          | Abort => False
          end
    end.
Proof.
  intros W K pf fuel buf s HK. split.
  - intros s' Hs' a.
    destruct (ggentropy_memory K HK pf fuel buf 0 s) as [Hc _]; [lia|].
    apply (Hc s' Hs'). lia.
  - destruct pf as [|g c|]; simpl.
    + unfold ggentropy_windows. simpl.
      destruct (BCryptGenRandom K (world s) 0) as [w [e|bs]]; reflexivity.
    + unfold ggentropy_linux. simpl.
      destruct (g && getrandom_available s).
      * now rewrite getentropy_getrandom_zero.
      * pose proof (linux_after_getrandom_zero K c fuel buf s) as H.
        destruct (linux_after_getrandom K c fuel buf 0 s) as [b s'| s'|].
        -- destruct H as (evs & Ht & _ & H). exists evs. split; [exact Ht | exact H].
        -- apply H.
        -- exact H.
    + unfold ggentropy_arc4random. simpl.
      destruct (arc4random_buf K (world s) 0) as [w bs]. reflexivity.
Qed.

Lemma chroot_old_kernel_contract : kernel_contract (scripted chroot_old_kernel).
Proof.
  constructor; simpl.
  - intros w len w' bs [=].
  - intros w fd cnt w' bs [= _ <-] H. rewrite length_bytes; lia.
  - intros w chunk w' bs [= _ <-] H. rewrite length_bytes; lia.
  - intros w n w' bs [= _ <-] H. apply length_bytes; lia.
  - intros w n w' bs [= _ <-] H. apply length_bytes; lia.
Qed.

(** With Step C compiled in, the call for no bytes succeeds in the
    chroot although the device cannot be opened. *)
Lemma zero_length_call_witness :
  (forall a, option_map (fun s' => value (mem s' a))
               (final (ggentropy (scripted chroot_old_kernel) (PLATFORM_LINUX false true)
                         20 1000 0 (boot 0%nat blank)))
             = Some (value (blank a))) /\
  returned (ggentropy (scripted chroot_old_kernel) (PLATFORM_LINUX false true)
              20 1000 0 (boot 0%nat blank)) = Some true.
Proof.
  destruct (zero_length_call nat (scripted chroot_old_kernel) (PLATFORM_LINUX false true)
              20 1000 (boot 0%nat blank) chroot_old_kernel_contract) as [Hmem _].
  split; [|reflexivity].
  intros a.
  destruct (final (ggentropy (scripted chroot_old_kernel) (PLATFORM_LINUX false true)
                     20 1000 0 (boot 0%nat blank))) as [s'|] eqn:E; [|discriminate].
  simpl. now rewrite (Hmem s' eq_refl a).
Defined.

(** C8 as stated fails: on a kernel without getrandom, in a chroot
    without /dev/urandom and with Step C not compiled in, once the flag
    is unavailable a call for no bytes returns false. *)
Lemma zero_length_can_fail :
  getrandom_available after_enosys = false /\
  returned (ggentropy (scripted chroot_old_kernel) (PLATFORM_LINUX true false)
              20 1000 0 after_enosys) = Some false.
Proof. split; reflexivity. Qed.

(** ** Interrupted calls are retried *)

Section Interruption.

Context {W : Type} (K : kernel W) (budget : W -> nat).
Context (HK : kernel_contract K) (HP : interrupted_finitely K budget).

Lemma getrandom_loop_completes pre fuel p left (s : machine W) :
  0 <= left < 2 ^ 31 ->
  (Z.to_nat left + budget (world s) < fuel)%nat ->
  exists s', getrandom_loop K fuel pre p left s = Return 0 s'.
Proof.
  revert fuel p left s.
  apply (getrandom_loop_rect K pre
           (fun fuel _ left s o =>
              0 <= left < 2 ^ 31 ->
              (Z.to_nat left + budget (world s) < fuel)%nat ->
              exists s', o = Return 0 s')).
  - intros. eauto.
  - intros. lia.
  - intros fuel p left s w e Hl Hk He _ _.
    destruct (getrandom_patient K budget HP _ _ _ _ Hk Hl) as [He' _]. contradiction.
  - intros fuel p left s w o Hl Hk IH Hb Hf.
    destruct (getrandom_patient K budget HP _ _ _ _ Hk Hl) as [_ Hdec].
    apply IH; [exact Hb | simpl; lia].
  - intros fuel p left s w bs o Hl Hk IH Hb Hf.
    destruct (getrandom_patient K budget HP _ _ _ _ Hk Hl) as [Hpos Hdec].
    pose proof (getrandom_le K HK _ _ _ _ Hk) as Hle. specialize (Hle ltac:(lia)).
    rewrite int_of_small in IH by lia.
    apply IH; [lia | simpl; lia].
Qed.

Lemma read_loop_completes save fd buf len fuel i (s : machine W) :
  0 <= i <= len ->
  (Z.to_nat (len - i) + budget (world s) < fuel)%nat ->
  exists s', read_loop K fuel save fd buf len i s = Return 0 s'.
Proof.
  revert fuel i s.
  apply (read_loop_rect K save fd buf len
           (fun fuel i s o =>
              0 <= i <= len ->
              (Z.to_nat (len - i) + budget (world s) < fuel)%nat ->
              exists s', o = Return 0 s')).
  - intros. eauto.
  - intros. lia.
  - intros fuel i s w e Hl Hk He1 He2 _ _.
    destruct (read_patient K budget HP _ _ _ _ _ Hk ltac:(lia)) as [[He'|He'] _];
      contradiction.
  - intros fuel i s w e o Hl Hk He IH Hb Hf.
    destruct (read_patient K budget HP _ _ _ _ _ Hk ltac:(lia)) as [_ Hdec].
    apply IH; [exact Hb | simpl; lia].
  - intros fuel i s w bs o Hl Hk IH Hb Hf.
    destruct (read_patient K budget HP _ _ _ _ _ Hk ltac:(lia)) as [Hpos Hdec].
    pose proof (read_le K HK _ _ _ _ _ Hk) as Hle. specialize (Hle ltac:(lia)).
    apply IH; [lia | simpl; lia].
Qed.

Lemma verify_and_read_completes save fd buf len fuel (s : machine W) :
  0 <= len ->
  (Z.to_nat len + budget (world s) < fuel)%nat ->
  exists s', verify_and_read K fuel save fd buf len s = Return 0 s'.
Proof.
  intros Hlen Hf.
  destruct (verify_and_read_cases K fuel save fd buf len s)
    as [(w & e & Hk & _)|[(w & m & Hk & Hm & _)|[(w & m & w' & e & _ & _ & Hk & _)
       |(w & m & w' & c & Hk1 & _ & Hk2 & ->)]]].
  - destruct (fstat_patient K budget HP _ _ _ _ Hk) as [(m & Hr & _) _]. discriminate.
  - destruct (fstat_patient K budget HP _ _ _ _ Hk) as [(m' & Hr & Hm') _].
    injection Hr as <-. congruence.
  - destruct (ioctl_patient K budget HP _ _ _ _ Hk) as [(c & Hr) _]. discriminate.
  - destruct (fstat_patient K budget HP _ _ _ _ Hk1) as [_ Hd1].
    destruct (ioctl_patient K budget HP _ _ _ _ Hk2) as [_ Hd2].
    apply read_loop_completes; [lia|].
    rewrite Z.sub_0_r. simpl. lia.
Qed.

Lemma urandom_start_completes save buf len fuel (s : machine W) :
  0 <= len ->
  (Z.to_nat len + budget (world s) + 1 < fuel)%nat ->
  exists s', urandom_start K fuel save buf len s = Return 0 s'.
Proof.
  intros Hlen. revert fuel s.
  apply (urandom_start_rect K save buf len
           (fun fuel s o =>
              (Z.to_nat len + budget (world s) + 1 < fuel)%nat ->
              exists s', o = Return 0 s')).
  - intros. lia.
  - intros fuel s w e Hk He _.
    destruct (open_patient K budget HP _ _ _ Hk) as [He' _]. contradiction.
  - intros fuel s w o Hk IH Hf.
    destruct (open_patient K budget HP _ _ _ Hk) as [_ Hdec].
    apply IH. simpl. lia.
  - intros fuel s w fd Hk Hf.
    pose proof (open_patient K budget HP _ _ _ Hk) as Hdec. simpl in Hdec.
    apply verify_and_read_completes; [exact Hlen | simpl; lia].
Qed.

(** With interruptions in finite number, enough fuel lets the Linux
    body return true. *)
Lemma ggentropy_linux_completes g c fuel buf n (s : machine W) :
  0 <= n <= 256 ->
  (Z.to_nat n + budget (world s) + 1 < fuel)%nat ->
  exists s', ggentropy K (PLATFORM_LINUX g c) fuel buf n s = Return true s'.
Proof.
  intros Hn Hf. simpl. unfold ggentropy_linux, assert_n.
  replace (n <=? 256) with true by (symmetry; apply Z.leb_le; lia). simpl.
  destruct (g && getrandom_available s).
  - unfold getentropy_getrandom. rewrite int_of_small by lia.
    destruct (getrandom_loop_completes (errno s) fuel buf n s) as (s' & ->); [lia | lia |].
    simpl. eauto.
  - unfold linux_after_getrandom, getentropy_urandom.
    destruct (urandom_start_completes (errno s) buf n fuel s) as (s' & ->); [lia | lia |].
    simpl. eauto.
Qed.

End Interruption.

(** An interrupted call is made again with the same arguments. *)
Lemma getrandom_retried {W : Type} (K : kernel W) fuel pre p left (s : machine W) w :
  0 < left ->
  sys_getrandom K (world s) left = (w, Err EINTR) ->
  getrandom_loop K (S fuel) pre p left s =
  getrandom_loop K fuel pre p left
    (set_errno EINTR (called w (E_getrandom p left (Err EINTR)) s)).
Proof.
  intros Hl Hk. simpl.
  replace (0 <? left) with true by (symmetry; apply Z.ltb_lt; exact Hl).
  rewrite Hk. reflexivity.
Qed.

Lemma read_retried {W : Type} (K : kernel W) fuel save fd buf len i (s : machine W) w e :
  i < len ->
  sys_read K (world s) fd (len - i) = (w, Err e) ->
  e = EAGAIN \/ e = EINTR ->
  read_loop K (S fuel) save fd buf len i s =
  read_loop K fuel save fd buf len i
    (set_errno e (called w (E_read fd (buf + i) (len - i) (Err e)) s)).
Proof.
  intros Hl Hk He. simpl.
  replace (i <? len) with true by (symmetry; apply Z.ltb_lt; exact Hl).
  rewrite Hk.
  replace ((e =? EAGAIN) || (e =? EINTR)) with true; [reflexivity|].
  symmetry. apply orb_true_iff. destruct He as [->| ->]; auto.
Qed.

Lemma flaky_contract : kernel_contract (scripted flaky).
Proof.
  constructor; simpl.
  - intros w len w' bs H Hl. destruct (w <? 6)%nat; [discriminate|].
    injection H as _ <-.
    pose proof (min_le_l len 5). pose proof (min_le_r len 5).
    assert (0 <= min len 5) by (unfold min; destruct (len <? 5); lia).
    rewrite length_bytes; lia.
  - intros w fd cnt w' bs H Hl. destruct (w <? 6)%nat; [discriminate|].
    injection H as _ <-.
    pose proof (min_le_l cnt 5).
    assert (0 <= min cnt 5) by (unfold min; destruct (cnt <? 5); lia).
    rewrite length_bytes; lia.
  - intros w chunk w' bs [= _ <-] H. rewrite length_bytes; lia.
  - intros w n w' bs [= _ <-] H. apply length_bytes; lia.
  - intros w n w' bs [= _ <-] H. apply length_bytes; lia.
Qed.

Lemma flaky_interrupted_finitely : interrupted_finitely (scripted flaky) flaky_budget.
Proof.
  constructor; simpl.
  - intros w len w' r H Hl. injection H as <- <-. destruct (w <? 6)%nat eqn:E.
    + apply Nat.ltb_lt in E. split; [reflexivity | unfold flaky_budget; lia].
    + pose proof (min_pos len 5 Hl ltac:(lia)).
      rewrite length_bytes by lia. split; [lia | unfold flaky_budget; lia].
  - intros w w' r H. injection H as <- <-. destruct (w <? 2)%nat eqn:E.
    + apply Nat.ltb_lt in E. split; [reflexivity | unfold flaky_budget; lia].
    + unfold flaky_budget; lia.
  - intros w fd w' r H. injection H as <- <-.
    split; [|unfold flaky_budget; lia]. eexists. split; reflexivity.
  - intros w fd w' r H. injection H as <- <-.
    split; [|unfold flaky_budget; lia]. eexists. reflexivity.
  - intros w fd cnt w' r H Hl. injection H as <- <-. destruct (w <? 6)%nat eqn:E.
    + apply Nat.ltb_lt in E.
      split; [destruct (Nat.even w); auto | unfold flaky_budget; lia].
    + pose proof (min_pos cnt 5 Hl ltac:(lia)).
      rewrite length_bytes by lia. split; [lia | unfold flaky_budget; lia].
Qed.

(** C6.  Interruptions are retried and not surfaced.  A getrandom call
    of Step A that fails with [EINTR], and a read of Step B that fails
    with [EAGAIN] or [EINTR], is made again with the same pointer and
    the same remaining length (nothing advances, nothing is given up).
    On a system that interrupts finitely often, the Linux body, given
    the fuel for the transfers and the interruptions, returns true with
    all [n] bytes of the buffer filled. *)
Theorem interruptions_are_retried :
  forall (W : Type) (K : kernel W),
    (forall fuel pre p left (s : machine W) w,
       0 < left ->
       sys_getrandom K (world s) left = (w, Err EINTR) ->
       getrandom_loop K (S fuel) pre p left s =
       getrandom_loop K fuel pre p left
         (set_errno EINTR (called w (E_getrandom p left (Err EINTR)) s))) /\
    (forall fuel save fd buf len i (s : machine W) w e,
       i < len ->
       sys_read K (world s) fd (len - i) = (w, Err e) ->
       e = EAGAIN \/ e = EINTR ->
       read_loop K (S fuel) save fd buf len i s =
       read_loop K fuel save fd buf len i
         (set_errno e (called w (E_read fd (buf + i) (len - i) (Err e)) s))) /\
    (forall (budget : W -> nat) g c fuel buf n (s : machine W),
       kernel_contract K ->
       interrupted_finitely K budget ->
       0 <= n <= 256 ->
       (Z.to_nat n + budget (world s) + 1 < fuel)%nat ->
       exists s',
         ggentropy K (PLATFORM_LINUX g c) fuel buf n s = Return true s' /\
         forall a, buf <= a < buf + n -> exists f, source (mem s' a) = Facility f).
Proof.
  intros W K. split; [|split].
  - intros. now apply getrandom_retried.
  - intros. now apply read_retried.
  - intros budget g c fuel buf n s HK HP Hn Hf.
    destruct (ggentropy_linux_completes K budget HK HP g c fuel buf n s Hn Hf) as (s' & Hs').
    exists s'. split; [exact Hs'|].
    intros a Ha.
    destruct (ggentropy_memory K HK (PLATFORM_LINUX g c) fuel buf n s Hn) as [_ Hfill].
    destruct (Hfill s' Hs' a Ha) as (f & Hsrc & _). eauto.
Qed.

(** Six signals in a row, then transfers five bytes at a time: the call
    for 16 bytes still returns true, through Step A as well as through
    Step B. *)
Lemma interruptions_are_retried_witness :
  (exists s', ggentropy (scripted flaky) (PLATFORM_LINUX true true) 24 1000 16
                (boot 0%nat blank) = Return true s') /\
  (exists s', ggentropy (scripted flaky) (PLATFORM_LINUX false true) 24 1000 16
                (boot 0%nat blank) = Return true s').
Proof.
  destruct (interruptions_are_retried nat (scripted flaky)) as (_ & _ & H).
  assert (Hn : 0 <= 16 <= 256) by lia.
  assert (Hf : (Z.to_nat 16 + flaky_budget (world (boot 0%nat blank)) + 1 < 24)%nat)
    by (vm_compute; lia).
  split.
  - destruct (H flaky_budget true true 24%nat 1000 16 (boot 0%nat blank)
                flaky_contract flaky_interrupted_finitely Hn Hf) as (s' & Hs' & _).
    exists s'. exact Hs'.
  - destruct (H flaky_budget false true 24%nat 1000 16 (boot 0%nat blank)
                flaky_contract flaky_interrupted_finitely Hn Hf) as (s' & Hs' & _).
    exists s'. exact Hs'.
Defined.

(** ** Termination of the loops *)

Section Termination.

Context {W : Type} (K : kernel W).

Lemma bounded_run_here bound fuel (s s1 : machine W) o evs :
  final o = Some s1 -> trace s1 = trace s ++ evs ->
  Z.of_nat (transfers evs) <= bound ->
  (o = Timeout s1 -> fuel = (transfers evs + retries evs)%nat) ->
  bounded_run bound fuel s o.
Proof.
  intros Ho Ht Hb Hf s' Hs'. rewrite Ho in Hs'. injection Hs' as <-. eauto.
Qed.

Lemma bounded_run_retry bound fuel (s s1 : machine W) o ev :
  trace s1 = trace s ++ [ev] -> is_transfer ev = false -> is_retry ev = true ->
  bounded_run bound fuel s1 o -> bounded_run bound (S fuel) s o.
Proof.
  intros Ht Htr Hre H s' Hs'. destruct (H s' Hs') as (evs & Ht' & Hb & Hf).
  exists (ev :: evs). unfold transfers, retries in *. simpl. rewrite Htr, Hre. simpl.
  split; [rewrite Ht', Ht; now rewrite <- app_assoc|].
  split; [exact Hb|]. intros Ho. rewrite (Hf Ho). lia.
Qed.

Lemma bounded_run_transfer bound k fuel (s s1 : machine W) o ev :
  trace s1 = trace s ++ [ev] -> is_transfer ev = true -> is_retry ev = false ->
  0 < k ->
  bounded_run (bound - k) fuel s1 o -> bounded_run bound (S fuel) s o.
Proof.
  intros Ht Htr Hre Hk H s' Hs'. destruct (H s' Hs') as (evs & Ht' & Hb & Hf).
  exists (ev :: evs). unfold transfers, retries in *. simpl. rewrite Htr, Hre. simpl.
  split; [rewrite Ht', Ht; now rewrite <- app_assoc|].
  split; [lia|]. intros Ho. rewrite (Hf Ho). lia.
Qed.

Section Progress.

Context (HK : kernel_contract K) (HP : makes_progress K).

Lemma getrandom_loop_bounded pre fuel p left (s : machine W) :
  0 <= left < 2 ^ 31 ->
  bounded_run left fuel s (getrandom_loop K fuel pre p left s).
Proof.
  revert fuel p left s.
  apply (getrandom_loop_rect K pre
           (fun fuel _ left s o => 0 <= left < 2 ^ 31 -> bounded_run left fuel s o)).
  - intros fuel p left s Hl Hb.
    eapply (bounded_run_here _ _ _ _ _ []);
      [reflexivity | simpl; now rewrite app_nil_r | simpl; lia | discriminate].
  - intros p left s Hl Hb.
    eapply (bounded_run_here _ _ _ _ _ []);
      [reflexivity | simpl; now rewrite app_nil_r | simpl; lia | reflexivity].
  - intros fuel p left s w e Hl Hk He Hb.
    eapply (bounded_run_here _ _ _ _ _ [E_getrandom p left (Err e)]);
      [reflexivity | reflexivity | simpl; lia | discriminate].
  - intros fuel p left s w o Hl Hk IH Hb.
    eapply bounded_run_retry; [| | |exact (IH Hb)]; reflexivity.
  - intros fuel p left s w bs o Hl Hk IH Hb.
    pose proof (getrandom_le K HK _ _ _ _ Hk) as Hle. specialize (Hle ltac:(lia)).
    pose proof (getrandom_some K HP _ _ _ _ Hk Hl) as Hpos.
    rewrite int_of_small in IH by lia.
    eapply (bounded_run_transfer _ (Z.of_nat (length bs)));
      [| | | exact Hpos | apply IH; lia]; reflexivity.
Qed.

Lemma read_loop_bounded save fd buf len fuel i (s : machine W) :
  0 <= i <= len ->
  bounded_run (len - i) fuel s (read_loop K fuel save fd buf len i s).
Proof.
  revert fuel i s.
  apply (read_loop_rect K save fd buf len
           (fun fuel i s o => 0 <= i <= len -> bounded_run (len - i) fuel s o)).
  - intros fuel i s Hl Hb.
    eapply (bounded_run_here _ _ _ _ _ [E_close fd]);
      [reflexivity | reflexivity | simpl; lia | discriminate].
  - intros i s Hl Hb.
    eapply (bounded_run_here _ _ _ _ _ []);
      [reflexivity | simpl; now rewrite app_nil_r | simpl; lia | reflexivity].
  - intros fuel i s w e Hl Hk He1 He2 Hb.
    eapply (bounded_run_here _ _ _ _ _
              [E_read fd (buf + i) (len - i) (Err e); E_close fd]);
      [reflexivity | unfold close, called; simpl; now rewrite <- app_assoc | simpl; lia | discriminate].
  - intros fuel i s w e o Hl Hk He IH Hb.
    eapply bounded_run_retry; [| | |exact (IH Hb)]; try reflexivity.
    simpl. apply orb_true_iff. destruct He as [->| ->]; auto.
  - intros fuel i s w bs o Hl Hk IH Hb.
    pose proof (read_le K HK _ _ _ _ _ Hk) as Hle. specialize (Hle ltac:(lia)).
    pose proof (read_some K HP _ _ _ _ _ Hk ltac:(lia)) as Hpos.
    specialize (IH ltac:(lia)).
    replace (len - (i + Z.of_nat (length bs))) with (len - i - Z.of_nat (length bs))
      in IH by lia.
    refine (bounded_run_transfer _ (Z.of_nat (length bs)) _ _ _ _ _ _ _ _ Hpos IH);
      reflexivity.
Qed.

Lemma sysctl_loop_bounded save buf len fuel i (s : machine W) :
  0 <= i <= len ->
  forall s', final (sysctl_loop K fuel save buf len i s) = Some s' ->
  exists evs,
    trace s' = trace s ++ evs /\
    Z.of_nat (transfers evs) <= len - i /\
    retries evs = O /\
    (sysctl_loop K fuel save buf len i s = Timeout s' -> fuel = transfers evs).
Proof.
  revert fuel i s.
  apply (sysctl_loop_rect K save buf len
           (fun fuel i s o => 0 <= i <= len ->
              forall s', final o = Some s' ->
              exists evs,
                trace s' = trace s ++ evs /\
                Z.of_nat (transfers evs) <= len - i /\
                retries evs = O /\
                (o = Timeout s' -> fuel = transfers evs))).
  - intros fuel i s Hl Hb s' [= <-]. exists []. simpl. rewrite app_nil_r.
    repeat split; try lia. discriminate.
  - intros i s Hl Hb s' [= <-]. exists []. simpl. rewrite app_nil_r.
    repeat split; try lia.
  - intros fuel i s w e Hl Hk Hb s' [= <-].
    exists [E_sysctl (buf + i) (min (len - i) 16) (Err e)]. simpl.
    repeat split; try lia. discriminate.
  - intros fuel i s w bs o Hl Hk IH Hb s' Hs'.
    pose proof (min_le_l (len - i) 16) as Hmin.
    pose proof (min_pos (len - i) 16 ltac:(lia) ltac:(lia)) as Hmpos.
    pose proof (sysctl_le K HK _ _ _ _ Hk) as Hle. specialize (Hle ltac:(lia)).
    pose proof (sysctl_some K HP _ _ _ _ Hk Hmpos) as Hpos.
    destruct (IH ltac:(lia) s' Hs') as (evs & Ht & Hb' & Hr & Hf).
    exists (E_sysctl (buf + i) (min (len - i) 16) (Ok bs) :: evs).
    unfold transfers, retries in *. simpl.
    split; [rewrite Ht; simpl; now rewrite <- app_assoc|].
    split; [lia|]. split; [exact Hr|].
    intros Ho. now rewrite (Hf Ho).
Qed.

End Progress.

(** A primitive that succeeds without moving a byte is invoked again
    and again, for as long as the loop is run. *)
Lemma getrandom_loop_stalls pre fuel p left (s : machine W) :
  (forall w len, snd (sys_getrandom K w len) = Ok []) ->
  0 < left ->
  exists s', getrandom_loop K fuel pre p left s = Timeout s' /\
             trace s' = trace s ++ repeat (E_getrandom p left (Ok [])) fuel.
Proof.
  intros Hstall Hl. revert s. induction fuel as [|fuel IH]; intros s; simpl;
    replace (0 <? left) with true by (symmetry; apply Z.ltb_lt; exact Hl).
  - exists s. now rewrite app_nil_r.
  - specialize (Hstall (world s) left).
    destruct (sys_getrandom K (world s) left) as [w r]. simpl in Hstall. subst r.
    change (int_of (Z.of_nat (length (@nil byte)))) with 0.
    rewrite Z.add_0_r, Z.sub_0_r.
    destruct (IH (write p F_getrandom [] (called w (E_getrandom p left (Ok [])) s)))
      as (s' & -> & Ht).
    exists s'. split; [reflexivity|]. rewrite Ht. simpl. now rewrite <- app_assoc.
Qed.

Lemma read_loop_stalls save fd buf len fuel i (s : machine W) :
  (forall w fd cnt, snd (sys_read K w fd cnt) = Ok []) ->
  i < len ->
  exists s', read_loop K fuel save fd buf len i s = Timeout s' /\
             trace s' = trace s ++ repeat (E_read fd (buf + i) (len - i) (Ok [])) fuel.
Proof.
  intros Hstall Hl. revert s. induction fuel as [|fuel IH]; intros s; simpl;
    replace (i <? len) with true by (symmetry; apply Z.ltb_lt; exact Hl).
  - exists s. now rewrite app_nil_r.
  - specialize (Hstall (world s) fd (len - i)).
    destruct (sys_read K (world s) fd (len - i)) as [w r]. simpl in Hstall. subst r.
    simpl length. rewrite Z.add_0_r.
    destruct (IH (write (buf + i) F_urandom []
                    (called w (E_read fd (buf + i) (len - i) (Ok [])) s)))
      as (s' & -> & Ht).
    exists s'. split; [reflexivity|]. rewrite Ht. simpl. now rewrite <- app_assoc.
Qed.

Lemma sysctl_loop_stalls save buf len fuel i (s : machine W) :
  (forall w chunk, snd (sys_sysctl K w chunk) = Ok []) ->
  i < len ->
  exists s', sysctl_loop K fuel save buf len i s = Timeout s' /\
             trace s' = trace s ++
                        repeat (E_sysctl (buf + i) (min (len - i) 16) (Ok [])) fuel.
Proof.
  intros Hstall Hl. revert s. induction fuel as [|fuel IH]; intros s; simpl;
    replace (i <? len) with true by (symmetry; apply Z.ltb_lt; exact Hl).
  - exists s. now rewrite app_nil_r.
  - specialize (Hstall (world s) (min (len - i) 16)).
    destruct (sys_sysctl K (world s) (min (len - i) 16)) as [w r].
    simpl in Hstall. subst r.
    simpl length. rewrite Z.add_0_r.
    destruct (IH (write (buf + i) F_sysctl []
                    (called w (E_sysctl (buf + i) (min (len - i) 16) (Ok [])) s)))
      as (s' & -> & Ht).
    exists s'. split; [reflexivity|]. rewrite Ht. simpl. now rewrite <- app_assoc.
Qed.

End Termination.

Lemma healthy_makes_progress : makes_progress (scripted healthy).
Proof.
  constructor; simpl.
  - intros w len w' bs [= _ <-] H. rewrite length_bytes; lia.
  - intros w fd cnt w' bs [= _ <-] H. rewrite length_bytes; lia.
  - intros w chunk w' bs [= _ <-] H. rewrite length_bytes; lia.
Qed.

(** C10.  The three Linux loops end because the primitives make
    progress.  On a system whose successful transfers move at least one
    byte (and no more than asked for), whatever the fuel, a run of the
    getrandom loop, of the read loop or of the control-interface loop for
    [n] bytes makes at most [n] transfers; a run that is still going
    when the fuel is out has spent every unit of it on a transfer or on
    a retry after an interruption, so the loop has ended once [n] units
    have gone into transfers; the control-interface loop, which never
    retries, ends within [n] iterations.  On a system whose primitive
    keeps succeeding with no byte moved, the loop is still running
    whatever fuel it is given, having invoked the primitive once per
    unit of fuel with the same arguments. *)
Theorem loops_terminate_on_progress :
  forall (W : Type) (K : kernel W) (fuel : nat) (buf n : Z) (s : machine W),
    0 <= n <= 256 ->
    (kernel_contract K -> makes_progress K ->
     (forall s' evs,
        final (getentropy_getrandom K fuel buf n s) = Some s' ->
        trace s' = trace s ++ evs ->
        Z.of_nat (transfers evs) <= n /\
        (getentropy_getrandom K fuel buf n s = Timeout s' ->
         fuel = (transfers evs + retries evs)%nat)) /\
     (forall save fd s' evs,
        final (read_loop K fuel save fd buf n 0 s) = Some s' ->
        trace s' = trace s ++ evs ->
        Z.of_nat (transfers evs) <= n /\
        (read_loop K fuel save fd buf n 0 s = Timeout s' ->
         fuel = (transfers evs + retries evs)%nat)) /\
     (forall s' evs,
        final (getentropy_sysctl K fuel buf n s) = Some s' ->
        trace s' = trace s ++ evs ->
        Z.of_nat (transfers evs) <= n /\
        (getentropy_sysctl K fuel buf n s = Timeout s' -> fuel = transfers evs)) /\
     ((Z.to_nat n < fuel)%nat ->
      exists r s', getentropy_sysctl K fuel buf n s = Return r s')) /\
    (0 < n ->
     ((forall w len, snd (sys_getrandom K w len) = Ok []) ->
      exists s',
        getentropy_getrandom K fuel buf n s = Timeout s' /\
        trace s' = trace s ++ repeat (E_getrandom buf n (Ok [])) fuel) /\
     ((forall w fd cnt, snd (sys_read K w fd cnt) = Ok []) ->
      forall save fd,
      exists s',
        read_loop K fuel save fd buf n 0 s = Timeout s' /\
        trace s' = trace s ++ repeat (E_read fd buf n (Ok [])) fuel) /\
     ((forall w chunk, snd (sys_sysctl K w chunk) = Ok []) ->
      exists s',
        getentropy_sysctl K fuel buf n s = Timeout s' /\
        trace s' = trace s ++ repeat (E_sysctl buf (min n 16) (Ok [])) fuel)).
Proof.
  intros W K fuel buf n s Hn. split.
  - intros HK HP.
    assert (HC : forall s' evs,
              final (getentropy_sysctl K fuel buf n s) = Some s' ->
              trace s' = trace s ++ evs ->
              Z.of_nat (transfers evs) <= n /\
              (getentropy_sysctl K fuel buf n s = Timeout s' -> fuel = transfers evs)).
    { intros s' evs Hs' Ht. unfold getentropy_sysctl in *.
      destruct (sysctl_loop_bounded K HK HP (errno s) buf n fuel 0 s ltac:(lia) s' Hs')
        as (evs' & Ht' & Hb & _ & Hf).
      assert (evs' = evs) as -> by (rewrite Ht in Ht'; now apply app_inv_head in Ht').
      split; [lia | exact Hf]. }
    split; [|split; [|split]].
    + intros s' evs Hs' Ht. unfold getentropy_getrandom in *.
      rewrite int_of_small in * by lia.
      destruct (getrandom_loop_bounded K HK HP (errno s) fuel buf n s ltac:(lia) s' Hs')
        as (evs' & Ht' & Hb & Hf).
      assert (evs' = evs) as -> by (rewrite Ht in Ht'; now apply app_inv_head in Ht').
      split; [exact Hb | exact Hf].
    + intros save fd s' evs Hs' Ht.
      destruct (read_loop_bounded K HK HP save fd buf n fuel 0 s ltac:(lia) s' Hs')
        as (evs' & Ht' & Hb & Hf).
      assert (evs' = evs) as -> by (rewrite Ht in Ht'; now apply app_inv_head in Ht').
      split; [lia | exact Hf].
    + exact HC.
    + intros Hfuel.
      destruct (getentropy_sysctl K fuel buf n s) as [r s'| s'|] eqn:E.
      * eauto.
      * exfalso.
        assert (Hs' : final (getentropy_sysctl K fuel buf n s) = Some s')
          by (rewrite E; reflexivity).
        destruct (sysctl_loop_logged K fuel (errno s) buf n 0 s s' Hs')
          as (evs & [Ht _] & _).
        destruct (HC s' evs eq_refl Ht) as [Hb Hf].
        specialize (Hf eq_refl). lia.
      * exfalso. exact (sysctl_loop_no_abort K _ _ _ _ _ _ E).
  - intros Hpos. split; [|split].
    + intros Hstall. unfold getentropy_getrandom. rewrite int_of_small by lia.
      apply getrandom_loop_stalls; assumption.
    + intros Hstall save fd.
      destruct (read_loop_stalls K save fd buf n fuel 0 s Hstall Hpos) as (s' & Ho & Ht).
      rewrite Z.add_0_r, Z.sub_0_r in Ht. eauto.
    + intros Hstall. unfold getentropy_sysctl.
      destruct (sysctl_loop_stalls K (errno s) buf n fuel 0 s Hstall Hpos) as (s' & Ho & Ht).
      rewrite Z.add_0_r, Z.sub_0_r in Ht. eauto.
Qed.

(** On the healthy system a run for 16 bytes makes at most 16 transfers
    and the control-interface loop returns; on the stalled system the
    getrandom loop is still running after five calls. *)
Lemma loops_terminate_on_progress_witness :
  (exists r s', getentropy_sysctl (scripted healthy) 20 1000 16 (boot 0%nat blank)
                = Return r s') /\
  (exists s', getentropy_getrandom (scripted stalled) 5 1000 16 (boot 0%nat blank)
              = Timeout s' /\
              trace s' = repeat (E_getrandom 1000 16 (Ok [])) 5).
Proof.
  assert (Hn : 0 <= 16 <= 256) by lia.
  split.
  - destruct (loops_terminate_on_progress nat (scripted healthy) 20 1000 16
                (boot 0%nat blank) Hn) as [H _].
    destruct (H healthy_contract healthy_makes_progress) as (_ & _ & _ & Hret).
    apply Hret. vm_compute. lia.
  - destruct (loops_terminate_on_progress nat (scripted stalled) 5 1000 16
                (boot 0%nat blank) Hn) as [_ H].
    destruct H as (HA & _ & _); [lia|].
    destruct (HA (fun _ _ => eq_refl)) as (s' & Ho & Ht).
    exists s'. split; [exact Ho | exact Ht].
Defined.

(** C9.  Every platform body starts with [assert( n <= 256 )]: the call
    fails the assertion exactly when the length is above 256, whatever
    the platform, the fuel, the buffer and the state; so a request for
    257 bytes neither returns true nor is served truncated, and a length
    of at most 256 never fires the assertion. *)
Theorem assert_fires_exactly_above_256 :
  forall (W : Type) (K : kernel W) (pf : platform) (fuel : nat) (buf n : Z)
         (s : machine W),
    aborted (ggentropy K pf fuel buf n s) = (256 <? n) /\
    (aborted (ggentropy K pf fuel buf n s) = true ->
     returned (ggentropy K pf fuel buf n s) = None /\
     final (ggentropy K pf fuel buf n s) = None).
Proof.
  intros. split; [apply ggentropy_abort_eq|].
  destruct (ggentropy K pf fuel buf n s); simpl; intros H; try discriminate; auto.
Qed.

Lemma assert_fires_exactly_above_256_witness :
  aborted (ggentropy (scripted healthy) (PLATFORM_LINUX true true) 10 1000 257
             (boot 0%nat blank)) = true /\
  returned (ggentropy (scripted healthy) (PLATFORM_LINUX true true) 10 1000 257
              (boot 0%nat blank)) = None.
Proof.
  destruct (assert_fires_exactly_above_256 nat (scripted healthy)
              (PLATFORM_LINUX true true) 10 1000 257 (boot 0%nat blank)) as [H1 H2].
  split; [reflexivity|]. apply H2. reflexivity.
Defined.

(** ** Writes of calls that fail or do not finish, and of sequences of calls *)

(** X1.  On a system whose primitives transfer the amounts they report,
    a call for at most 256 bytes writes nothing outside the [n] bytes of
    its buffer whatever becomes of it: also when it returns false, and
    at whatever point it is when the fuel runs out. *)
Theorem no_write_outside_buffer :
  forall (W : Type) (K : kernel W) (pf : platform) (fuel : nat) (buf n : Z)
         (s s' : machine W),
    kernel_contract K ->
    0 <= n <= 256 ->
    final (ggentropy K pf fuel buf n s) = Some s' ->
    forall a, ~ (buf <= a < buf + n) -> mem s' a = mem s a.
Proof.
  intros W K pf fuel buf n s s' HK Hn Hs' a Ha.
  destruct (ggentropy_memory K HK pf fuel buf n s Hn) as [Hconf _].
  exact (Hconf s' Hs' a Ha).
Qed.

(** In the chroot the call for 16 bytes fails, and the bytes next to
    the buffer are as they were. *)
Lemma no_write_outside_buffer_witness :
  exists s' : machine nat,
    ggentropy (scripted chroot_old_kernel) (PLATFORM_LINUX true false) 20 1000 16
      (boot 0%nat blank) = Return false s' /\
    mem s' 1016 = blank 1016.
Proof.
  destruct (ggentropy (scripted chroot_old_kernel) (PLATFORM_LINUX true false) 20 1000 16
              (boot 0%nat blank)) as [[|] s'| |] eqn:E; try discriminate.
  exists s'. split; [reflexivity|].
  assert (Hn : 0 <= 16 <= 256) by lia.
  apply (no_write_outside_buffer nat (scripted chroot_old_kernel)
           (PLATFORM_LINUX true false) 20 1000 16 (boot 0%nat blank) s'
           chroot_old_kernel_contract Hn).
  - rewrite E. reflexivity.
  - lia.
Defined.

(** X2.  Calls compose: over any sequence of calls that return (with
    true or false), each for at most 256 bytes, the log only grows and a
    byte that lies in none of the buffers passed holds what it held
    before the first call. *)
Theorem session_writes_only_its_buffers :
  forall (W : Type) (K : kernel W) (pf : platform) (fuel : nat)
         (reqs : list (Z * Z)) (s s' : machine W),
    kernel_contract K ->
    Forall (fun req => 0 <= snd req) reqs ->
    session K pf fuel reqs s = Some s' ->
    (exists evs, trace s' = trace s ++ evs) /\
    Forall (fun req => snd req <= 256) reqs /\
    forall a,
      (forall buf n, In (buf, n) reqs -> ~ (buf <= a < buf + n)) ->
      mem s' a = mem s a.
Proof.
  intros W K pf fuel reqs s s' HK. revert s.
  induction reqs as [|[buf n] reqs IH]; intros s Hpos; cbn [session].
  - intros [= <-]. split; [exists []; now rewrite app_nil_r|]. split; [constructor|].
    reflexivity.
  - destruct (ggentropy K pf fuel buf n s) as [b s1| |] eqn:E; try discriminate.
    intros Hs'.
    inversion Hpos as [|? ? Hn Hpos']; subst. simpl in Hn.
    assert (Hle : n <= 256).
    { pose proof (ggentropy_abort_eq K pf fuel buf n s) as Ha. rewrite E in Ha.
      simpl in Ha. symmetry in Ha. apply Z.ltb_ge in Ha. exact Ha. }
    destruct (IH s1 Hpos' Hs') as ((evs2 & Ht2) & Hall & Hmem).
    assert (Ht1 : exists evs1, trace s1 = trace s ++ evs1).
    { destruct pf as [|g c|]; simpl in E.
      - unfold ggentropy_windows, assert_n in E.
        replace (n <=? 256) with true in E by (symmetry; apply Z.leb_le; lia).
        simpl in E.
        destruct (BCryptGenRandom K (world s) n) as [w [e|bs]];
          injection E as _ <-; eexists; reflexivity.
      - destruct (ggentropy_linux_log K g c fuel buf n s s1) as (evA & evB & evC & Ht & _).
        + rewrite E. reflexivity.
        + eauto.
      - unfold ggentropy_arc4random, assert_n in E.
        replace (n <=? 256) with true in E by (symmetry; apply Z.leb_le; lia).
        simpl in E.
        destruct (arc4random_buf K (world s) n) as [w bs].
        injection E as _ <-. eexists; reflexivity. }
    destruct Ht1 as (evs1 & Ht1).
    split; [exists (evs1 ++ evs2); rewrite Ht2, Ht1; now rewrite app_assoc|].
    split; [constructor; [exact Hle | exact Hall]|].
    intros a Ha.
    rewrite (Hmem a) by (intros b' n' Hin; apply Ha; right; exact Hin).
    destruct (ggentropy_memory K HK pf fuel buf n s ltac:(lia)) as [Hconf _].
    apply (Hconf s1); [rewrite E; reflexivity|].
    apply Ha. left. reflexivity.
Qed.

(** Two calls on the healthy system, for 16 bytes at 1000 and 8 bytes at
    2000: the byte at 1500 is untouched. *)
Lemma session_writes_only_its_buffers_witness :
  exists s' : machine nat,
    session (scripted healthy) (PLATFORM_LINUX true true) 20 [(1000, 16); (2000, 8)]
      (boot 0%nat blank) = Some s' /\
    mem s' 1500 = blank 1500.
Proof.
  destruct (session (scripted healthy) (PLATFORM_LINUX true true) 20
              [(1000, 16); (2000, 8)] (boot 0%nat blank)) as [s'|] eqn:E;
    [|discriminate].
  exists s'. split; [reflexivity|].
  assert (Hpos : Forall (fun req : Z * Z => 0 <= snd req) [(1000, 16); (2000, 8)])
    by (repeat constructor; simpl; lia).
  destruct (session_writes_only_its_buffers nat (scripted healthy)
              (PLATFORM_LINUX true true) 20 [(1000, 16); (2000, 8)]
              (boot 0%nat blank) s' healthy_contract Hpos E) as (_ & _ & Hmem).
  apply Hmem. intros buf n [[= <- <-]|[[= <- <-]|[]]]; lia.
Defined.

(** ** A call fails only on a failure of the system *)

Section Failure.

Context {W : Type} (K : kernel W).

Lemma fails_hard_step (s s1 : machine W) ev o :
  trace s1 = trace s ++ [ev] -> fails_hard s1 o -> fails_hard s o.
Proof.
  intros Ht H r s' Ho. destruct (H r s' Ho) as [Hr|(Hr & evs & Ht' & Hex)]; [auto|].
  right. split; [exact Hr|]. exists (ev :: evs).
  split; [rewrite Ht', Ht; now rewrite <- app_assoc | now apply Exists_cons_tl].
Qed.

Lemma read_loop_fails_hard fuel save fd buf len i (s : machine W) :
  fails_hard s (read_loop K fuel save fd buf len i s).
Proof.
  revert fuel i s.
  apply (read_loop_rect K save fd buf len (fun _ _ s o => fails_hard s o)).
  - intros fuel i s _ r s' [= <- _]. auto.
  - intros i s _ r s' [=].
  - intros fuel i s w e _ _ He1 He2 r s' [= <- <-]. right. split; [reflexivity|].
    exists [E_read fd (buf + i) (len - i) (Err e); E_close fd].
    split; [unfold close, called; simpl; now rewrite <- app_assoc|].
    apply Exists_cons_hd. simpl. auto.
  - intros fuel i s w e o _ _ _ IH. eapply fails_hard_step; [|exact IH]. reflexivity.
  - intros fuel i s w bs o _ _ IH. eapply fails_hard_step; [|exact IH]. reflexivity.
Qed.

Lemma verify_and_read_fails_hard fuel save fd buf len (s : machine W) :
  fails_hard s (verify_and_read K fuel save fd buf len s).
Proof.
  destruct (verify_and_read_cases K fuel save fd buf len s)
    as [(w & e & _ & ->)|[(w & m & _ & Hm & ->)|[(w & m & w' & e & _ & _ & _ & ->)
       |(w & m & w' & c & _ & _ & _ & ->)]]].
  - intros r s' [= <- <-]. right. split; [reflexivity|].
    exists [E_fstat fd (Err e); E_close fd].
    split; [unfold close, called; simpl; now rewrite <- app_assoc|].
    apply Exists_cons_hd. exact I.
  - intros r s' [= <- <-]. right. split; [reflexivity|].
    exists [E_fstat fd (Ok m); E_close fd].
    split; [unfold close, called; simpl; now rewrite <- app_assoc|].
    apply Exists_cons_hd. exact Hm.
  - intros r s' [= <- <-]. right. split; [reflexivity|].
    exists [E_fstat fd (Ok m); E_ioctl fd (Err e); E_close fd].
    split; [unfold close, called; simpl; now rewrite <- !app_assoc|].
    apply Exists_cons_tl, Exists_cons_hd. exact I.
  - apply (fails_hard_step _ (called w (E_fstat fd (Ok m)) s) (E_fstat fd (Ok m)));
      [reflexivity|].
    apply (fails_hard_step _ (called w' (E_ioctl fd (Ok c)) (called w (E_fstat fd (Ok m)) s))
             (E_ioctl fd (Ok c))); [reflexivity|].
    apply read_loop_fails_hard.
Qed.

Lemma urandom_start_fails_hard fuel save buf len (s : machine W) :
  fails_hard s (urandom_start K fuel save buf len s).
Proof.
  revert fuel s.
  apply (urandom_start_rect K save buf len (fun _ s o => fails_hard s o)).
  - intros s r s' [=].
  - intros fuel s w e _ He r s' [= <- <-]. right. split; [reflexivity|].
    exists [E_open (Err e)]. split; [reflexivity|].
    apply Exists_cons_hd. exact He.
  - intros fuel s w o _ IH. eapply fails_hard_step; [|exact IH]. reflexivity.
  - intros fuel s w fd _.
    apply (fails_hard_step _ (called w (E_open (Ok fd)) s) (E_open (Ok fd)));
      [reflexivity|].
    apply verify_and_read_fails_hard.
Qed.

Lemma sysctl_loop_fails_hard fuel save buf len i (s : machine W) :
  fails_hard s (sysctl_loop K fuel save buf len i s).
Proof.
  revert fuel i s.
  apply (sysctl_loop_rect K save buf len (fun _ _ s o => fails_hard s o)).
  - intros fuel i s _ r s' [= <- _]. auto.
  - intros i s _ r s' [=].
  - intros fuel i s w e _ _ r s' [= <- <-]. right. split; [reflexivity|].
    exists [E_sysctl (buf + i) (min (len - i) 16) (Err e)]. split; [reflexivity|].
    apply Exists_cons_hd. exact I.
  - intros fuel i s w bs o _ _ IH. eapply fails_hard_step; [|exact IH]. reflexivity.
Qed.

Lemma linux_after_getrandom_false c fuel buf n (s s' : machine W) :
  linux_after_getrandom K c fuel buf n s = Return false s' ->
  exists evs, trace s' = trace s ++ evs /\ Exists hard_failure evs.
Proof.
  unfold linux_after_getrandom, getentropy_urandom, getentropy_sysctl.
  pose proof (urandom_start_fails_hard fuel (errno s) buf n s) as HB.
  destruct (urandom_start K fuel (errno s) buf n s) as [r s1| s1|]; simpl;
    try discriminate.
  destruct (HB r s1 eq_refl) as [->|(-> & evB & HtB & HexB)]; simpl; [discriminate|].
  destruct c.
  - pose proof (sysctl_loop_fails_hard fuel (errno s1) buf n 0 s1) as HC.
    destruct (sysctl_loop K fuel (errno s1) buf n 0 s1) as [r2 s2| s2|]; simpl;
      try discriminate.
    destruct (HC r2 s2 eq_refl) as [->|(-> & evC & HtC & HexC)]; simpl; [discriminate|].
    intros [= <-]. exists (evB ++ evC).
    split; [rewrite HtC, HtB; now rewrite app_assoc | apply Exists_app; auto].
  - intros [= <-]. eauto.
Qed.

Lemma ggentropy_false pf fuel buf n (s s' : machine W) :
  ggentropy K pf fuel buf n s = Return false s' ->
  exists evs, trace s' = trace s ++ evs /\ Exists hard_failure evs.
Proof.
  destruct pf as [|g c|]; simpl.
  - unfold ggentropy_windows, assert_n. destruct (n <=? 256); simpl; [|discriminate].
    destruct (BCryptGenRandom K (world s) n) as [w [e|bs]]; [|discriminate].
    intros [= <-]. exists [E_BCryptGenRandom buf n (Err e)].
    split; [reflexivity | apply Exists_cons_hd; exact I].
  - unfold ggentropy_linux, assert_n. destruct (n <=? 256); simpl; [|discriminate].
    destruct (g && getrandom_available s); [|apply linux_after_getrandom_false].
    unfold getentropy_getrandom.
    pose proof (getrandom_loop_log K fuel (errno s) buf (int_of n) s) as LA.
    destruct (getrandom_loop K fuel (errno s) buf (int_of n) s) as [r s1| s1|]; simpl;
      try discriminate.
    destruct LA as [(-> & _)|(-> & pre & p & left & [Ht _] & _ & Hne)]; simpl;
      [discriminate|].
    assert (Hex : Exists hard_failure (pre ++ [E_getrandom p left (Err (errno s1))]))
      by (apply Exists_app; right; apply Exists_cons_hd; exact Hne).
    destruct (errno s1 =? ENOSYS).
    + intros H. destruct (linux_after_getrandom_false c fuel buf n _ _ H)
        as (evs & Ht2 & _).
      exists ((pre ++ [E_getrandom p left (Err (errno s1))]) ++ evs).
      split; [simpl in Ht2; rewrite Ht2, Ht; now rewrite <- !app_assoc|].
      apply Exists_app. auto.
    + intros [= <-]. eauto.
  - unfold ggentropy_arc4random, assert_n. destruct (n <=? 256); simpl; [|discriminate].
    destruct (arc4random_buf K (world s) n) as [w bs]. discriminate.
Qed.

End Failure.

(** X3.  On every platform, a call that returns false has in its log a
    primitive that reported a hard failure: an error that no loop
    retries ([EINTR] apart for getrandom and open, [EINTR] and [EAGAIN]
    apart for read), or an [fstat] showing a node that is not a
    character device.  Interruptions alone, and short transfers, never
    make the call return false. *)
Theorem false_reports_hard_failure :
  forall (W : Type) (K : kernel W) (pf : platform) (fuel : nat) (buf n : Z)
         (s s' : machine W) (evs : list event),
    ggentropy K pf fuel buf n s = Return false s' ->
    trace s' = trace s ++ evs ->
    Exists hard_failure evs.
Proof.
  intros W K pf fuel buf n s s' evs H Ht.
  destruct (ggentropy_false K pf fuel buf n s s' H) as (evs' & Ht' & Hex).
  assert (evs' = evs) as -> by (rewrite Ht in Ht'; now apply app_inv_head in Ht').
  exact Hex.
Qed.

(** In the chroot, on a kernel without getrandom, the call returns
    false and its log shows the failed open. *)
Lemma false_reports_hard_failure_witness :
  exists s' : machine nat,
    ggentropy (scripted chroot_old_kernel) (PLATFORM_LINUX true false) 20 1000 16
      (boot 0%nat blank) = Return false s' /\
    Exists hard_failure (trace s').
Proof.
  destruct (ggentropy (scripted chroot_old_kernel) (PLATFORM_LINUX true false) 20 1000 16
              (boot 0%nat blank)) as [[|] s'| |] eqn:E; try discriminate.
  exists s'. split; [reflexivity|].
  exact (false_reports_hard_failure nat (scripted chroot_old_kernel)
           (PLATFORM_LINUX true false) 20 1000 16 (boot 0%nat blank) s' (trace s')
           E eq_refl).
Defined.

(** ** The descriptor of Step B *)

Section Descriptor.

Context {W : Type} (K : kernel W).

(** The log of the read loop: reads on the descriptor, then, when the
    loop is left, its close. *)
Lemma read_loop_shape fuel save fd buf len i (s : machine W) :
  match read_loop K fuel save fd buf len i s with
  | Return _ s' =>
      exists reads, trace s' = trace s ++ reads ++ [E_close fd] /\
                    Forall (read_on fd) reads
  | Timeout s' =>
      exists reads, trace s' = trace s ++ reads /\ Forall (read_on fd) reads
  | Abort => False
  end.
Proof.
  revert fuel i s.
  apply (read_loop_rect K save fd buf len
           (fun _ _ s o =>
              match o with
              | Return _ s' =>
                  exists reads, trace s' = trace s ++ reads ++ [E_close fd] /\
                                Forall (read_on fd) reads
              | Timeout s' =>
                  exists reads, trace s' = trace s ++ reads /\ Forall (read_on fd) reads
              | Abort => False
              end)).
  - intros fuel i s _. exists []. split; [reflexivity | constructor].
  - intros i s _. exists []. split; [now rewrite app_nil_r | constructor].
  - intros fuel i s w e _ _ _ _. simpl.
    exists [E_read fd (buf + i) (len - i) (Err e)].
    split; [now rewrite <- app_assoc | repeat constructor].
  - intros fuel i s w e o _ _ _ IH.
    destruct o as [r s'| s'|]; [| |exact IH]; destruct IH as (reads & Ht & Hall);
      exists (E_read fd (buf + i) (len - i) (Err e) :: reads);
      (split; [rewrite Ht; simpl; now rewrite <- app_assoc
              | constructor; [reflexivity | exact Hall]]).
  - intros fuel i s w bs o _ _ IH.
    destruct o as [r s'| s'|]; [| |exact IH]; destruct IH as (reads & Ht & Hall);
      exists (E_read fd (buf + i) (len - i) (Ok bs) :: reads);
      (split; [rewrite Ht; simpl; now rewrite <- app_assoc
              | constructor; [reflexivity | exact Hall]]).
Qed.

Lemma read_on_descriptor fd ev : read_on fd ev -> on_descriptor fd ev.
Proof. destruct ev; simpl; intros H; try contradiction; exact H. Qed.

(** After a successful open: what is done is done on the descriptor,
    and the return is preceded by its close. *)
Lemma verify_and_read_closes fuel save fd buf len (s : machine W) r s' :
  verify_and_read K fuel save fd buf len s = Return r s' ->
  exists mid, trace s' = trace s ++ mid ++ [E_close fd] /\
              Forall (on_descriptor fd) mid.
Proof.
  destruct (verify_and_read_cases K fuel save fd buf len s)
    as [(w & e & _ & ->)|[(w & m & _ & Hm & ->)|[(w & m & w' & e & _ & _ & _ & ->)
       |(w & m & w' & c & _ & _ & _ & ->)]]].
  - intros [= _ <-]. exists [E_fstat fd (Err e)].
    split; [unfold close, called; simpl; now rewrite <- app_assoc | repeat constructor].
  - intros [= _ <-]. exists [E_fstat fd (Ok m)].
    split; [unfold close, called; simpl; now rewrite <- app_assoc | repeat constructor].
  - intros [= _ <-]. exists [E_fstat fd (Ok m); E_ioctl fd (Err e)].
    split; [unfold close, called; simpl; now rewrite <- !app_assoc | repeat constructor].
  - intros Ho.
    pose proof (read_loop_shape fuel save fd buf len 0
                  (called w' (E_ioctl fd (Ok c)) (called w (E_fstat fd (Ok m)) s))) as H.
    rewrite Ho in H. destruct H as (reads & Ht & Hall).
    exists (E_fstat fd (Ok m) :: E_ioctl fd (Ok c) :: reads).
    split; [rewrite Ht; simpl; now rewrite <- !app_assoc|].
    repeat constructor. eapply Forall_impl; [exact (read_on_descriptor fd) | exact Hall].
Qed.

Lemma urandom_start_closes fuel save buf len (s : machine W) r s' :
  urandom_start K fuel save buf len s = Return r s' ->
  exists pre,
    Forall interrupted_open pre /\
    ((exists e, trace s' = trace s ++ pre ++ [E_open (Err e)] /\ e <> EINTR /\ r = -1) \/
     (exists fd mid,
        trace s' = trace s ++ pre ++ E_open (Ok fd) :: mid ++ [E_close fd] /\
        Forall (on_descriptor fd) mid)).
Proof.
  revert fuel s.
  apply (urandom_start_rect K save buf len
           (fun _ s o =>
              o = Return r s' ->
              exists pre,
                Forall interrupted_open pre /\
                ((exists e, trace s' = trace s ++ pre ++ [E_open (Err e)] /\
                            e <> EINTR /\ r = -1) \/
                 (exists fd mid,
                    trace s' = trace s ++ pre ++ E_open (Ok fd) :: mid ++ [E_close fd] /\
                    Forall (on_descriptor fd) mid)))).
  - intros s [=].
  - intros fuel s w e _ He [= <- <-]. exists []. split; [constructor|].
    left. exists e. auto.
  - intros fuel s w o _ IH Ho. destruct (IH Ho) as (pre & Hpre & Hc).
    exists (E_open (Err EINTR) :: pre). split; [constructor; [reflexivity | exact Hpre]|].
    destruct Hc as [(e & Ht & He & Hr)|(fd & mid & Ht & Hall)].
    + left. exists e. split; [rewrite Ht; simpl; now rewrite <- app_assoc | auto].
    + right. exists fd, mid. split; [rewrite Ht; simpl; now rewrite <- app_assoc | auto].
  - intros fuel s w fd _ Ho.
    destruct (verify_and_read_closes fuel save fd buf len _ r s' Ho) as (mid & Ht & Hall).
    exists []. split; [constructor|]. right. exists fd, mid.
    split; [rewrite Ht; simpl; now rewrite <- app_assoc | exact Hall].
Qed.

(** After a successful open: either no read was issued, or the log
    starts with the two checks passed, followed by reads on the
    descriptor and possibly its close. *)
Lemma verify_and_read_reads fuel save fd buf len (s s' : machine W) :
  final (verify_and_read K fuel save fd buf len s) = Some s' ->
  exists tail,
    trace s' = trace s ++ tail /\
    ((forall ev, In ev tail -> ~ is_read ev) \/
     (exists st_mode cnt post,
        tail = E_fstat fd (Ok st_mode) :: E_ioctl fd (Ok cnt) :: post /\
        S_ISCHR st_mode = true /\ Forall (read_or_close_of fd) post)).
Proof.
  destruct (verify_and_read_cases K fuel save fd buf len s)
    as [(w & e & _ & ->)|[(w & m & _ & _ & ->)|[(w & m & w' & e & _ & _ & _ & ->)
       |(w & m & w' & c & _ & Hm & _ & ->)]]].
  - intros [= <-]. exists [E_fstat fd (Err e); E_close fd].
    split; [unfold close, called; simpl; now rewrite <- app_assoc|].
    left. intros ev [<-|[<-|[]]]; simpl; auto.
  - intros [= <-]. exists [E_fstat fd (Ok m); E_close fd].
    split; [unfold close, called; simpl; now rewrite <- app_assoc|].
    left. intros ev [<-|[<-|[]]]; simpl; auto.
  - intros [= <-]. exists [E_fstat fd (Ok m); E_ioctl fd (Err e); E_close fd].
    split; [unfold close, called; simpl; now rewrite <- !app_assoc|].
    left. intros ev [<-|[<-|[<-|[]]]]; simpl; auto.
  - intros Hs'.
    pose proof (read_loop_shape fuel save fd buf len 0
                  (called w' (E_ioctl fd (Ok c)) (called w (E_fstat fd (Ok m)) s))) as H.
    destruct (read_loop K fuel save fd buf len 0 _) as [r s1| s1|]; [| |contradiction];
      injection Hs' as <-; destruct H as (reads & Ht & Hall).
    + exists (E_fstat fd (Ok m) :: E_ioctl fd (Ok c) :: reads ++ [E_close fd]).
      split; [rewrite Ht; simpl; now rewrite <- !app_assoc|].
      right. exists m, c, (reads ++ [E_close fd]). repeat split; auto.
      apply Forall_app. split.
      * eapply Forall_impl; [|exact Hall]. intros ev Hev. left. exact Hev.
      * constructor; [right; reflexivity | constructor].
    + exists (E_fstat fd (Ok m) :: E_ioctl fd (Ok c) :: reads).
      split; [rewrite Ht; simpl; now rewrite <- !app_assoc|].
      right. exists m, c, reads. repeat split; auto.
      eapply Forall_impl; [|exact Hall]. intros ev Hev. left. exact Hev.
Qed.

Lemma urandom_start_reads fuel save buf len (s s' : machine W) :
  final (urandom_start K fuel save buf len s) = Some s' ->
  exists pre tail,
    trace s' = trace s ++ pre ++ tail /\
    Forall interrupted_open pre /\
    ((forall ev, In ev tail -> ~ is_read ev) \/
     (exists fd st_mode cnt post,
        tail = E_open (Ok fd) :: E_fstat fd (Ok st_mode) :: E_ioctl fd (Ok cnt) :: post /\
        S_ISCHR st_mode = true /\ Forall (read_or_close_of fd) post)).
Proof.
  revert fuel s.
  apply (urandom_start_rect K save buf len
           (fun _ s o =>
              final o = Some s' ->
              exists pre tail,
                trace s' = trace s ++ pre ++ tail /\
                Forall interrupted_open pre /\
                ((forall ev, In ev tail -> ~ is_read ev) \/
                 (exists fd st_mode cnt post,
                    tail = E_open (Ok fd) :: E_fstat fd (Ok st_mode)
                             :: E_ioctl fd (Ok cnt) :: post /\
                    S_ISCHR st_mode = true /\ Forall (read_or_close_of fd) post)))).
  - intros s [= <-]. exists [], []. rewrite !app_nil_r.
    split; [reflexivity|]. split; [constructor|]. left. intros ev [].
  - intros fuel s w e _ _ [= <-]. exists [], [E_open (Err e)].
    split; [reflexivity|]. split; [constructor|].
    left. intros ev [<-|[]]. simpl. auto.
  - intros fuel s w o _ IH Ho. destruct (IH Ho) as (pre & tail & Ht & Hpre & Hc).
    exists (E_open (Err EINTR) :: pre), tail.
    split; [rewrite Ht; simpl; now rewrite <- app_assoc|].
    split; [constructor; [reflexivity | exact Hpre] | exact Hc].
  - intros fuel s w fd _ Ho.
    destruct (verify_and_read_reads fuel save fd buf len _ s' Ho) as (tail & Ht & Hc).
    exists [], (E_open (Ok fd) :: tail).
    split; [rewrite Ht; simpl; now rewrite <- app_assoc|].
    split; [constructor|].
    destruct Hc as [Hno|(m & c & post & -> & Hm & Hall)].
    + left. intros ev [<-|Hin]; [simpl; auto | apply Hno; exact Hin].
    + right. exists fd, m, c, post. auto.
Qed.

End Descriptor.

(** X4.  Step B leaks no descriptor.  When [getentropy_urandom]
    returns, its log is a run of interrupted opens followed either by an
    open that failed for another reason (the result is then -1 and
    nothing else was invoked), or by one successful open, operations
    ([fstat], [ioctl], [read]) on the descriptor it gave and on no
    other, and last the close of that descriptor. *)
Theorem descriptor_closed_on_return :
  forall (W : Type) (K : kernel W) (fuel : nat) (buf len r : Z)
         (s s' : machine W) (evs : list event),
    getentropy_urandom K fuel buf len s = Return r s' ->
    trace s' = trace s ++ evs ->
    exists pre,
      Forall interrupted_open pre /\
      ((exists e, evs = pre ++ [E_open (Err e)] /\ e <> EINTR /\ r = -1) \/
       (exists fd mid,
          evs = pre ++ E_open (Ok fd) :: mid ++ [E_close fd] /\
          Forall (on_descriptor fd) mid)).
Proof.
  intros W K fuel buf len r s s' evs Ho Ht. unfold getentropy_urandom in Ho.
  destruct (urandom_start_closes K fuel (errno s) buf len s r s' Ho) as (pre & Hpre & Hc).
  exists pre. split; [exact Hpre|].
  destruct Hc as [(e & Ht' & He & Hr)|(fd & mid & Ht' & Hall)].
  - left. exists e. split; [|auto].
    rewrite Ht in Ht'. now apply app_inv_head in Ht'.
  - right. exists fd, mid. split; [|exact Hall].
    rewrite Ht in Ht'. now apply app_inv_head in Ht'.
Qed.

(** Two interrupted opens, then descriptor 3 is opened, checked, read
    and closed. *)
Lemma descriptor_closed_on_return_witness :
  exists (s' : machine nat) (mid : list event),
    getentropy_urandom (scripted flaky) 24 1000 7 (boot 0%nat blank) = Return 0 s' /\
    trace s' = [E_open (Err EINTR); E_open (Err EINTR)]
               ++ E_open (Ok 3) :: mid ++ [E_close 3].
Proof.
  destruct (getentropy_urandom (scripted flaky) 24 1000 7 (boot 0%nat blank))
    as [r s'| |] eqn:E; try discriminate.
  assert (Hr : r = 0) by (vm_compute in E; injection E as <- _; reflexivity).
  subst r. exists s'.
  destruct (descriptor_closed_on_return nat (scripted flaky) 24 1000 7 0
              (boot 0%nat blank) s' (trace s') E eq_refl) as (pre & Hpre & Hc).
  vm_compute in E. injection E as <-.
  eexists. split; [reflexivity|]. simpl.
  instantiate (1 := [E_fstat 3 (Ok 8630); E_ioctl 3 (Ok 256);
                     E_read 3 1000 7 (Err 11);
                     E_read 3 1000 7 (Ok [x2b; x2b; x2b; x2b; x2b]);
                     E_read 3 1005 2 (Ok [x2b; x2b])]).
  reflexivity.
Defined.

(** X5.  Step B reads only from a node it has checked.  Whatever the
    outcome, if the log of [getentropy_urandom] has a read on a
    descriptor, then that descriptor is the one the (only) successful
    open gave, and between that open and the first read stand an
    [fstat] that showed a character device and an [ioctl RNDGETENTCNT]
    that succeeded, both on that descriptor; all that follows is reads
    on it and its close. *)
Theorem reads_follow_verification :
  forall (W : Type) (K : kernel W) (fuel : nat) (buf len : Z)
         (s s' : machine W) (evs : list event) (fd p wanted : Z)
         (r : result (list byte)),
    final (getentropy_urandom K fuel buf len s) = Some s' ->
    trace s' = trace s ++ evs ->
    In (E_read fd p wanted r) evs ->
    exists pre st_mode cnt post,
      evs = pre ++ E_open (Ok fd) :: E_fstat fd (Ok st_mode)
                :: E_ioctl fd (Ok cnt) :: post /\
      Forall interrupted_open pre /\
      S_ISCHR st_mode = true /\
      Forall (read_or_close_of fd) post.
Proof.
  intros W K fuel buf len s s' evs fd p wanted r Hs' Ht Hin.
  unfold getentropy_urandom in Hs'.
  destruct (urandom_start_reads K fuel (errno s) buf len s s' Hs')
    as (pre & tail & Ht' & Hpre & Hc).
  assert (evs = pre ++ tail) as ->
    by (rewrite Ht in Ht'; now apply app_inv_head in Ht').
  apply in_app_or in Hin. destruct Hin as [Hin|Hin].
  { exfalso. rewrite Forall_forall in Hpre. specialize (Hpre _ Hin). discriminate. }
  destruct Hc as [Hno|(fd' & m & c & post & -> & Hm & Hall)].
  { exfalso. exact (Hno _ Hin I). }
  destruct Hin as [Hin|[Hin|[Hin|Hin]]]; try discriminate.
  rewrite Forall_forall in Hall.
  destruct (Hall _ Hin) as [Hfd|Hcl]; [|discriminate].
  simpl in Hfd. subst fd'.
  exists pre, m, c, post. repeat split; auto.
  apply Forall_forall. exact Hall.
Qed.

Lemma reads_follow_verification_witness :
  exists (s' : machine nat) (pre post : list event) (st_mode cnt : Z),
    final (getentropy_urandom (scripted flaky) 24 1000 7 (boot 0%nat blank)) = Some s' /\
    trace s' = pre ++ E_open (Ok 3) :: E_fstat 3 (Ok st_mode)
                   :: E_ioctl 3 (Ok cnt) :: post /\
    S_ISCHR st_mode = true.
Proof.
  destruct (final (getentropy_urandom (scripted flaky) 24 1000 7 (boot 0%nat blank)))
    as [s'|] eqn:E; [|discriminate].
  exists s'.
  assert (Hin : In (E_read 3 1005 2 (Ok [x2b; x2b])) (trace s'))
    by (vm_compute in E; injection E as <-; simpl; auto 10).
  destruct (reads_follow_verification nat (scripted flaky) 24 1000 7
              (boot 0%nat blank) s' (trace s') 3 1005 2 (Ok [x2b; x2b]) E eq_refl Hin)
    as (pre & m & c & post & Ht & _ & Hm & _).
  exists pre, post, m, c. auto.
Defined.

(** ** What the primitives are asked for *)

Section Requests.

Context {W : Type} (K : kernel W).

Lemma traced_here {A} (P : event -> Prop) (s s1 : machine W) evs (o : outcome W A) :
  final o = Some s1 -> trace s1 = trace s ++ evs -> Forall P evs -> traced P s o.
Proof.
  intros Ho Ht Hall s' Hs'. rewrite Ho in Hs'. injection Hs' as <-. eauto.
Qed.

Lemma traced_step {A} (P : event -> Prop) (s s1 : machine W) ev (o : outcome W A) :
  trace s1 = trace s ++ [ev] -> P ev -> traced P s1 o -> traced P s o.
Proof.
  intros Ht Hp H s' Hs'. destruct (H s' Hs') as (evs & Ht' & Hall).
  exists (ev :: evs). split; [rewrite Ht', Ht; now rewrite <- app_assoc|].
  constructor; assumption.
Qed.

Lemma traced_none {A} (P : event -> Prop) (s : machine W) :
  traced P s (@Abort W A).
Proof. intros s' [=]. Qed.

(** The log of a sequence is the log of its first part followed by the
    log of the rest. *)
Lemma traced_bind {A B} (P : event -> Prop) (s : machine W) (o : outcome W A)
  (k : A -> machine W -> outcome W B) :
  traced P s o ->
  (forall a s1, o = Return a s1 -> traced P s1 (k a s1)) ->
  traced P s (bind o k).
Proof.
  intros Ho Hk. destruct o as [a s1| s1|]; simpl.
  - intros s' Hs'. destruct (Ho s1 eq_refl) as (evs1 & Ht1 & Hall1).
    destruct (Hk a s1 eq_refl s' Hs') as (evs2 & Ht2 & Hall2).
    exists (evs1 ++ evs2). split; [rewrite Ht2, Ht1; now rewrite app_assoc|].
    apply Forall_app. auto.
  - exact Ho.
  - apply traced_none.
Qed.

Lemma traced_return {A} (P : event -> Prop) (s : machine W) (a : A) :
  traced P s (Return a s).
Proof. apply (traced_here P s s []); [reflexivity | now rewrite app_nil_r | constructor]. Qed.

(** The log of a state written out in full. *)
Ltac traced_now evs :=
  eapply (traced_here _ _ _ evs);
  [ reflexivity
  | unfold close, called; simpl; rewrite <- ?app_assoc, ?app_nil_r; reflexivity
  | ].

(** The Linux body logs what its strategies log. *)
Lemma ggentropy_linux_traced (P : event -> Prop) g c fuel buf n (s : machine W) :
  (forall s0, traced P s0 (getentropy_getrandom K fuel buf n s0)) ->
  (forall s0, traced P s0 (getentropy_urandom K fuel buf n s0)) ->
  (forall s0, traced P s0 (getentropy_sysctl K fuel buf n s0)) ->
  traced P s (ggentropy_linux K g c fuel buf n s).
Proof.
  intros HA HB HC.
  assert (HBC : forall s0, traced P s0 (linux_after_getrandom K c fuel buf n s0)).
  { intros s0. unfold linux_after_getrandom. apply traced_bind; [apply HB|].
    intros r s1 _. destruct (negb (r =? -1)); [apply traced_return|].
    destruct c; [|apply traced_return].
    apply traced_bind; [apply HC|].
    intros r2 s2 _. destruct (negb (r2 =? -1)); apply traced_return. }
  unfold ggentropy_linux, assert_n.
  destruct (n <=? 256); simpl; [|apply traced_none].
  destruct (g && getrandom_available s); [|apply HBC].
  apply traced_bind; [apply HA|].
  intros r s1 _. destruct (negb (r =? -1)); [apply traced_return|].
  destruct (errno s1 =? ENOSYS); [|apply traced_return].
  intros s' Hs'. destruct (HBC (set_available false s1) s' Hs') as (evs & Ht & Hall).
  exists evs. split; [exact Ht | exact Hall].
Qed.

Section WithContract.

Context (HK : kernel_contract K) (buf n : Z).

Lemma getrandom_loop_asks pre fuel p left (s : machine W) :
  0 <= left < 2 ^ 31 -> buf <= p -> p + left = buf + n ->
  traced (asks_within buf n) s (getrandom_loop K fuel pre p left s).
Proof.
  revert fuel p left s.
  apply (getrandom_loop_rect K pre
           (fun _ p left s o =>
              0 <= left < 2 ^ 31 -> buf <= p -> p + left = buf + n ->
              traced (asks_within buf n) s o)).
  - intros. traced_now (@nil event). constructor.
  - intros. traced_now (@nil event). constructor.
  - intros fuel p left s w e Hl _ _ Hb Hp Hsum.
    traced_now [E_getrandom p left (Err e)]. repeat constructor; auto.
  - intros fuel p left s w o Hl _ IH Hb Hp Hsum.
    eapply traced_step; [| |exact (IH Hb Hp Hsum)]; [reflexivity|].
    simpl. auto.
  - intros fuel p left s w bs o Hl Hk IH Hb Hp Hsum.
    pose proof (getrandom_le K HK _ _ _ _ Hk) as Hle. specialize (Hle ltac:(lia)).
    rewrite int_of_small in IH by lia.
    eapply traced_step; [| |apply IH; lia]; [reflexivity|].
    simpl. auto.
Qed.

Lemma read_loop_asks save fd fuel i (s : machine W) :
  0 <= i <= n ->
  traced (asks_within buf n) s (read_loop K fuel save fd buf n i s).
Proof.
  revert fuel i s.
  apply (read_loop_rect K save fd buf n
           (fun _ i s o => 0 <= i <= n -> traced (asks_within buf n) s o)).
  - intros. traced_now [E_close fd]. repeat constructor.
  - intros. traced_now (@nil event). constructor.
  - intros fuel i s w e Hl _ _ _ Hb.
    traced_now [E_read fd (buf + i) (n - i) (Err e); E_close fd]. repeat constructor; simpl; lia.
  - intros fuel i s w e o Hl _ _ IH Hb.
    eapply traced_step; [| |exact (IH Hb)]; [reflexivity|].
    simpl. lia.
  - intros fuel i s w bs o Hl Hk IH Hb.
    pose proof (read_le K HK _ _ _ _ _ Hk) as Hle. specialize (Hle ltac:(lia)).
    eapply traced_step; [| |apply IH; lia]; [reflexivity|].
    simpl. lia.
Qed.

Lemma urandom_start_asks save fuel (s : machine W) :
  0 <= n ->
  traced (asks_within buf n) s (urandom_start K fuel save buf n s).
Proof.
  intros Hn. revert fuel s.
  apply (urandom_start_rect K save buf n
           (fun _ s o => traced (asks_within buf n) s o)).
  - intros. traced_now (@nil event). constructor.
  - intros fuel s w e _ _.
    traced_now [E_open (Err e)]. repeat constructor.
  - intros fuel s w o _ IH. eapply traced_step; [| |exact IH]; [reflexivity | exact I].
  - intros fuel s w fd _.
    apply (traced_step _ _ (called w (E_open (Ok fd)) s) (E_open (Ok fd)));
      [reflexivity | exact I |].
    destruct (verify_and_read_cases K fuel save fd buf n (called w (E_open (Ok fd)) s))
      as [(w1 & e & _ & ->)|[(w1 & m & _ & _ & ->)|[(w1 & m & w' & e & _ & _ & _ & ->)
         |(w1 & m & w' & c & _ & _ & _ & ->)]]].
    + traced_now [E_fstat fd (Err e); E_close fd]. repeat constructor.
    + traced_now [E_fstat fd (Ok m); E_close fd]. repeat constructor.
    + traced_now [E_fstat fd (Ok m); E_ioctl fd (Err e); E_close fd]. repeat constructor.
    + apply (traced_step _ _ (called w1 (E_fstat fd (Ok m)) (called w (E_open (Ok fd)) s))
               (E_fstat fd (Ok m))); [reflexivity | exact I |].
      apply (traced_step _ _
               (called w' (E_ioctl fd (Ok c))
                  (called w1 (E_fstat fd (Ok m)) (called w (E_open (Ok fd)) s)))
               (E_ioctl fd (Ok c))); [reflexivity | exact I |].
      apply read_loop_asks. lia.
Qed.

Lemma sysctl_loop_asks save fuel i (s : machine W) :
  0 <= i <= n ->
  traced (asks_within buf n) s (sysctl_loop K fuel save buf n i s).
Proof.
  revert fuel i s.
  apply (sysctl_loop_rect K save buf n
           (fun _ i s o => 0 <= i <= n -> traced (asks_within buf n) s o)).
  - intros. traced_now (@nil event). constructor.
  - intros. traced_now (@nil event). constructor.
  - intros fuel i s w e Hl _ Hb.
    pose proof (min_le_l (n - i) 16). pose proof (min_le_r (n - i) 16).
    pose proof (min_pos (n - i) 16 ltac:(lia) ltac:(lia)).
    traced_now [E_sysctl (buf + i) (min (n - i) 16) (Err e)]. repeat constructor; simpl; lia.
  - intros fuel i s w bs o Hl Hk IH Hb.
    pose proof (min_le_l (n - i) 16). pose proof (min_le_r (n - i) 16).
    pose proof (min_pos (n - i) 16 ltac:(lia) ltac:(lia)).
    pose proof (sysctl_le K HK _ _ _ _ Hk) as Hle. specialize (Hle ltac:(lia)).
    eapply traced_step; [| |apply IH; lia]; [reflexivity|].
    simpl. lia.
Qed.

Lemma ggentropy_asks pf fuel (s : machine W) :
  0 <= n <= 256 ->
  traced (asks_within buf n) s (ggentropy K pf fuel buf n s).
Proof.
  intros Hn. destruct pf as [|g c|]; simpl.
  - unfold ggentropy_windows, assert_n. destruct (n <=? 256); simpl; [|apply traced_none].
    destruct (BCryptGenRandom K (world s) n) as [w [e|bs]].
    + traced_now [E_BCryptGenRandom buf n (Err e)]. repeat constructor.
    + traced_now [E_BCryptGenRandom buf n (Ok bs)]. repeat constructor.
  - apply ggentropy_linux_traced.
    + intros s0. unfold getentropy_getrandom. rewrite int_of_small by lia.
      apply getrandom_loop_asks; lia.
    + intros s0. apply urandom_start_asks. lia.
    + intros s0. unfold getentropy_sysctl. apply sysctl_loop_asks. lia.
  - unfold ggentropy_arc4random, assert_n. destruct (n <=? 256); simpl; [|apply traced_none].
    destruct (arc4random_buf K (world s) n) as [w bs].
    traced_now [E_arc4random_buf buf n bs]. repeat constructor.
Qed.

End WithContract.

End Requests.

(** X6.  The code never asks the system to write past the buffer.  On a
    system whose primitives transfer the amounts they report, in a call
    for [n <= 256] bytes at [buf], whatever its outcome, every getrandom
    call and every read is asked for exactly the part of the buffer not
    yet filled (a positive length, at an address inside the buffer,
    ending at [buf + n]); every control-interface call for between 1 and
    16 bytes of that part; the library calls of the other platforms for
    the [n] bytes at [buf]. *)
Theorem requests_stay_in_buffer :
  forall (W : Type) (K : kernel W) (pf : platform) (fuel : nat) (buf n : Z)
         (s s' : machine W) (evs : list event),
    kernel_contract K ->
    0 <= n <= 256 ->
    final (ggentropy K pf fuel buf n s) = Some s' ->
    trace s' = trace s ++ evs ->
    Forall (asks_within buf n) evs.
Proof.
  intros W K pf fuel buf n s s' evs HK Hn Hs' Ht.
  destruct (ggentropy_asks K HK buf n pf fuel s Hn s' Hs') as (evs' & Ht' & Hall).
  assert (evs' = evs) as -> by (rewrite Ht in Ht'; now apply app_inv_head in Ht').
  exact Hall.
Qed.

(** Under the burst of signals, with transfers of five bytes at most,
    every request of the call for 16 bytes ends at address 1016. *)
Lemma requests_stay_in_buffer_witness :
  exists s' : machine nat,
    ggentropy (scripted flaky) (PLATFORM_LINUX true true) 24 1000 16
      (boot 0%nat blank) = Return true s' /\
    Forall (asks_within 1000 16) (trace s').
Proof.
  destruct (ggentropy (scripted flaky) (PLATFORM_LINUX true true) 24 1000 16
              (boot 0%nat blank)) as [[|] s'| |] eqn:E; try discriminate.
  exists s'. split; [reflexivity|].
  assert (Hn : 0 <= 16 <= 256) by lia.
  apply (requests_stay_in_buffer nat (scripted flaky) (PLATFORM_LINUX true true) 24
           1000 16 (boot 0%nat blank) s' (trace s') flaky_contract Hn).
  - rewrite E. reflexivity.
  - reflexivity.
Defined.

(** ** [errno] after a call *)

Section Errno.

Context {W : Type} (K : kernel W).






End Errno.



(** ** The buffer holds the bytes transferred, in order *)

Lemma store_value (m : memory) (p : Z) (f : facility) (bs : list byte) (a : Z) :
  p <= a < p + Z.of_nat (length bs) ->
  value (store m p f bs a) = nth (Z.to_nat (a - p)) bs x00.
Proof.
  intros H. unfold store.
  replace (p <=? a) with true by (symmetry; apply Z.leb_le; lia).
  replace (a <? p + Z.of_nat (length bs)) with true by (symmetry; apply Z.ltb_lt; lia).
  reflexivity.
Qed.

Section Data.

Context {W : Type} (K : kernel W) (HK : kernel_contract K).

Lemma holds_nil (s : machine W) p : holds s p 0 [].
Proof. split; [reflexivity | intros k Hk; lia]. Qed.

(** A transfer of [bs] at [p] that the rest of the run leaves alone,
    followed by the bytes [rest] right after it. *)
Lemma holds_app (s' : machine W) p len bs rest :
  Z.of_nat (length bs) <= len ->
  (forall a, p <= a < p + Z.of_nat (length bs) ->
             value (mem s' a) = nth (Z.to_nat (a - p)) bs x00) ->
  holds s' (p + Z.of_nat (length bs)) (len - Z.of_nat (length bs)) rest ->
  holds s' p len (bs ++ rest).
Proof.
  intros Hle Hbs [Hlen Hrest]. split.
  - rewrite length_app. lia.
  - intros k Hk. destruct (Z_lt_le_dec k (Z.of_nat (length bs))) as [Hlt|Hge].
    + rewrite app_nth1 by lia.
      rewrite (Hbs (p + k)) by lia. f_equal. lia.
    + rewrite app_nth2 by lia.
      replace (p + k) with (p + Z.of_nat (length bs) + (k - Z.of_nat (length bs))) by lia.
      rewrite Hrest by lia. f_equal. lia.
Qed.

Lemma getrandom_loop_data pre fuel :
  forall p left (s : machine W) r s',
    0 <= left < 2 ^ 31 ->
    getrandom_loop K fuel pre p left s = Return r s' -> r <> -1 ->
    exists evs, trace s' = trace s ++ evs /\ holds s' p left (received evs).
Proof.
  induction fuel as [|fuel IH]; intros p left s r s' Hb; simpl;
    destruct (0 <? left) eqn:El.
  - discriminate.
  - apply Z.ltb_ge in El. intros [= <- <-] _. exists []. rewrite app_nil_r.
    split; [reflexivity|]. replace left with 0 by lia. apply holds_nil.
  - apply Z.ltb_lt in El.
    destruct (sys_getrandom K (world s) left) as [w [e|bs]] eqn:Hk.
    + destruct (e =? EINTR).
      * intros H Hr. destruct (IH _ _ _ _ _ Hb H Hr) as (evs & Ht & Hh).
        exists (E_getrandom p left (Err e) :: evs).
        split; [rewrite Ht; simpl; now rewrite <- app_assoc | exact Hh].
      * intros [= <- <-] Hr. congruence.
    + pose proof (getrandom_le K HK _ _ _ _ Hk) as Hle. specialize (Hle ltac:(lia)).
      rewrite int_of_small by lia.
      intros H Hr.
      assert (Hb' : 0 <= left - Z.of_nat (length bs) < 2 ^ 31) by lia.
      destruct (IH _ _ _ _ _ Hb' H Hr) as (evs & Ht & Hh).
      destruct (getrandom_loop_memory K HK fuel pre (p + Z.of_nat (length bs))
                  (left - Z.of_nat (length bs))
                  (write p F_getrandom bs (called w (E_getrandom p left (Ok bs)) s))
                  ltac:(lia)) as [Hconf _].
      exists (E_getrandom p left (Ok bs) :: evs).
      split; [rewrite Ht; simpl; now rewrite <- app_assoc|].
      change (received (E_getrandom p left (Ok bs) :: evs)) with (bs ++ received evs).
      apply holds_app; [exact Hle | | exact Hh].
      intros a Ha. rewrite (Hconf s' ltac:(rewrite H; reflexivity) a) by lia.
      simpl. now apply store_value.
  - apply Z.ltb_ge in El. intros [= <- <-] _. exists []. rewrite app_nil_r.
    split; [reflexivity|]. replace left with 0 by lia. apply holds_nil.
Qed.

Lemma read_loop_data save fd buf len fuel :
  forall i (s : machine W) r s',
    0 <= i <= len ->
    read_loop K fuel save fd buf len i s = Return r s' -> r <> -1 ->
    exists evs, trace s' = trace s ++ evs /\
                holds s' (buf + i) (len - i) (received evs).
Proof.
  induction fuel as [|fuel IH]; intros i s r s' Hb; simpl;
    destruct (i <? len) eqn:El.
  - discriminate.
  - apply Z.ltb_ge in El. intros [= <- <-] _. exists [E_close fd].
    split; [reflexivity|]. replace (len - i) with 0 by lia. apply holds_nil.
  - apply Z.ltb_lt in El.
    destruct (sys_read K (world s) fd (len - i)) as [w [e|bs]] eqn:Hk.
    + destruct ((e =? EAGAIN) || (e =? EINTR)).
      * intros H Hr. destruct (IH _ _ _ _ Hb H Hr) as (evs & Ht & Hh).
        exists (E_read fd (buf + i) (len - i) (Err e) :: evs).
        split; [rewrite Ht; simpl; now rewrite <- app_assoc | exact Hh].
      * intros [= <- <-] Hr. congruence.
    + pose proof (read_le K HK _ _ _ _ _ Hk) as Hle. specialize (Hle ltac:(lia)).
      intros H Hr.
      assert (Hb' : 0 <= i + Z.of_nat (length bs) <= len) by lia.
      destruct (IH _ _ _ _ Hb' H Hr) as (evs & Ht & Hh).
      destruct (read_loop_memory K HK fuel save fd buf len (i + Z.of_nat (length bs))
                  (write (buf + i) F_urandom bs
                     (called w (E_read fd (buf + i) (len - i) (Ok bs)) s))
                  ltac:(lia)) as [Hconf _].
      exists (E_read fd (buf + i) (len - i) (Ok bs) :: evs).
      split; [rewrite Ht; simpl; now rewrite <- app_assoc|].
      change (received (E_read fd (buf + i) (len - i) (Ok bs) :: evs))
        with (bs ++ received evs).
      apply holds_app; [exact Hle | |].
      * intros a Ha. rewrite (Hconf s' ltac:(rewrite H; reflexivity) a) by lia.
        simpl. now apply store_value.
      * replace (buf + i + Z.of_nat (length bs)) with (buf + (i + Z.of_nat (length bs)))
          by lia.
        replace (len - i - Z.of_nat (length bs)) with (len - (i + Z.of_nat (length bs)))
          by lia.
        exact Hh.
  - apply Z.ltb_ge in El. intros [= <- <-] _. exists [E_close fd].
    split; [reflexivity|]. replace (len - i) with 0 by lia. apply holds_nil.
Qed.

Lemma sysctl_loop_data save buf len fuel :
  forall i (s : machine W) r s',
    0 <= i <= len ->
    sysctl_loop K fuel save buf len i s = Return r s' -> r <> -1 ->
    exists evs, trace s' = trace s ++ evs /\
                holds s' (buf + i) (len - i) (received evs).
Proof.
  induction fuel as [|fuel IH]; intros i s r s' Hb; simpl;
    destruct (i <? len) eqn:El.
  - discriminate.
  - apply Z.ltb_ge in El. intros [= <- <-] _. exists []. rewrite app_nil_r.
    split; [reflexivity|]. replace (len - i) with 0 by lia. apply holds_nil.
  - apply Z.ltb_lt in El.
    destruct (sys_sysctl K (world s) (min (len - i) 16)) as [w [e|bs]] eqn:Hk.
    + intros [= <- <-] Hr. congruence.
    + pose proof (min_le_l (len - i) 16) as Hmin.
      pose proof (min_pos (len - i) 16 ltac:(lia) ltac:(lia)) as Hpos.
      pose proof (sysctl_le K HK _ _ _ _ Hk) as Hle. specialize (Hle ltac:(lia)).
      intros H Hr.
      assert (Hb' : 0 <= i + Z.of_nat (length bs) <= len) by lia.
      destruct (IH _ _ _ _ Hb' H Hr) as (evs & Ht & Hh).
      destruct (sysctl_loop_memory K HK fuel save buf len (i + Z.of_nat (length bs))
                  (write (buf + i) F_sysctl bs
                     (called w (E_sysctl (buf + i) (min (len - i) 16) (Ok bs)) s))
                  ltac:(lia)) as [Hconf _].
      exists (E_sysctl (buf + i) (min (len - i) 16) (Ok bs) :: evs).
      split; [rewrite Ht; simpl; now rewrite <- app_assoc|].
      change (received (E_sysctl (buf + i) (min (len - i) 16) (Ok bs) :: evs))
        with (bs ++ received evs).
      apply holds_app; [lia | |].
      * intros a Ha. rewrite (Hconf s' ltac:(rewrite H; reflexivity) a) by lia.
        simpl. now apply store_value.
      * replace (buf + i + Z.of_nat (length bs)) with (buf + (i + Z.of_nat (length bs)))
          by lia.
        replace (len - i - Z.of_nat (length bs)) with (len - (i + Z.of_nat (length bs)))
          by lia.
        exact Hh.
  - apply Z.ltb_ge in El. intros [= <- <-] _. exists []. rewrite app_nil_r.
    split; [reflexivity|]. replace (len - i) with 0 by lia. apply holds_nil.
Qed.

Lemma urandom_start_data save buf len fuel :
  forall (s : machine W) r s',
    0 <= len ->
    urandom_start K fuel save buf len s = Return r s' -> r <> -1 ->
    exists evs, trace s' = trace s ++ evs /\ holds s' buf len (received evs).
Proof.
  induction fuel as [|fuel IH]; intros s r s' Hlen; simpl; [discriminate|].
  destruct (sys_open K (world s)) as [w [e|fd]] eqn:Hk.
  - destruct (e =? EINTR).
    + intros H Hr. destruct (IH _ _ _ Hlen H Hr) as (evs & Ht & Hh).
      exists (E_open (Err e) :: evs).
      split; [rewrite Ht; simpl; now rewrite <- app_assoc | exact Hh].
    + intros [= <- <-] Hr. congruence.
  - destruct (verify_and_read_cases K fuel save fd buf len (called w (E_open (Ok fd)) s))
      as [(w1 & e & _ & ->)|[(w1 & m & _ & _ & ->)|[(w1 & m & w' & e & _ & _ & _ & ->)
         |(w1 & m & w' & c & _ & _ & _ & ->)]]];
      try (intros [= <- <-] Hr; congruence).
    intros H Hr.
    destruct (read_loop_data save fd buf len fuel 0 _ r s' ltac:(lia) H Hr)
      as (evs & Ht & Hh).
    exists (E_open (Ok fd) :: E_fstat fd (Ok m) :: E_ioctl fd (Ok c) :: evs).
    split; [rewrite Ht; simpl; now rewrite <- !app_assoc|].
    rewrite Z.add_0_r, Z.sub_0_r in Hh. exact Hh.
Qed.

End Data.

(** X8.  No byte is lost, repeated or moved.  On a system whose
    primitives transfer the amounts they report, when a strategy
    ([getentropy_getrandom], [getentropy_urandom], [getentropy_sysctl])
    returns 0 for [n <= 256] bytes, the bytes its primitives transferred,
    short transfers and retries included, are [n] in all, and the buffer
    holds them in the order they were transferred; the same for the one
    transfer of the Windows and arc4random bodies when they return
    true. *)
Theorem buffer_holds_transfers_in_order :
  forall (W : Type) (K : kernel W) (fuel : nat) (buf n : Z) (s : machine W),
    kernel_contract K ->
    0 <= n <= 256 ->
    (forall r s' evs,
       getentropy_getrandom K fuel buf n s = Return r s' -> r <> -1 ->
       trace s' = trace s ++ evs -> holds s' buf n (received evs)) /\
    (forall r s' evs,
       getentropy_urandom K fuel buf n s = Return r s' -> r <> -1 ->
       trace s' = trace s ++ evs -> holds s' buf n (received evs)) /\
    (forall r s' evs,
       getentropy_sysctl K fuel buf n s = Return r s' -> r <> -1 ->
       trace s' = trace s ++ evs -> holds s' buf n (received evs)) /\
    (forall s' evs,
       ggentropy K PLATFORM_WINDOWS fuel buf n s = Return true s' ->
       trace s' = trace s ++ evs -> holds s' buf n (received evs)) /\
    (forall s' evs,
       ggentropy K PLATFORM_HAS_ARC4RANDOM fuel buf n s = Return true s' ->
       trace s' = trace s ++ evs -> holds s' buf n (received evs)).
Proof.
  intros W K fuel buf n s HK Hn.
  assert (Hsame : forall (s' : machine W) evs evs',
            trace s' = trace s ++ evs -> trace s' = trace s ++ evs' -> evs' = evs).
  { intros s' evs evs' H1 H2. rewrite H1 in H2. now apply app_inv_head in H2. }
  split; [|split; [|split; [|split]]].
  - intros r s' evs H Hr Ht. unfold getentropy_getrandom in H.
    rewrite int_of_small in H by lia.
    destruct (getrandom_loop_data K HK (errno s) fuel buf n s r s' ltac:(lia) H Hr)
      as (evs' & Ht' & Hh).
    now rewrite <- (Hsame s' evs evs' Ht Ht').
  - intros r s' evs H Hr Ht. unfold getentropy_urandom in H.
    destruct (urandom_start_data K HK (errno s) buf n fuel s r s' ltac:(lia) H Hr)
      as (evs' & Ht' & Hh).
    now rewrite <- (Hsame s' evs evs' Ht Ht').
  - intros r s' evs H Hr Ht. unfold getentropy_sysctl in H.
    destruct (sysctl_loop_data K HK (errno s) buf n fuel 0 s r s' ltac:(lia) H Hr)
      as (evs' & Ht' & Hh).
    rewrite Z.add_0_r, Z.sub_0_r in Hh.
    now rewrite <- (Hsame s' evs evs' Ht Ht').
  - intros s' evs H Ht. simpl in H. unfold ggentropy_windows, assert_n in H.
    replace (n <=? 256) with true in H by (symmetry; apply Z.leb_le; lia).
    simpl in H.
    destruct (BCryptGenRandom K (world s) n) as [w [e|bs]] eqn:Hk; [discriminate|].
    injection H as <-.
    pose proof (bcrypt_all K HK _ _ _ _ Hk (proj1 Hn)) as Hlen.
    rewrite <- (Hsame _ evs [E_BCryptGenRandom buf n (Ok bs)] Ht eq_refl).
    simpl. rewrite app_nil_r. split; [exact Hlen|].
    intros k Hk'. unfold write. cbn [mem]. rewrite store_value by lia. f_equal. lia.
  - intros s' evs H Ht. simpl in H. unfold ggentropy_arc4random, assert_n in H.
    replace (n <=? 256) with true in H by (symmetry; apply Z.leb_le; lia).
    simpl in H.
    destruct (arc4random_buf K (world s) n) as [w bs] eqn:Hk.
    injection H as <-.
    pose proof (arc4random_all K HK _ _ _ _ Hk (proj1 Hn)) as Hlen.
    rewrite <- (Hsame _ evs [E_arc4random_buf buf n bs] Ht eq_refl).
    simpl. rewrite app_nil_r. split; [exact Hlen|].
    intros k Hk'. unfold write. cbn [mem]. rewrite store_value by lia. f_equal. lia.
Qed.

(** Under the burst of signals the device serves 7 bytes in two reads,
    of 5 and of 2 bytes; the buffer holds the 7 bytes. *)
Lemma buffer_holds_transfers_in_order_witness :
  exists s' : machine nat,
    getentropy_urandom (scripted flaky) 24 1000 7 (boot 0%nat blank) = Return 0 s' /\
    holds s' 1000 7 (received (trace s')).
Proof.
  destruct (getentropy_urandom (scripted flaky) 24 1000 7 (boot 0%nat blank))
    as [r s'| |] eqn:E; try discriminate.
  assert (Hr : r = 0) by (vm_compute in E; injection E as <- _; reflexivity).
  subst r. exists s'. split; [reflexivity|].
  assert (Hn : 0 <= 7 <= 256) by lia.
  destruct (buffer_holds_transfers_in_order nat (scripted flaky) 24 1000 7
              (boot 0%nat blank) flaky_contract Hn) as (_ & HB & _).
  apply (HB 0 s' (trace s') E); [discriminate | reflexivity].
Defined.
